(** * Film-catalogue migration: SQLite to PostgreSQL loader and consistency checker

    A shallow embedding of [sqlite_to_postgres/load_data.py] (the batched
    reader, the conflict-skipping writer and the orchestration loop) and of
    [sqlite_to_postgres/tests/check_consistency.py] (the count and content
    checks), together with the facts the specification states about them.

    Layout.  Definitions first: Python values and [datetime]; the checker;
    a model of the PostgreSQL connection (transactions, primary keys,
    unique constraints, foreign keys); the loader; the notions and the
    concrete stores used in the statements.  Then the theorems, module by
    module: checker, reader, target store, writer and whole run; further
    facts about each of them follow in the same order, and last the loader
    and the checker together. *)

From Stdlib Require Import ZArith List String Ascii Bool Lia SpecFloat
  DecimalString.
Import ListNotations.
Local Open Scope string_scope.
Local Open Scope list_scope.
Local Open Scope Z_scope.

(** ** Python values *)

Module Py.

(** [datetime.datetime]: the civil fields and, for an aware value, the UTC
    offset of its [tzinfo] in seconds ([None] for a naive value). *)
Record datetime := mkDatetime {
  year : Z; month : Z; day : Z;
  hour : Z; minute : Z; second : Z; microsecond : Z;
  tzinfo : option Z
}.

(** The values that travel through the two programs: what [sqlite3] hands
    out for a cell ([None], [int], [float], [str]) and what [psycopg2]
    hands out in addition ([datetime]).  A [float] is its IEEE-754
    decomposition, strings are byte strings. *)
Inductive value :=
| PyNone
| PyInt (n : Z)
| PyFloat (f : spec_float)
| PyStr (s : string)
| PyDatetime (d : datetime).

(** The float literal [0.0]. *)
Definition float_zero : spec_float := S754_zero false.

(** Exceptions that the modelled code can raise. *)
Inductive assertion_message :=
| RecordCountMismatch (table : string)
| RowCountMismatch (table : string)
| Mismatch (id : value) (column : string) (sqlite_value pg_value : value).

Inductive exn :=
| AssertionError (m : assertion_message)
| ValueError
| OverflowError
| IndexError (key : string)
| KeyError (key : string)
| DatabaseError (table : string).

Inductive result (A : Type) :=
| Ok (a : A)
| Raise (e : exn).
Arguments Ok {A} a.
Arguments Raise {A} e.

Definition rbind {A B} (r : result A) (k : A -> result B) : result B :=
  match r with
  | Ok a => k a
  | Raise e => Raise e
  end.

(** *** Structural equality (used where values are compared as stored data) *)

Definition option_eqb {A} (eqb : A -> A -> bool) (x y : option A) : bool :=
  match x, y with
  | Some a, Some b => eqb a b
  | None, None => true
  | _, _ => false
  end.

Definition datetime_eqb (a b : datetime) : bool :=
  (year a =? year b) && (month a =? month b) && (day a =? day b) &&
  (hour a =? hour b) && (minute a =? minute b) && (second a =? second b) &&
  (microsecond a =? microsecond b) && option_eqb Z.eqb (tzinfo a) (tzinfo b).

Definition float_same (f g : spec_float) : bool :=
  match f, g with
  | S754_zero s, S754_zero t => Bool.eqb s t
  | S754_infinity s, S754_infinity t => Bool.eqb s t
  | S754_nan, S754_nan => true
  | S754_finite s m e, S754_finite t n k =>
      Bool.eqb s t && Pos.eqb m n && Z.eqb e k
  | _, _ => false
  end.

Definition value_eqb (v w : value) : bool :=
  match v, w with
  | PyNone, PyNone => true
  | PyInt a, PyInt b => a =? b
  | PyFloat f, PyFloat g => float_same f g
  | PyStr s, PyStr t => String.eqb s t
  | PyDatetime a, PyDatetime b => datetime_eqb a b
  | _, _ => false
  end.

(** *** Calendar arithmetic of [datetime] *)

Definition is_leap (y : Z) : bool :=
  (y mod 4 =? 0) && (negb (y mod 100 =? 0) || (y mod 400 =? 0)).

Definition days_in_month (y m : Z) : Z :=
  if m =? 2 then (if is_leap y then 29 else 28)
  else if (m =? 4) || (m =? 6) || (m =? 9) || (m =? 11) then 30
  else 31.

Definition days_before_year (y : Z) : Z :=
  let p := y - 1 in p * 365 + p / 4 - p / 100 + p / 400.

(** Days of the non-leap year that precede month [m]. *)
Definition days_before_month_table (m : Z) : Z :=
  nth (Z.to_nat m) [0; 0; 31; 59; 90; 120; 151; 181; 212; 243; 273; 304; 334] 0.

Definition days_before_month (y m : Z) : Z :=
  days_before_month_table m + (if (2 <? m) && is_leap y then 1 else 0).

Definition ymd2ord (y m d : Z) : Z :=
  days_before_year y + days_before_month y m + d.

Definition ord2ymd (ordinal : Z) : Z * Z * Z :=
  let n := ordinal - 1 in
  let n400 := n / 146097 in
  let n := n mod 146097 in
  let n100 := n / 36524 in
  let n := n mod 36524 in
  let n4 := n / 1461 in
  let n := n mod 1461 in
  let n1 := n / 365 in
  let n := n mod 365 in
  let y := n400 * 400 + 1 + n100 * 100 + n4 * 4 + n1 in
  if (n1 =? 4) || (n100 =? 4) then (y - 1, 12, 31)
  else
    let leapyear := (n1 =? 3) && (negb (n4 =? 24) || (n100 =? 3)) in
    let m := Z.shiftr (n + 50) 5 in
    let preceding :=
      days_before_month_table m + (if (2 <? m) && leapyear then 1 else 0) in
    if n <? preceding then
      let m' := m - 1 in
      let preceding' :=
        days_before_month_table m' + (if (2 <? m') && leapyear then 1 else 0) in
      (y, m', n - preceding' + 1)
    else (y, m, n - preceding + 1).

(** The largest ordinal, that of 9999-12-31. *)
Definition max_ordinal : Z := 3652059.

Definition us_per_day : Z := 86400 * 1000000.

(** Microseconds since the start of ordinal day 0, reading the fields as
    they stand (the offset is not applied). *)
Definition to_microseconds (d : datetime) : Z :=
  (ymd2ord (year d) (month d) (day d)) * us_per_day
  + ((hour d * 60 + minute d) * 60 + second d) * 1000000
  + microsecond d.

Definition of_microseconds (us : Z) (tz : option Z) : result datetime :=
  let ordinal := us / us_per_day in
  let r := us mod us_per_day in
  if (ordinal <? 1) || (max_ordinal <? ordinal) then Raise OverflowError
  else
    let '(y, m, d) := ord2ymd ordinal in
    let secs := r / 1000000 in
    Ok (mkDatetime y m d (secs / 3600) ((secs / 60) mod 60) (secs mod 60)
          (r mod 1000000) tz).

(** [d.astimezone(pytz.utc)] for an aware [d] with UTC offset [off]. *)
Definition astimezone_utc (d : datetime) (off : Z) : result datetime :=
  of_microseconds (to_microseconds d - off * 1000000) (Some 0).

(** [d.replace(tzinfo=None)]. *)
Definition replace_tzinfo_none (d : datetime) : datetime :=
  mkDatetime (year d) (month d) (day d) (hour d) (minute d) (second d)
    (microsecond d) None.

(** *** The [==] operator *)

(** The exact value of a finite float is [(-1)^s * m * 2^e]; an [int] equals
    a [float] when the two denote the same number. *)
Definition int_eq_float (n : Z) (f : spec_float) : bool :=
  match f with
  | S754_zero _ => n =? 0
  | S754_finite s m e =>
      let sm := if s then Z.neg m else Z.pos m in
      if 0 <=? e then n =? sm * 2 ^ e else n * 2 ^ (- e) =? sm
  | _ => false
  end.

Definition datetime_eq (a b : datetime) : bool :=
  match tzinfo a, tzinfo b with
  | None, None => datetime_eqb a b
  | Some oa, Some ob =>
      to_microseconds a - oa * 1000000 =? to_microseconds b - ob * 1000000
  | _, _ => false
  end.

Definition py_eq (v w : value) : bool :=
  match v, w with
  | PyNone, PyNone => true
  | PyInt a, PyInt b => a =? b
  | PyInt a, PyFloat f => int_eq_float a f
  | PyFloat f, PyInt a => int_eq_float a f
  | PyFloat f, PyFloat g => SFeqb f g
  | PyStr s, PyStr t => String.eqb s t
  | PyDatetime a, PyDatetime b => datetime_eq a b
  | _, _ => false
  end.

(** Truth value of an object, as [or] and [if] take it. *)
Definition truthy (v : value) : bool :=
  match v with
  | PyNone => false
  | PyInt n => negb (n =? 0)
  | PyFloat f => negb (SFeqb f float_zero)
  | PyStr s => negb (String.eqb s "")
  | PyDatetime _ => true
  end.

Definition is_none (v : value) : bool :=
  match v with PyNone => true | _ => false end.

(** *** Strings *)

(** [sub in s]. *)
Fixpoint contains (sub s : string) : bool :=
  String.prefix sub s ||
  match s with
  | EmptyString => false
  | String _ s' => contains sub s'
  end.

(** [s.replace(old, new)] for a non-empty [old]: occurrences are taken from
    the left and do not overlap.  [skip] counts the characters of the
    occurrence just matched that are still to be dropped. *)
Fixpoint replace_from (old new : string) (skip : nat) (s : string) : string :=
  match s with
  | EmptyString => EmptyString
  | String c s' =>
      match skip with
      | S k => replace_from old new k s'
      | O =>
          if String.prefix old s
          then String.append new
                 (replace_from old new (Nat.pred (String.length old)) s')
          else String c (replace_from old new O s')
      end
  end.

Definition replace (old new s : string) : string := replace_from old new O s.

(** *** [datetime.strptime(s, '%Y-%m-%d %H:%M:%S.%f')]

    [strptime] compiles the format to a regular expression, takes the first
    match in backtracking order anchored at the start of the string, and
    rejects the string if the match does not reach its end.  A matcher
    below returns every way to match a piece, in the order a backtracking
    engine tries them, each with the integer read and the rest of the
    string. *)

Definition matcher := string -> list (Z * string).

Definition is_digit (c : ascii) : bool :=
  let n := nat_of_ascii c in (48 <=? n)%nat && (n <=? 57)%nat.

Definition digit_value (c : ascii) : Z := Z.of_nat (nat_of_ascii c) - 48.

Definition in_range (lo hi : Z) (c : ascii) : bool :=
  is_digit c && (lo <=? digit_value c) && (digit_value c <=? hi).

(** Whitespace as [\s] takes it on a byte string. *)
Definition is_space (c : ascii) : bool :=
  let n := nat_of_ascii c in
  ((9 <=? n)%nat && (n <=? 13)%nat) || ((28 <=? n)%nat && (n <=? 32)%nat).

(** One digit in [[lo-hi]]. *)
Definition digit_in (lo hi : Z) : matcher := fun s =>
  match s with
  | String c s' => if in_range lo hi c then [(digit_value c, s')] else []
  | EmptyString => []
  end.

(** A fixed digit [d] followed by a digit in [[lo-hi]], read as a number. *)
Definition two_digits (d lo hi : Z) : matcher := fun s =>
  match s with
  | String c (String c' s') =>
      if in_range d d c && in_range lo hi c'
      then [(10 * digit_value c + digit_value c', s')] else []
  | _ => []
  end.

(** A leading digit in [[lo1-hi1]] followed by a digit in [[lo2-hi2]]. *)
Definition digit_pair (lo1 hi1 lo2 hi2 : Z) : matcher := fun s =>
  match s with
  | String c (String c' s') =>
      if in_range lo1 hi1 c && in_range lo2 hi2 c'
      then [(10 * digit_value c + digit_value c', s')] else []
  | _ => []
  end.

(** Alternation [a|b]: the ways of [a] first. *)
Definition alt (a b : matcher) : matcher := fun s => a s ++ b s.

(** [%Y]: [\d\d\d\d]. *)
Definition match_Y : matcher := fun s =>
  match s with
  | String a (String b (String c (String d s'))) =>
      if is_digit a && is_digit b && is_digit c && is_digit d
      then [(((digit_value a * 10 + digit_value b) * 10 + digit_value c) * 10
             + digit_value d, s')]
      else []
  | _ => []
  end.

(** [%m]: [1[0-2]|0[1-9]|[1-9]]. *)
Definition match_m : matcher :=
  alt (two_digits 1 0 2) (alt (two_digits 0 1 9) (digit_in 1 9)).

(** [%d]: [3[0-1]|[1-2]\d|0[1-9]|[1-9]| [1-9]]. *)
Definition match_d : matcher :=
  alt (two_digits 3 0 1)
    (alt (digit_pair 1 2 0 9)
       (alt (two_digits 0 1 9)
          (alt (digit_in 1 9)
             (fun s => match s with
                       | String " " s' => digit_in 1 9 s'
                       | _ => []
                       end)))).

(** [%H]: [2[0-3]|[0-1]\d|\d]. *)
Definition match_H : matcher :=
  alt (two_digits 2 0 3) (alt (digit_pair 0 1 0 9) (digit_in 0 9)).

(** [%M]: [[0-5]\d|\d]. *)
Definition match_M : matcher := alt (digit_pair 0 5 0 9) (digit_in 0 9).

(** [%S]: [6[0-1]|[0-5]\d|\d]. *)
Definition match_S : matcher :=
  alt (two_digits 6 0 1) (alt (digit_pair 0 5 0 9) (digit_in 0 9)).

(** A literal character of the format. *)
Definition literal (c : ascii) (s : string) : list string :=
  match s with
  | String c' s' => if Ascii.eqb c c' then [s'] else []
  | EmptyString => []
  end.

(** [\s+], greedy: the longest run of whitespace first, then shorter ones. *)
Fixpoint spaces (s : string) : list string :=
  match s with
  | String c s' => if is_space c then spaces s' ++ [s'] else []
  | EmptyString => []
  end.

(** [%f]: [[0-9]{1,6}], greedy.  [digits_upto n] returns the digit strings
    of length 1 to [n] that start [s], longest first; the value read is the
    digits padded with zeros on the right to six places. *)
Fixpoint digits_upto (n : nat) (acc : Z) (s : string) : list (Z * string) :=
  match n with
  | O => []
  | S k =>
      match s with
      | String c s' =>
          if is_digit c
          then let acc' := acc * 10 + digit_value c in
               digits_upto k acc' s' ++ [(acc' * 10 ^ Z.of_nat k, s')]
          else []
      | EmptyString => []
      end
  end.

Definition match_f : matcher := digits_upto 6 0.

(** All matches of the compiled format, in backtracking order: the fields
    read and the unconsumed rest. *)
Definition format_matches (s : string) : list (datetime * string) :=
  flat_map (fun '(year, s) =>
  flat_map (fun s =>
  flat_map (fun '(month, s) =>
  flat_map (fun s =>
  flat_map (fun '(day, s) =>
  flat_map (fun s =>
  flat_map (fun '(hour, s) =>
  flat_map (fun s =>
  flat_map (fun '(minute, s) =>
  flat_map (fun s =>
  flat_map (fun '(second, s) =>
  flat_map (fun s =>
  map (fun '(fraction, s) =>
         (mkDatetime year month day hour minute second fraction None, s))
    (match_f s))
    (literal "." s)) (match_S s))
    (literal ":" s)) (match_M s))
    (literal ":" s)) (match_H s))
    (spaces s)) (match_d s))
    (literal "-" s)) (match_m s))
    (literal "-" s)) (match_Y s).

(** The checks of the [date] and [datetime] constructors on the fields the
    format can produce. *)
Definition valid_fields (d : datetime) : bool :=
  (1 <=? year d) && (1 <=? day d) && (day d <=? days_in_month (year d) (month d))
  && (second d <=? 59).

(** [None] stands for [ValueError]. *)
Definition strptime (s : string) : option datetime :=
  match format_matches s with
  | (d, EmptyString) :: _ => if valid_fields d then Some d else None
  | _ => None
  end.

End Py.

(** ** The consistency checker ([tests/check_consistency.py]) *)

Module Checker.
Import Py.

(** A fetched row: the columns in the order the cursor reports them.
    [sqlite3.Row] and [RealDictRow] are both read by column name. *)
Definition row := list (string * value).

Definition keys (r : row) : list string := map fst r.

Fixpoint lookup (column : string) (r : row) : option value :=
  match r with
  | [] => None
  | (c, v) :: r' => if String.eqb c column then Some v else lookup column r'
  end.

(** [sqlite_row[column]]: [sqlite3.Row] raises [IndexError] on a name it
    does not have. *)
Definition sqlite_getitem (r : row) (column : string) : result value :=
  match lookup column r with
  | Some v => Ok v
  | None => Raise (IndexError column)
  end.

(** [pg_row[column]]: a dictionary raises [KeyError]. *)
Definition pg_getitem (r : row) (column : string) : result value :=
  match lookup column r with
  | Some v => Ok v
  | None => Raise (KeyError column)
  end.

(** A query_connection, as the checker sees it: for a table name, the rows that
    [SELECT * FROM table ORDER BY id] returns, or [None] when the table
    does not exist.  [SELECT COUNT( * )] is the length of that list. *)
Definition query_connection := string -> option (list row).

(** What the checker writes to its logger. *)
Inductive log_record :=
| InfoCheckingTable (table : string)
| InfoCounts (table : string) (sqlite_count pg_count : nat)
| InfoCountMatches (table : string)
| InfoCheckingContent (table : string)
| InfoContentMatches (table : string)
| InfoTablePassed (table : string)
| ErrorLogged (m : assertion_message)
| InfoTestingCompleted.

(** Computations that log and may raise. *)
Definition M (A : Type) : Type := list log_record -> result A * list log_record.

Definition ret {A} (a : A) : M A := fun log => (Ok a, log).

Definition raise {A} (e : exn) : M A := fun log => (Raise e, log).

Definition bind {A B} (m : M A) (k : A -> M B) : M B := fun log =>
  match m log with
  | (Ok a, log') => k a log'
  | (Raise e, log') => (Raise e, log')
  end.

Definition lift {A} (r : result A) : M A := fun log => (r, log).

Definition logger (r : log_record) : M unit := fun log => (Ok tt, log ++ [r]).

Declare Scope checker_scope.
Delimit Scope checker_scope with checker.
Notation "x <- m ;; k" := (bind m (fun x => k))
  (at level 61, m at next level, right associativity) : checker_scope.
Notation "m ;; k" := (bind m (fun _ => k))
  (at level 61, right associativity) : checker_scope.
Local Open Scope checker_scope.

(** [assert cond, message]. *)
Definition py_assert (cond : bool) (m : assertion_message) : M unit :=
  if cond then ret tt else raise (AssertionError m).

(** [for x in xs: body(x)]. *)
Fixpoint for_each {A} (xs : list A) (body : A -> M unit) : M unit :=
  match xs with
  | [] => ret tt
  | x :: xs' => body x ;; for_each xs' body
  end.

(** [try: body  except AssertionError as e: handler(e)]. *)
Definition try_except_AssertionError
  (body : M unit) (handler : assertion_message -> M unit) : M unit :=
  fun log =>
    match body log with
    | (Raise (AssertionError m), log') => handler m log'
    | other => other
    end.

Definition execute_count (conn : query_connection) (table : string) : M nat :=
  match conn table with
  | Some rows => ret (List.length rows)
  | None => raise (DatabaseError table)
  end.

Definition execute_select_order_by_id (conn : query_connection) (table : string)
  : M (list row) :=
  match conn table with
  | Some rows => ret rows
  | None => raise (DatabaseError table)
  end.

Definition convert_sqlite_datetime (v : value) : result value :=
  match v with
  | PyStr s =>
      if contains "+00" s then
        match strptime (replace "+00" "" s) with
        | Some d => Ok (PyDatetime d)
        | None => Raise ValueError
        end
      else Ok v
  | _ => Ok v
  end.

Definition convert_postgres_datetime (v : value) : result value :=
  match v with
  | PyDatetime d =>
      match tzinfo d with
      | Some off =>
          rbind (astimezone_utc d off)
            (fun u => Ok (PyDatetime (replace_tzinfo_none u)))
      | None => Ok v
      end
  | _ => Ok v
  end.

Definition compare_table_count (sqlite_conn pg_conn : query_connection)
  (table : string) : M bool :=
  sqlite_count <- execute_count sqlite_conn table ;;
  pg_count <- execute_count pg_conn table ;;
  logger (InfoCounts table sqlite_count pg_count) ;;
  py_assert (Nat.eqb sqlite_count pg_count) (RecordCountMismatch table) ;;
  logger (InfoCountMatches table) ;;
  ret true.

Definition is_timestamp_column (column : string) : bool :=
  String.eqb column "created" || String.eqb column "modified".

(** The body of the inner loop of [compare_table_data]: one column of one
    pair of rows.  The assertion message is built, and [sqlite_row['id']]
    read, only when the assertion fails. *)
Definition compare_column (sqlite_row pg_row : row) (column : string)
  : result unit :=
  rbind (sqlite_getitem sqlite_row column) (fun sqlite_value =>
  rbind (pg_getitem pg_row column) (fun pg_value =>
  rbind (if is_timestamp_column column
         then rbind (convert_sqlite_datetime sqlite_value) (fun s =>
              rbind (convert_postgres_datetime pg_value) (fun p => Ok (s, p)))
         else Ok (sqlite_value, pg_value))
    (fun '(sqlite_value, pg_value) =>
       if is_none sqlite_value && py_eq pg_value (PyFloat float_zero)
       then Ok tt
       else if py_eq sqlite_value pg_value then Ok tt
       else rbind (sqlite_getitem sqlite_row "id") (fun id =>
              Raise (AssertionError
                       (Mismatch id column sqlite_value pg_value)))))).

Definition compare_table_data (sqlite_conn pg_conn : query_connection)
  (table : string) : M bool :=
  sqlite_rows <- execute_select_order_by_id sqlite_conn table ;;
  pg_rows <- execute_select_order_by_id pg_conn table ;;
  logger (InfoCheckingContent table) ;;
  py_assert (Nat.eqb (List.length sqlite_rows) (List.length pg_rows))
    (RowCountMismatch table) ;;
  for_each (combine sqlite_rows pg_rows) (fun '(sqlite_row, pg_row) =>
    for_each (keys sqlite_row) (fun column =>
      lift (compare_column sqlite_row pg_row column))) ;;
  logger (InfoContentMatches table) ;;
  ret true.

Definition tables : list string :=
  ["person"; "genre"; "film_work"; "genre_film_work"; "person_film_work"].

(** The body of the loop over the tables. *)
Definition check_table (sqlite_conn pg_conn : query_connection) (table : string)
  : M unit :=
  logger (InfoCheckingTable table) ;;
  try_except_AssertionError
    (compare_table_count sqlite_conn pg_conn table ;;
     compare_table_data sqlite_conn pg_conn table ;;
     logger (InfoTablePassed table))
    (fun e => logger (ErrorLogged e)).

Definition test_data_integrity (sqlite_conn pg_conn : query_connection) : M unit :=
  for_each tables (check_table sqlite_conn pg_conn) ;;
  logger InfoTestingCompleted.

End Checker.

(** ** The target store: a PostgreSQL connection as [psycopg2] drives it

    The loader only issues [INSERT ... ON CONFLICT (...) DO NOTHING] and
    [commit()].  The server is modelled as far as those two need it: the
    five tables with their primary keys, unique constraints and foreign
    keys, and the transaction that [psycopg2] opens at the first statement.
    Constraints are checked when the statement runs.  A statement that
    fails leaves the transaction failed: the server refuses every further
    statement until the transaction ends, and a commit then rolls back.
    Column types, other NOT NULL columns and defaults are outside the
    model; a stored cell is the parameter that was sent for it. *)

Module Postgres.
Import Py.

Inductive table := person | genre | film_work | person_film_work | genre_film_work.

(** A stored row: column name and cell. *)
Definition pg_row := list (string * value).

(** The cell of a column; a column the row does not mention is NULL. *)
Fixpoint field (r : pg_row) (column : string) : value :=
  match r with
  | [] => PyNone
  | (c, v) :: r' => if String.eqb c column then v else field r' column
  end.

Record database := mkDatabase {
  person_rows : list pg_row;
  genre_rows : list pg_row;
  film_work_rows : list pg_row;
  person_film_work_rows : list pg_row;
  genre_film_work_rows : list pg_row
}.

Definition empty_database : database := mkDatabase [] [] [] [] [].

Definition rows_of (db : database) (t : table) : list pg_row :=
  match t with
  | person => person_rows db
  | genre => genre_rows db
  | film_work => film_work_rows db
  | person_film_work => person_film_work_rows db
  | genre_film_work => genre_film_work_rows db
  end.

Definition set_rows (db : database) (t : table) (rows : list pg_row) : database :=
  match t with
  | person =>
      mkDatabase rows (genre_rows db) (film_work_rows db)
        (person_film_work_rows db) (genre_film_work_rows db)
  | genre =>
      mkDatabase (person_rows db) rows (film_work_rows db)
        (person_film_work_rows db) (genre_film_work_rows db)
  | film_work =>
      mkDatabase (person_rows db) (genre_rows db) rows
        (person_film_work_rows db) (genre_film_work_rows db)
  | person_film_work =>
      mkDatabase (person_rows db) (genre_rows db) (film_work_rows db)
        rows (genre_film_work_rows db)
  | genre_film_work =>
      mkDatabase (person_rows db) (genre_rows db) (film_work_rows db)
        (person_film_work_rows db) rows
  end.

(** The declared keys of a table ([movies/models.py]): the primary key,
    the further unique constraints, and the foreign keys with the table
    each one references. *)
Record table_schema := mkSchema {
  primary_key : string;
  unique_constraints : list (list string);
  foreign_keys : list (string * table)
}.

Definition schema (t : table) : table_schema :=
  match t with
  | person => mkSchema "id" [] []
  | genre => mkSchema "id" [["name"]] []
  | film_work => mkSchema "id" [] []
  | person_film_work =>
      mkSchema "id" [["film_work_id"; "person_id"; "role"]]
        [("film_work_id", film_work); ("person_id", person)]
  | genre_film_work =>
      mkSchema "id" [["genre_id"; "film_work_id"]]
        [("film_work_id", film_work); ("genre_id", genre)]
  end.

(** Every unique index of a table, the primary key's first. *)
Definition unique_indexes (t : table) : list (list string) :=
  [primary_key (schema t)] :: unique_constraints (schema t).

(** [INSERT INTO into (columns) VALUES (parameters)
     ON CONFLICT (on_conflict) DO NOTHING]. *)
Record insert_statement := mkInsert {
  into : table;
  columns : list string;
  parameters : list value;
  on_conflict : list string
}.

Definition new_row (st : insert_statement) : pg_row :=
  combine (columns st) (parameters st).

Inductive pg_error :=
| InFailedSqlTransaction
| InvalidColumnReference
| NotNullViolation (column : string)
| UniqueViolation (index : list string)
| ForeignKeyViolation (column : string).

(** What the server answers to one statement: [INSERT 0 1], [INSERT 0 0]
    (the conflict clause fired), or an error. *)
Inductive outcome :=
| Inserted
| Skipped
| Failed (e : pg_error).

(** Two rows collide on an index when they agree on all its columns and
    none of the cells is NULL. *)
Definition key_conflict (index : list string) (new old : pg_row) : bool :=
  forallb (fun c => negb (is_none (field new c))
                    && value_eqb (field old c) (field new c)) index.

Definition same_columns (a b : list string) : bool :=
  forallb (fun c => existsb (String.eqb c) b) a
  && forallb (fun c => existsb (String.eqb c) a) b.

(** The conflict target must name the columns of a unique index. *)
Definition is_arbiter (t : table) (target : list string) : bool :=
  existsb (same_columns target) (unique_indexes t).

Definition references_missing (db : database) (new : pg_row)
  (fk : string * table) : bool :=
  let '(column, parent) := fk in
  negb (is_none (field new column))
  && negb (existsb (fun p => value_eqb (field p (primary_key (schema parent)))
                               (field new column))
             (rows_of db parent)).

(** The fate of one insert against the tables as the transaction sees
    them: the conflict target is looked up first, then the remaining unique
    indexes, then the foreign keys. *)
Definition insert_outcome (db : database) (st : insert_statement) : outcome :=
  let t := into st in
  let new := new_row st in
  let existing := rows_of db t in
  if negb (is_arbiter t (on_conflict st)) then Failed InvalidColumnReference
  else if is_none (field new (primary_key (schema t)))
  then Failed (NotNullViolation (primary_key (schema t)))
  else if existsb (key_conflict (on_conflict st) new) existing then Skipped
  else
    match find (fun index => existsb (key_conflict index new) existing)
            (unique_indexes t) with
    | Some index => Failed (UniqueViolation index)
    | None =>
        match find (references_missing db new) (foreign_keys (schema t)) with
        | Some (column, _) => Failed (ForeignKeyViolation column)
        | None => Inserted
        end
    end.

Definition insert_row (db : database) (st : insert_statement) : database :=
  set_rows db (into st) (rows_of db (into st) ++ [new_row st]).

(** The transaction of a connection: none open, open with its working copy
    of the tables, or failed (every further statement is refused until the
    transaction ends). *)
Inductive transaction :=
| Idle
| InTransaction (work : database)
| Aborted.

(** [replies] keeps the server's answers, oldest first. *)
Record connection := mkConnection {
  committed : database;
  tx : transaction;
  replies : list outcome
}.

Definition connect (db : database) : connection := mkConnection db Idle [].

(** [cursor.execute(statement)]: the first statement opens a transaction;
    an error leaves the transaction failed. *)
Definition execute (c : connection) (st : insert_statement)
  : outcome * connection :=
  let run (work : database) :=
    match insert_outcome work st with
    | Inserted =>
        (Inserted, mkConnection (committed c)
                     (InTransaction (insert_row work st))
                     (replies c ++ [Inserted]))
    | Skipped =>
        (Skipped, mkConnection (committed c) (InTransaction work)
                    (replies c ++ [Skipped]))
    | Failed e =>
        (Failed e, mkConnection (committed c) Aborted
                     (replies c ++ [Failed e]))
    end in
  match tx c with
  | Idle => run (committed c)
  | InTransaction work => run work
  | Aborted =>
      (Failed InFailedSqlTransaction,
       mkConnection (committed c) Aborted
         (replies c ++ [Failed InFailedSqlTransaction]))
  end.

(** [connection.commit()]: a failed transaction is rolled back. *)
Definition commit (c : connection) : connection :=
  match tx c with
  | Idle => c
  | InTransaction work => mkConnection work Idle (replies c)
  | Aborted => mkConnection (committed c) Idle (replies c)
  end.

End Postgres.

(** ** The loader ([load_data.py]) *)

Module Loader.
Import Py Postgres.

(** The rows [SELECT *] returns from each source table, read by column
    name.  The five tables are taken to exist with the columns the writers
    read; the error branch of [load_data] and a missing column are outside
    the model. *)
Record person_row := mkPerson {
  p_id : value; p_full_name : value; p_created : value; p_modified : value
}.

Record genre_row := mkGenre {
  g_id : value; g_name : value; g_description : value;
  g_created : value; g_modified : value
}.

Record film_work_row := mkFilmWork {
  fw_id : value; fw_title : value; fw_description : value;
  fw_creation_date : value; fw_file_path : value; fw_rating : value;
  fw_type : value; fw_created : value; fw_modified : value
}.

Record person_film_work_row := mkPersonFilmWork {
  pfw_id : value; pfw_role : value; pfw_created : value;
  pfw_film_work_id : value; pfw_person_id : value
}.

Record genre_film_work_row := mkGenreFilmWork {
  gfw_id : value; gfw_created : value;
  gfw_film_work_id : value; gfw_genre_id : value
}.

(** The source store; the loader only reads it. *)
Record sqlite_database := mkSqlite {
  src_person : list person_row;
  src_genre : list genre_row;
  src_film_work : list film_work_row;
  src_person_film_work : list person_film_work_row;
  src_genre_film_work : list genre_film_work_row
}.

(** What the loader writes to its logger. *)
Inductive loader_record :=
| InfoTableContains (t : table) (total_rows : Z)
| InfoLoaded (t : table) (n : nat)
| WarningInsertError (t : table) (id : value) (e : pg_error).

(** What a run acts on: the target connection, the wall clock
    ([clock n] is what the [n]-th call of [datetime.now()] returns, [ticks]
    counts the calls made) and the logger's output. *)
Record state := mkState {
  conn : connection;
  clock : nat -> datetime;
  ticks : nat;
  log : list loader_record
}.

(** Computations of the loader: they act on the state and do not raise
    (every exception of a statement is caught where it occurs). *)
Definition L (A : Type) : Type := state -> A * state.

Definition L_ret {A} (a : A) : L A := fun st => (a, st).

Definition L_bind {A B} (m : L A) (k : A -> L B) : L B := fun st =>
  let '(a, st') := m st in k a st'.

Declare Scope loader_scope.
Delimit Scope loader_scope with loader.
Notation "x <- m ;; k" := (L_bind m (fun x => k))
  (at level 61, m at next level, right associativity) : loader_scope.
Notation "m ;; k" := (L_bind m (fun _ => k))
  (at level 61, right associativity) : loader_scope.
Local Open Scope loader_scope.

(** [for x in xs: body(x)]. *)
Fixpoint for_in {A} (xs : list A) (body : A -> L unit) : L unit :=
  match xs with
  | [] => L_ret tt
  | x :: xs' => body x ;; for_in xs' body
  end.

(** [datetime.now()]. *)
Definition now : L value := fun st =>
  (PyDatetime (clock st (ticks st)),
   mkState (conn st) (clock st) (S (ticks st)) (log st)).

(** [logger.info(...)] and [logger.warning(...)]. *)
Definition emit (r : loader_record) : L unit := fun st =>
  (tt, mkState (conn st) (clock st) (ticks st) (log st ++ [r])).

(** [cursor.execute(...)], with the server's answer as its result. *)
Definition cursor_execute (stmt : insert_statement) : L outcome := fun st =>
  let '(o, c) := execute (conn st) stmt in
  (o, mkState c (clock st) (ticks st) (log st)).

(** [self.conn.commit()]. *)
Definition conn_commit : L unit := fun st =>
  (tt, mkState (commit (conn st)) (clock st) (ticks st) (log st)).

(** [v or datetime.now()]: the clock is read only when [v] is falsy. *)
Definition or_now (v : value) : L value :=
  if truthy v then L_ret v else now.

(** [v if v is not None else datetime.now()]. *)
Definition if_not_none_else_now (v : value) : L value :=
  if is_none v then now else L_ret v.

(** [try: cursor.execute(...)  except Exception as e: logger.warning(...)]. *)
Definition try_execute (t : table) (id : value) (stmt : insert_statement)
  : L unit :=
  o <- cursor_execute stmt ;;
  match o with
  | Failed e => emit (WarningInsertError t id e)
  | _ => L_ret tt
  end.

(** *** SQLiteLoader *)

(** [SELECT * FROM table LIMIT limit OFFSET offset] over the rows in the
    store's order: a negative limit means no limit, a negative offset
    counts as zero. *)
Definition select_limit_offset {A} (rows : list A) (limit offset : Z) : list A :=
  let rest := skipn (Z.to_nat offset) rows in
  if limit <? 0 then rest else firstn (Z.to_nat limit) rest.

(** The [while offset < total_rows] loop of the generator; [fuel] bounds
    the number of iterations, [None] means it was used up. *)
Fixpoint load_data_loop {A} (fuel : nat) (rows : list A)
  (batch_size total_rows offset : Z) : option (list (list A)) :=
  if offset <? total_rows then
    match fuel with
    | O => None
    | S fuel' =>
        option_map (cons (select_limit_offset rows batch_size offset))
          (load_data_loop fuel' rows batch_size total_rows (offset + batch_size))
    end
  else Some [].

(** The batches [load_data] yields for a table holding [rows]. *)
Definition load_data {A} (fuel : nat) (rows : list A) (batch_size : Z)
  : option (list (list A)) :=
  load_data_loop fuel rows batch_size (Z.of_nat (List.length rows)) 0.

(** *** PostgresSaver *)

Definition insert_person (id full_name created modified : value) :=
  mkInsert person ["id"; "full_name"; "created"; "modified"]
    [id; full_name; created; modified] ["id"].

Definition insert_genre (id name description created modified : value) :=
  mkInsert genre ["id"; "name"; "description"; "created"; "modified"]
    [id; name; description; created; modified] ["id"].

Definition insert_film_work
  (id title description creation_date file_path rating type created modified
   : value) :=
  mkInsert film_work
    ["id"; "title"; "description"; "creation_date"; "file_path";
     "rating"; "type"; "created"; "modified"]
    [id; title; description; creation_date; file_path;
     rating; type; created; modified] ["id"].

Definition insert_person_film_work
  (id role created film_work_id person_id : value) :=
  mkInsert person_film_work
    ["id"; "role"; "created"; "film_work_id"; "person_id"]
    [id; role; created; film_work_id; person_id] ["id"].

Definition insert_genre_film_work (id created film_work_id genre_id : value) :=
  mkInsert genre_film_work ["id"; "created"; "film_work_id"; "genre_id"]
    [id; created; film_work_id; genre_id] ["id"].

(** The statement each writer sends for a row, with its defaults filled
    in. *)
Definition person_statement (row : person_row) : L insert_statement :=
  created <- or_now (p_created row) ;;
  modified <- or_now (p_modified row) ;;
  L_ret (insert_person (p_id row) (p_full_name row) created modified).

Definition genre_statement (row : genre_row) : L insert_statement :=
  created <- or_now (g_created row) ;;
  modified <- or_now (g_modified row) ;;
  L_ret (insert_genre (g_id row) (g_name row) (g_description row)
         created modified).

Definition film_work_statement (row : film_work_row) : L insert_statement :=
  let rating :=
    if negb (is_none (fw_rating row)) then fw_rating row
    else PyFloat float_zero in
  created <- or_now (fw_created row) ;;
  modified <- or_now (fw_modified row) ;;
  L_ret (insert_film_work (fw_id row) (fw_title row) (fw_description row)
         (fw_creation_date row) (fw_file_path row) rating (fw_type row)
         created modified).

Definition person_film_work_statement (row : person_film_work_row)
  : L insert_statement :=
  created <- if_not_none_else_now (pfw_created row) ;;
  L_ret (insert_person_film_work (pfw_id row) (pfw_role row) created
         (pfw_film_work_id row) (pfw_person_id row)).

Definition genre_film_work_statement (row : genre_film_work_row)
  : L insert_statement :=
  created <- if_not_none_else_now (gfw_created row) ;;
  L_ret (insert_genre_film_work (gfw_id row) created
         (gfw_film_work_id row) (gfw_genre_id row)).

(** The shape all five writers share: one guarded [execute] per row, then
    one [commit]. *)
Definition save_rows {A} (t : table) (id_of : A -> value)
  (statement : A -> L insert_statement) (data : list A) : L unit :=
  for_in data (fun row =>
    stmt <- statement row ;;
    try_execute t (id_of row) stmt) ;;
  conn_commit.

Definition save_persons := save_rows person p_id person_statement.

Definition save_genres := save_rows genre g_id genre_statement.

Definition save_film_works := save_rows film_work fw_id film_work_statement.

Definition save_person_film_work :=
  save_rows person_film_work pfw_id person_film_work_statement.

Definition save_genre_film_work :=
  save_rows genre_film_work gfw_id genre_film_work_statement.

(** *** load_from_sqlite *)

(** One [for batch in loader.load_data(table, batch_size=1000)] loop.  The
    generator logs the row count before its first batch.  [None] when the
    generator's loop does not end within [fuel] iterations. *)
Definition migrate_table {A} (t : table) (fuel : nat) (rows : list A)
  (save : list A -> L unit) (st : state) : option state :=
  match load_data fuel rows 1000 with
  | Some batches =>
      Some (snd ((emit (InfoTableContains t (Z.of_nat (List.length rows))) ;;
                  for_in batches (fun batch =>
                    emit (InfoLoaded t (List.length batch)) ;;
                    save batch)) st))
  | None => None
  end.

Definition obind {A B} (o : option A) (k : A -> option B) : option B :=
  match o with Some a => k a | None => None end.

(** The whole run, with [fuel] iterations granted to each reading loop. *)
Definition load_from_sqlite_fuel (fuel : nat) (src : sqlite_database)
  (st : state) : option state :=
  obind (migrate_table person fuel (src_person src) save_persons st)
  (fun st =>
  obind (migrate_table genre fuel (src_genre src) save_genres st)
  (fun st =>
  obind (migrate_table film_work fuel (src_film_work src) save_film_works st)
  (fun st =>
  obind (migrate_table person_film_work fuel (src_person_film_work src)
           save_person_film_work st)
  (fun st =>
  migrate_table genre_film_work fuel (src_genre_film_work src)
    save_genre_film_work st)))).

(** The number of rows of the source. *)
Definition total_rows (src : sqlite_database) : nat :=
  List.length (src_person src) + List.length (src_genre src)
  + List.length (src_film_work src) + List.length (src_person_film_work src)
  + List.length (src_genre_film_work src).

(** The whole run.  A table of [n] rows is read in at most [n] batches, so
    the number of rows of the source is fuel enough for each of the five
    reading loops (see [load_from_sqlite_terminates]). *)
Definition load_from_sqlite (src : sqlite_database) (st : state)
  : option state :=
  load_from_sqlite_fuel (total_rows src) src st.

End Loader.

(** ** Notions for stating the facts about the checker *)

Module CheckerProps.
Import Py Checker.
Local Open Scope checker_scope.

(** A pair of rows passes on a list of columns when the loop body returns
    normally on each of them. *)
Definition columns_pass (sqlite_row pg_row : row) (columns : list string) : Prop :=
  Forall (fun c => compare_column sqlite_row pg_row c = Ok tt) columns.

(** Two lists of rows of the same length whose pairs pass on every column
    of the source row. *)
Definition rows_pass (sqlite_rows pg_rows : list row) : Prop :=
  Forall2 (fun s p => columns_pass s p (keys s)) sqlite_rows pg_rows.

(** The loop over the pairs of rows, as [compare_table_data] runs it. *)
Definition content_loop (pairs : list (row * row)) : M unit :=
  for_each pairs (fun '(sqlite_row, pg_row) =>
    for_each (keys sqlite_row) (fun column =>
      lift (compare_column sqlite_row pg_row column))).

(** The driver's loop body, step by step: what the [try] block returns
    decides what [check_table] does. *)
Definition try_body (sqlite_conn pg_conn : query_connection) (table : string)
  : M unit :=
  compare_table_count sqlite_conn pg_conn table ;;
  compare_table_data sqlite_conn pg_conn table ;;
  logger (InfoTablePassed table).

(** An error-level record of the report. *)
Definition is_error (r : log_record) : bool :=
  match r with
  | ErrorLogged _ => true
  | _ => false
  end.

(** A computation that only appends to the log, and nothing at error
    level. *)
Definition quiet {A} (m : M A) : Prop :=
  forall log, exists added,
    snd (m log) = log ++ added /\ Forall (fun r => is_error r = false) added.

End CheckerProps.

(** ** Stores and rows for concrete runs of the checker *)

Module CheckerScenarios.
Import Py Checker.

(** A pair of stores whose [person] table holds the given rows and whose
    other tables are empty. *)
Definition person_only (person_rows : list row) : query_connection :=
  fun table => if String.eqb table "person" then Some person_rows else Some [].

(** The aware target timestamp of day [d] of May 2023, hour [h], UTC. *)
Definition aware (d h : Z) : value :=
  PyDatetime (mkDatetime 2023 5 d h 0 0 0 (Some 0)).

Definition ann_sqlite : row :=
  [("id", PyStr "p1"); ("full_name", PyStr "Ann");
   ("created", PyStr "2023-05-01 12:00:00.000000+00")].

Definition ann_pg : row :=
  [("id", PyStr "p1"); ("full_name", PyStr "Ann"); ("created", aware 1 12)].

Definition bob_sqlite : row :=
  [("id", PyStr "p2"); ("full_name", PyStr "Bob");
   ("created", PyStr "2023-05-02 12:00:00.000000+00")].

(** Differs from [bob_sqlite] in two columns. *)
Definition bob_pg : row :=
  [("id", PyStr "p2"); ("full_name", PyStr "Rob"); ("created", aware 3 12)].

Definition cy_sqlite : row :=
  [("id", PyStr "p3"); ("full_name", PyStr "Cy");
   ("created", PyStr "2023-05-04 12:00:00.000000+00")].

Definition cy_pg : row :=
  [("id", PyStr "p3"); ("full_name", PyStr "Cyd"); ("created", aware 4 12)].

Definition bob_name_mismatch : assertion_message :=
  Mismatch (PyStr "p2") "full_name" (PyStr "Bob") (PyStr "Rob").

Definition bob_created_mismatch : assertion_message :=
  Mismatch (PyStr "p2") "created"
    (PyDatetime (mkDatetime 2023 5 2 12 0 0 0 None))
    (PyDatetime (mkDatetime 2023 5 3 12 0 0 0 None)).

Definition cy_name_mismatch : assertion_message :=
  Mismatch (PyStr "p3") "full_name" (PyStr "Cy") (PyStr "Cyd").

(** A source timestamp without fractional seconds. *)
Definition ann_no_fraction : row :=
  [("id", PyStr "p1"); ("full_name", PyStr "Ann");
   ("created", PyStr "2023-05-01 12:00:00+00")].

End CheckerScenarios.

(** ** Notions for stating the facts about the target store *)

Module PostgresProps.
Import Py Postgres.

(** The primary-key cells of a table. *)
Definition ids (rows : list pg_row) : list value :=
  map (fun r => field r "id") rows.

(** The new row collides with a stored row on the index. *)
Definition hits (index : list string) (new : pg_row) (rows : list pg_row) : bool :=
  existsb (key_conflict index new) rows.

(** The new row collides with a stored row on some unique index. *)
Definition unique_clash (t : table) (new : pg_row) (rows : list pg_row) : bool :=
  existsb (fun index => hits index new rows) (unique_indexes t).

(** Some foreign key of the new row names no stored parent. *)
Definition fk_missing (db : database) (t : table) (new : pg_row) : bool :=
  existsb (references_missing db new) (foreign_keys (schema t)).

(** The tables as the next statement sees them. *)
Definition visible (c : connection) : database :=
  match tx c with
  | InTransaction work => work
  | _ => committed c
  end.

(** The connection after a list of statements, in order. *)
Definition exec_list (c : connection) (sts : list insert_statement) : connection :=
  fold_left (fun c st => snd (execute c st)) sts c.

(** The id a statement carries. *)
Definition statement_id (st : insert_statement) : value :=
  field (new_row st) "id".

(** The columns the server's checks read: those of the unique indexes and
    of the foreign keys. *)
Definition key_columns (t : table) : list string :=
  List.concat (unique_indexes t) ++ map fst (foreign_keys (schema t)).

(** Two statements for the same table that carry the same cells in those
    columns (they may differ elsewhere, as in their timestamps). *)
Definition same_keys (st1 st2 : insert_statement) : Prop :=
  into st1 = into st2
  /\ forall c, In c (key_columns (into st1)) ->
               field (new_row st1) c = field (new_row st2) c.

(** Stored rows that agree on the columns of every unique index. *)
Definition agree (t : table) (x y : pg_row) : Prop :=
  forall c, In c (List.concat (unique_indexes t)) -> field x c = field y c.

(** Every row of [rows1] has a row of [rows2] agreeing with it. *)
Definition covered (t : table) (rows1 rows2 : list pg_row) : Prop :=
  forall x, In x rows1 -> exists y, In y rows2 /\ agree t x y.

(** How the tables seen by the second run relate to those seen by the
    first at the same point of a batch on [t] whose ids are [batch_ids]. *)
Definition later_view (t : table) (batch_ids : list value)
  (db1 db2 : database) : Prop :=
  covered t (rows_of db1 t) (rows_of db2 t)
  /\ (forall v, In v batch_ids -> In v (ids (rows_of db2 t)) ->
                In v (ids (rows_of db1 t)))
  /\ (forall column parent, In (column, parent) (foreign_keys (schema t)) ->
        rows_of db1 parent = rows_of db2 parent).

(** The statements of one batch in the two runs. *)
Definition paired (t : table) (batch_ids : list value)
  (st1 st2 : insert_statement) : Prop :=
  on_conflict st1 = ["id"] /\ on_conflict st2 = ["id"]
  /\ into st1 = t /\ same_keys st1 st2 /\ In (statement_id st1) batch_ids.

(** No statement on the connection was answered by an error. *)
Definition clean (c : connection) : Prop :=
  forall e, ~ In (Failed e) (replies c).

(** The answers to a list of statements. *)
Fixpoint answers (c : connection) (sts : list insert_statement) : list outcome :=
  match sts with
  | [] => []
  | st :: sts' => fst (execute c st) :: answers (snd (execute c st)) sts'
  end.

End PostgresProps.

(** ** Notions for stating the facts about the loader *)

Module LoaderProps.
Import Py Postgres Loader PostgresProps.
Local Open Scope loader_scope.

(** A statement some state makes the writer build for a row. *)
Definition built {A} (statement : A -> L insert_statement) (row : A)
  (stmt : insert_statement) : Prop :=
  exists st, stmt = fst (statement row st).

(** What the five writers have in common: building a statement leaves the
    connection alone; the statement goes to the writer's table with the
    primary id as conflict target; and the clock can only show in columns
    the server's constraints do not look at. *)
Record well_keyed {A} (t : table) (id_of : A -> value)
  (statement : A -> L insert_statement) : Prop := {
  wk_conn : forall row st, conn (snd (statement row st)) = conn st;
  wk_target : forall row st, on_conflict (fst (statement row st)) = ["id"];
  wk_into : forall row st, into (fst (statement row st)) = t;
  wk_id : forall row st, statement_id (fst (statement row st)) = id_of row;
  wk_keys : forall row st st',
      same_keys (fst (statement row st)) (fst (statement row st'))
}.

(** The body of a writer's loop. *)
Definition row_body {A} (t : table) (id_of : A -> value)
  (statement : A -> L insert_statement) (row : A) : L unit :=
  stmt <- statement row ;; try_execute t (id_of row) stmt.

(** The body of a [for batch in loader.load_data(...)] loop. *)
Definition batch_body {A} (t : table) (save : list A -> L unit)
  (batch : list A) : L unit :=
  emit (InfoLoaded t (List.length batch)) ;; save batch.

(** Ids are unique within each source table. *)
Definition unique_ids (src : sqlite_database) : Prop :=
  NoDup (map p_id (src_person src))
  /\ NoDup (map g_id (src_genre src))
  /\ NoDup (map fw_id (src_film_work src))
  /\ NoDup (map pfw_id (src_person_film_work src))
  /\ NoDup (map gfw_id (src_genre_film_work src)).

(** A run starts on a fresh connection to the target. *)
Definition start (target : database) (clock : nat -> datetime) : state :=
  mkState (connect target) clock 0 [].

End LoaderProps.

(** ** Sources and targets for concrete runs of the loader *)

Module LoaderScenarios.
Import Py Postgres Loader.

(** A clock for concrete runs: the [n]-th reading is [n] seconds past
    midnight, 1 January 2024. *)
Definition seconds_clock (n : nat) : datetime :=
  mkDatetime 2024 1 1 0 0 (Z.of_nat n) 0 None.

(** The end-to-end scenario of the specification: one person, no genre,
    one film work without rating, one link between the two. *)
Definition scenario_source : sqlite_database :=
  mkSqlite
    [mkPerson (PyStr "P1") (PyStr "Ann") PyNone PyNone]
    []
    [mkFilmWork (PyStr "F1") (PyStr "Film") PyNone PyNone PyNone PyNone
       (PyStr "movie") PyNone PyNone]
    [mkPersonFilmWork (PyStr "L1") (PyStr "actor") PyNone (PyStr "F1")
       (PyStr "P1")]
    [].

(** The same with a second link whose film work does not exist. *)
Definition dangling_source : sqlite_database :=
  mkSqlite
    [mkPerson (PyStr "P1") (PyStr "Ann") PyNone PyNone]
    []
    [mkFilmWork (PyStr "F1") (PyStr "Film") PyNone PyNone PyNone PyNone
       (PyStr "movie") PyNone PyNone]
    [mkPersonFilmWork (PyStr "L1") (PyStr "actor") PyNone (PyStr "F1")
       (PyStr "P1");
     mkPersonFilmWork (PyStr "L2") (PyStr "actor") PyNone (PyStr "F2")
       (PyStr "P1")]
    [].

(** A target that holds person P1, film works F1 and F3, genre G1, the
    link L0 of P1 to F1 as actor and the link K0 of G1 to F1. *)
Definition linked_target : database :=
  mkDatabase
    [[("id", PyStr "P1"); ("full_name", PyStr "Ann")]]
    [[("id", PyStr "G1"); ("name", PyStr "Drama")]]
    [[("id", PyStr "F1"); ("title", PyStr "Film")];
     [("id", PyStr "F3"); ("title", PyStr "Other")]]
    [[("id", PyStr "L0"); ("role", PyStr "actor");
      ("film_work_id", PyStr "F1"); ("person_id", PyStr "P1")]]
    [[("id", PyStr "K0"); ("film_work_id", PyStr "F1");
      ("genre_id", PyStr "G1")]].

(** A target that holds person P1, film works F1 and F3 and no link. *)
Definition parents_target : database :=
  mkDatabase
    [[("id", PyStr "P1"); ("full_name", PyStr "Ann")]]
    []
    [[("id", PyStr "F1"); ("title", PyStr "Film")];
     [("id", PyStr "F3"); ("title", PyStr "Other")]]
    [] [].

(** A batch of three links of which the second names a film work that
    does not exist. *)
Definition three_links : list person_film_work_row :=
  [mkPersonFilmWork (PyStr "L1") (PyStr "actor") PyNone (PyStr "F1")
     (PyStr "P1");
   mkPersonFilmWork (PyStr "L2") (PyStr "actor") PyNone (PyStr "F2")
     (PyStr "P1");
   mkPersonFilmWork (PyStr "L3") (PyStr "actor") PyNone (PyStr "F3")
     (PyStr "P1")].

(** A source whose [person_film_work] table is that batch and whose other
    tables hold the rows it needs, F2 aside. *)
Definition three_links_source : sqlite_database :=
  mkSqlite
    [mkPerson (PyStr "P1") (PyStr "Ann") PyNone PyNone]
    [mkGenre (PyStr "G1") (PyStr "Drama") PyNone PyNone PyNone]
    [mkFilmWork (PyStr "F1") (PyStr "Film") PyNone PyNone PyNone PyNone
       (PyStr "movie") PyNone PyNone;
     mkFilmWork (PyStr "F3") (PyStr "Other") PyNone PyNone PyNone PyNone
       (PyStr "movie") PyNone PyNone]
    three_links
    [mkGenreFilmWork (PyStr "K1") PyNone (PyStr "F1") (PyStr "G1")].

(** The string [prefix] followed by the decimal digits of [n]. *)
Definition numbered (prefix : string) (n : nat) : value :=
  PyStr (String.append prefix (NilEmpty.string_of_uint (Nat.to_uint n))).

(** 1001 genres, so two batches.  The first batch holds two genres of the
    same name and is rolled back; the second batch is one genre that
    repeats the id of the first row of the first batch under another
    name. *)
Definition repeated_id_source : sqlite_database :=
  mkSqlite []
    (mkGenre (PyStr "X") (PyStr "A") PyNone PyNone PyNone
     :: mkGenre (PyStr "Y") (PyStr "A") PyNone PyNone PyNone
     :: map (fun n => mkGenre (numbered "G" n) (numbered "N" n)
                        PyNone PyNone PyNone) (seq 0 998)
     ++ [mkGenre (PyStr "X") (PyStr "B") PyNone PyNone PyNone])
    [] [] [].

End LoaderScenarios.

(** ** Further notions for the checker *)

Module CheckerNotions.
Import Py Checker CheckerProps CheckerScenarios.

(** What the check of a table that passes adds to the report; [n] is the
    row count of both sides. *)
Definition pass_report (table : string) (n : nat) : list log_record :=
  [InfoCheckingTable table; InfoCounts table n n; InfoCountMatches table;
   InfoCheckingContent table; InfoContentMatches table; InfoTablePassed table].

(** The tables whose check was started, in the order of the report. *)
Definition checked_tables (report : list log_record) : list string :=
  flat_map (fun r => match r with
                     | InfoCheckingTable table => [table]
                     | _ => []
                     end) report.

(** Two target rows that hold the same cell under every column of the
    source row. *)
Definition same_on_source_columns (sqlite_row pg_row pg_row' : row) : Prop :=
  forall column, In column (keys sqlite_row) ->
                 lookup column pg_row = lookup column pg_row'.

(** Three lists of rows of the same length, related position by
    position. *)
Inductive Forall3 {A B C} (R : A -> B -> C -> Prop)
  : list A -> list B -> list C -> Prop :=
| Forall3_nil : Forall3 R [] [] []
| Forall3_cons a b c la lb lc :
    R a b c -> Forall3 R la lb lc -> Forall3 R (a :: la) (b :: lb) (c :: lc).

(** A record written while one table is being checked: everything but the
    line that opens the check of a table and the closing line of the
    run. *)
Definition is_table_detail (r : log_record) : bool :=
  match r with
  | InfoCheckingTable _ | InfoTestingCompleted => false
  | _ => true
  end.

(** What the [try] block of the driver does for a table, read off the two
    stores. *)
Definition try_body_result (sqlite_conn pg_conn : query_connection)
  (table : string) (log : list log_record) : result unit * list log_record :=
  match sqlite_conn table, pg_conn table with
  | Some rows, Some pg_rows =>
      let counts := InfoCounts table (List.length rows) (List.length pg_rows) in
      if Nat.eqb (List.length rows) (List.length pg_rows) then
        match content_loop (combine rows pg_rows)
                (log ++ [counts; InfoCountMatches table;
                         InfoCheckingContent table]) with
        | (Ok _, log') =>
            (Ok tt, log' ++ [InfoContentMatches table; InfoTablePassed table])
        | (Raise e, log') => (Raise e, log')
        end
      else (Raise (AssertionError (RecordCountMismatch table)), log ++ [counts])
  | _, _ => (Raise (DatabaseError table), log)
  end.

(** The store [conn] without the table [missing]. *)
Definition without_table (missing : string) (conn : query_connection)
  : query_connection :=
  fun table => if String.eqb table missing then None else conn table.


(** [ann_pg] with its columns in another order and two columns the source
    does not have. *)
Definition ann_pg_wide : row :=
  [("gender", PyStr "f"); ("created", aware 1 12); ("full_name", PyStr "Ann");
   ("modified", aware 9 9); ("id", PyStr "p1")].

(** The target row of Ann without its [full_name] column. *)
Definition ann_pg_narrow : row :=
  [("id", PyStr "p1"); ("created", aware 1 12)].

(** A table passes: both stores hold it and its rows, paired in [id]
    order, pass on every column of the source row. *)
Definition passes (sqlite_conn pg_conn : query_connection) (table : string)
  : Prop :=
  exists rows pg_rows,
    sqlite_conn table = Some rows /\ pg_conn table = Some pg_rows
    /\ rows_pass rows pg_rows.

(** Turning the ordinal of a day of the first 400-year cycle into a date
    and back gives the ordinal again. *)
Definition round_trips (r : Z) : bool :=
  let '(y, m, d) := ord2ymd (r + 1) in ymd2ord y m d =? r + 1.

(** [check] holds on the [count] integers from [start] on. *)
Fixpoint all_from (check : Z -> bool) (start : Z) (count : nat) : bool :=
  match count with
  | O => true
  | S count' =>
      if check start then all_from check (start + 1) count' else false
  end.

(** The messages of the error lines a run can write: the count check of a
    table failed, or a cell differs. *)
Definition reportable (m : assertion_message) : Prop :=
  (exists table, In table tables /\ m = RecordCountMismatch table)
  \/ (exists id column sqlite_value pg_value,
        m = Mismatch id column sqlite_value pg_value).

End CheckerNotions.

(** ** Further notions for the loader *)

Module LoaderNotions.
Import Py Postgres Loader PostgresProps LoaderProps LoaderScenarios.
Local Open Scope loader_scope.


(** The warnings a writer logs for a batch: one for each row whose
    statement the server refused, with the row's id and the error, in the
    order of the rows. *)
Fixpoint warnings (t : table) (row_ids : list value) (answers : list outcome)
  : list loader_record :=
  match row_ids, answers with
  | id :: row_ids', Failed e :: answers' =>
      WarningInsertError t id e :: warnings t row_ids' answers'
  | _ :: row_ids', _ :: answers' => warnings t row_ids' answers'
  | _, _ => []
  end.

(** Building a statement writes nothing to the log. *)
Definition silent {A} (statement : A -> L insert_statement) : Prop :=
  forall row st, log (snd (statement row st)) = log st.

(** A writer that tells every refusal, and nothing else: the log grows by
    the warnings for the answers the server gave to the batch. *)
Definition logs_refusals {A} (t : table) (id_of : A -> value)
  (save : list A -> L unit) : Prop :=
  forall data st,
    let e := snd (save data st) in
    exists answers,
      replies (conn e) = replies (conn st) ++ answers
      /\ List.length answers = List.length data
      /\ log e = log st ++ warnings t (map id_of data) answers.



(** The cells of a stored row under the columns of an index. *)
Definition row_key (index : list string) (r : pg_row) : list value :=
  map (field r) index.

(** A warning of a writer. *)
Definition is_warning (r : loader_record) : bool :=
  match r with
  | WarningInsertError _ _ _ => true
  | _ => false
  end.

(** The statement a writer builds for a source row carries, under the
    columns the server's constraints read, the cells [cells row]. *)
Definition reads_keys {A} (t : table) (statement : A -> L insert_statement)
  (cells : A -> string -> value) : Prop :=
  forall row st c,
    In c (key_columns t) ->
    field (new_row (fst (statement row st))) c = cells row c.

Definition person_cells (r : person_row) (c : string) : value :=
  if String.eqb c "id" then p_id r else PyNone.

Definition genre_cells (r : genre_row) (c : string) : value :=
  if String.eqb c "id" then g_id r
  else if String.eqb c "name" then g_name r else PyNone.

Definition film_work_cells (r : film_work_row) (c : string) : value :=
  if String.eqb c "id" then fw_id r else PyNone.

Definition person_film_work_cells (r : person_film_work_row) (c : string)
  : value :=
  if String.eqb c "id" then pfw_id r
  else if String.eqb c "film_work_id" then pfw_film_work_id r
  else if String.eqb c "person_id" then pfw_person_id r
  else if String.eqb c "role" then pfw_role r else PyNone.

Definition genre_film_work_cells (r : genre_film_work_row) (c : string)
  : value :=
  if String.eqb c "id" then gfw_id r
  else if String.eqb c "genre_id" then gfw_genre_id r
  else if String.eqb c "film_work_id" then gfw_film_work_id r else PyNone.

(** The stored rows are the rows of the statements the writer builds for
    the source rows, one for each, in the source's order. *)
Definition stored_as {A} (statement : A -> L insert_statement)
  (rows : list A) (stored : list pg_row) : Prop :=
  exists sts, Forall2 (built statement) rows sts /\ stored = map new_row sts.

(** A source that satisfies the constraints of the target schema: ids are
    present and unique within each table, genre names are unique, no two
    links join the same rows (in the same role), and every link names a
    film work and a person or genre of the source. *)
Record consistent (src : sqlite_database) : Prop := {
  ids_unique : unique_ids src;
  person_ids_present : Forall (fun r => p_id r <> PyNone) (src_person src);
  genre_ids_present : Forall (fun r => g_id r <> PyNone) (src_genre src);
  film_work_ids_present :
    Forall (fun r => fw_id r <> PyNone) (src_film_work src);
  person_film_work_ids_present :
    Forall (fun r => pfw_id r <> PyNone) (src_person_film_work src);
  genre_film_work_ids_present :
    Forall (fun r => gfw_id r <> PyNone) (src_genre_film_work src);
  genre_names_unique : NoDup (map g_name (src_genre src));
  person_links_unique :
    NoDup (map (fun r => [pfw_film_work_id r; pfw_person_id r; pfw_role r])
             (src_person_film_work src));
  genre_links_unique :
    NoDup (map (fun r => [gfw_genre_id r; gfw_film_work_id r])
             (src_genre_film_work src));
  person_links_resolve :
    Forall (fun r => In (pfw_film_work_id r) (map fw_id (src_film_work src))
                     /\ In (pfw_person_id r) (map p_id (src_person src)))
      (src_person_film_work src);
  genre_links_resolve :
    Forall (fun r => In (gfw_film_work_id r) (map fw_id (src_film_work src))
                     /\ In (gfw_genre_id r) (map g_id (src_genre src)))
      (src_genre_film_work src)
}.

(** A source that fits the schema: two persons, two genres, two film
    works, and links between them.  Some timestamps are present, some are
    NULL, one rating is NULL. *)
Definition library_source : sqlite_database :=
  mkSqlite
    [mkPerson (PyStr "P1") (PyStr "Ann") (PyStr "2021-06-16 20:14:09+00")
       (PyStr "2021-06-16 20:14:09+00");
     mkPerson (PyStr "P2") (PyStr "Bob") PyNone PyNone]
    [mkGenre (PyStr "G1") (PyStr "Drama") PyNone PyNone PyNone;
     mkGenre (PyStr "G2") (PyStr "Comedy") (PyStr "light") PyNone PyNone]
    [mkFilmWork (PyStr "F1") (PyStr "Film") PyNone PyNone PyNone PyNone
       (PyStr "movie") PyNone PyNone;
     mkFilmWork (PyStr "F2") (PyStr "Show") PyNone PyNone PyNone
       (PyInt 7) (PyStr "tv_show") PyNone PyNone]
    [mkPersonFilmWork (PyStr "L1") (PyStr "actor") PyNone (PyStr "F1")
       (PyStr "P1");
     mkPersonFilmWork (PyStr "L2") (PyStr "director") PyNone (PyStr "F1")
       (PyStr "P1");
     mkPersonFilmWork (PyStr "L3") (PyStr "actor") PyNone (PyStr "F2")
       (PyStr "P2")]
    [mkGenreFilmWork (PyStr "K1") PyNone (PyStr "F1") (PyStr "G1");
     mkGenreFilmWork (PyStr "K2") PyNone (PyStr "F2") (PyStr "G1")].


Definition not_none (v : value) : bool := negb (is_none v).






(** How often building the statement of a row reads the clock. *)
Definition reads_clock {A} (statement : A -> L insert_statement)
  (reads : A -> nat) : Prop :=
  forall row st,
    ticks (snd (statement row st)) = (ticks st + reads row)%nat
    /\ clock (snd (statement row st)) = clock st.

(** One reading for a cell that fails the writer's test. *)
Definition reading (keep : value -> bool) (v : value) : nat :=
  if keep v then 0%nat else 1%nat.

Definition person_reads (r : person_row) : nat :=
  (reading truthy (p_created r) + reading truthy (p_modified r))%nat.

Definition genre_reads (r : genre_row) : nat :=
  (reading truthy (g_created r) + reading truthy (g_modified r))%nat.

Definition film_work_reads (r : film_work_row) : nat :=
  (reading truthy (fw_created r) + reading truthy (fw_modified r))%nat.

Definition person_film_work_reads (r : person_film_work_row) : nat :=
  reading not_none (pfw_created r).

Definition genre_film_work_reads (r : genre_film_work_row) : nat :=
  reading not_none (gfw_created r).

(** The number of cells of the source that the writers replace by a
    reading of the clock. *)
Definition clock_reads (src : sqlite_database) : nat :=
  (list_sum (map person_reads (src_person src))
   + list_sum (map genre_reads (src_genre src))
   + list_sum (map film_work_reads (src_film_work src))
   + list_sum (map person_film_work_reads (src_person_film_work src))
   + list_sum (map genre_film_work_reads (src_genre_film_work src)))%nat.

(** When no cell of a row is defaulted, the statement built for it is the
    same in every state. *)
Definition steady {A} (statement : A -> L insert_statement)
  (reads : A -> nat) : Prop :=
  forall row st st',
    reads row = 0%nat -> fst (statement row st) = fst (statement row st').

(** A source in which every timestamp the writers look at is present. *)
Definition dated_source : sqlite_database :=
  mkSqlite
    [mkPerson (PyStr "P1") (PyStr "Ann") (PyStr "2021-06-16 20:14:09+00")
       (PyStr "2021-06-16 20:14:09+00")]
    [mkGenre (PyStr "G1") (PyStr "Drama") PyNone
       (PyStr "2021-06-16 20:14:09+00") (PyStr "2021-06-16 20:14:09+00")]
    [mkFilmWork (PyStr "F1") (PyStr "Film") PyNone PyNone PyNone PyNone
       (PyStr "movie") (PyStr "2021-06-16 20:14:09+00")
       (PyStr "2021-06-16 20:14:09+00")]
    [mkPersonFilmWork (PyStr "L1") (PyStr "actor")
       (PyStr "2021-06-16 20:14:09+00") (PyStr "F1") (PyStr "P1")]
    [mkGenreFilmWork (PyStr "K1") (PyStr "2021-06-16 20:14:09+00")
       (PyStr "F1") (PyStr "G1")].

(** A clock that always shows the first day of the year 2000. *)
Definition stopped_clock (n : nat) : datetime :=
  mkDatetime 2000 1 1 0 0 0 0 None.




(** A row that names, under a foreign key of its table, a parent the
    tables do not hold. *)
Definition dangling {A} (db : database) (t : table)
  (cells : A -> string -> value) (row : A) : Prop :=
  exists column parent,
    In (column, parent) (foreign_keys (schema t))
    /\ cells row column <> PyNone
    /\ ~ In (cells row column) (ids (rows_of db parent)).

(** A link of a person to a film work of which one end is not stored. *)
Definition unresolved_person_link (db : database) (r : person_film_work_row)
  : Prop :=
  (pfw_film_work_id r <> PyNone
   /\ ~ In (pfw_film_work_id r) (ids (film_work_rows db)))
  \/ (pfw_person_id r <> PyNone
      /\ ~ In (pfw_person_id r) (ids (person_rows db))).

(** A link of a genre to a film work of which one end is not stored. *)
Definition unresolved_genre_link (db : database) (r : genre_film_work_row)
  : Prop :=
  (gfw_film_work_id r <> PyNone
   /\ ~ In (gfw_film_work_id r) (ids (film_work_rows db)))
  \/ (gfw_genre_id r <> PyNone
      /\ ~ In (gfw_genre_id r) (ids (genre_rows db))).

(** A row that repeats, under the columns of a unique constraint of its
    table, the cells of a stored row (none of them NULL). *)
Definition clashing {A} (db : database) (t : table)
  (cells : A -> string -> value) (row : A) : Prop :=
  exists index old,
    In index (unique_constraints (schema t))
    /\ In old (rows_of db t)
    /\ forall c, In c index ->
                 cells row c <> PyNone /\ field old c = cells row c.

(** A genre whose name is stored already. *)
Definition repeated_genre_name (db : database) (r : genre_row) : Prop :=
  exists old,
    In old (genre_rows db)
    /\ g_name r <> PyNone /\ field old "name" = g_name r.

(** A link that joins the film work, person and role of a stored link. *)
Definition repeated_person_link (db : database) (r : person_film_work_row)
  : Prop :=
  exists old,
    In old (person_film_work_rows db)
    /\ pfw_film_work_id r <> PyNone /\ pfw_person_id r <> PyNone
    /\ pfw_role r <> PyNone
    /\ field old "film_work_id" = pfw_film_work_id r
    /\ field old "person_id" = pfw_person_id r
    /\ field old "role" = pfw_role r.

(** A link that joins the genre and film work of a stored link. *)
Definition repeated_genre_link (db : database) (r : genre_film_work_row)
  : Prop :=
  exists old,
    In old (genre_film_work_rows db)
    /\ gfw_genre_id r <> PyNone /\ gfw_film_work_id r <> PyNone
    /\ field old "genre_id" = gfw_genre_id r
    /\ field old "film_work_id" = gfw_film_work_id r.

(** The rows of the source as the checker's cursor returns them: every
    column the writers read, under its name. *)
Definition person_columns (r : person_row) : Checker.row :=
  [("id", p_id r); ("full_name", p_full_name r);
   ("created", p_created r); ("modified", p_modified r)].

Definition genre_columns (r : genre_row) : Checker.row :=
  [("id", g_id r); ("name", g_name r); ("description", g_description r);
   ("created", g_created r); ("modified", g_modified r)].

Definition film_work_columns (r : film_work_row) : Checker.row :=
  [("id", fw_id r); ("title", fw_title r);
   ("description", fw_description r);
   ("creation_date", fw_creation_date r); ("file_path", fw_file_path r);
   ("rating", fw_rating r); ("type", fw_type r);
   ("created", fw_created r); ("modified", fw_modified r)].

Definition person_film_work_columns (r : person_film_work_row)
  : Checker.row :=
  [("id", pfw_id r); ("role", pfw_role r); ("created", pfw_created r);
   ("film_work_id", pfw_film_work_id r); ("person_id", pfw_person_id r)].

Definition genre_film_work_columns (r : genre_film_work_row) : Checker.row :=
  [("id", gfw_id r); ("created", gfw_created r);
   ("film_work_id", gfw_film_work_id r); ("genre_id", gfw_genre_id r)].

(** The table a name denotes. *)
Definition table_named (name : string) : option table :=
  if String.eqb name "person" then Some person
  else if String.eqb name "genre" then Some genre
  else if String.eqb name "film_work" then Some film_work
  else if String.eqb name "person_film_work" then Some person_film_work
  else if String.eqb name "genre_film_work" then Some genre_film_work
  else None.

(** The two stores as the checker queries them.  Rows come in the order
    they are stored; the count check reads their number only. *)
Definition sqlite_view (src : sqlite_database) : Checker.query_connection :=
  fun name =>
    match table_named name with
    | Some person => Some (map person_columns (src_person src))
    | Some genre => Some (map genre_columns (src_genre src))
    | Some film_work => Some (map film_work_columns (src_film_work src))
    | Some person_film_work =>
        Some (map person_film_work_columns (src_person_film_work src))
    | Some genre_film_work =>
        Some (map genre_film_work_columns (src_genre_film_work src))
    | None => None
    end.

Definition pg_view (db : database) : Checker.query_connection :=
  fun name => option_map (rows_of db) (table_named name).

End LoaderNotions.

(** * Facts about the checker *)

Module CheckerFacts.
Import Py Checker CheckerProps CheckerScenarios.
Local Open Scope checker_scope.

(** ** The model of [strptime] and of the two conversions on examples *)

Example strptime_full_timestamp :
  strptime "2021-06-16 20:14:09.221838"
  = Some (mkDatetime 2021 6 16 20 14 9 221838 None).
Proof. reflexivity. Qed.

(** Single-digit fields, a run of blanks and a short fraction are
    accepted; the fraction is padded on the right. *)
Example strptime_short_fields :
  strptime "2023-5-1   2:3:4.5" = Some (mkDatetime 2023 5 1 2 3 4 500000 None).
Proof. reflexivity. Qed.

Example strptime_rejects :
  strptime "2023-05-01 12:00:00" = None
  /\ strptime "2023-05-01 12:00:00.1234567" = None
  /\ strptime "2023-02-29 12:00:00.0" = None
  /\ strptime "2023-13-01 12:00:00.0" = None
  /\ strptime "2023-05-01 12:00:60.0" = None
  /\ strptime "2023-05-01T12:00:00.0" = None.
Proof. repeat split. Qed.

Example replace_removes_every_marker :
  replace "+00" "" "2023-05-01 12:00:00.000000+00" = "2023-05-01 12:00:00.000000"
  /\ replace "+00" "" "+00x+00" = "x"
  /\ replace "+00" "" "+0+000" = "+00".
Proof. repeat split. Qed.

(** A target timestamp with another offset is brought to UTC, the date
    rolling back when needed. *)
Example convert_postgres_datetime_with_offset :
  convert_postgres_datetime
    (PyDatetime (mkDatetime 2024 3 1 1 30 0 0 (Some 10800)))
  = Ok (PyDatetime (mkDatetime 2024 2 29 22 30 0 0 None)).
Proof. reflexivity. Qed.

(** A naive target timestamp and a source string without the marker are
    left as they are. *)
Example conversions_leave_other_values :
  convert_postgres_datetime (PyDatetime (mkDatetime 2024 3 1 1 30 0 0 None))
  = Ok (PyDatetime (mkDatetime 2024 3 1 1 30 0 0 None))
  /\ convert_sqlite_datetime (PyStr "2023-05-01 12:00:00")
     = Ok (PyStr "2023-05-01 12:00:00")
  /\ convert_sqlite_datetime PyNone = Ok PyNone.
Proof. repeat split. Qed.

(** ** The loops of the content check *)

Lemma for_each_app {A} (xs ys : list A) (body : A -> M unit) log :
  for_each (xs ++ ys) body log =
  match for_each xs body log with
  | (Ok _, log') => for_each ys body log'
  | (Raise e, log') => (Raise e, log')
  end.
Proof.
  revert log; induction xs as [|x xs IH]; intros log; simpl.
  - reflexivity.
  - unfold bind. destruct (body x log) as [[[]|e] log']; auto.
Qed.

Lemma columns_loop_pass sqlite_row pg_row columns log :
  columns_pass sqlite_row pg_row columns ->
  for_each columns (fun c => lift (compare_column sqlite_row pg_row c)) log
  = (Ok tt, log).
Proof.
  induction 1 as [|c cs Hc _ IH]; simpl; auto.
  unfold bind, lift. rewrite Hc. exact IH.
Qed.

Lemma columns_loop_first_failure sqlite_row pg_row before column after e log :
  columns_pass sqlite_row pg_row before ->
  compare_column sqlite_row pg_row column = Raise e ->
  for_each (before ++ column :: after)
    (fun c => lift (compare_column sqlite_row pg_row c)) log
  = (Raise e, log).
Proof.
  intros Hb He. rewrite for_each_app, (columns_loop_pass _ _ _ _ Hb).
  simpl. unfold bind, lift. rewrite He. reflexivity.
Qed.

Lemma content_loop_pass sqlite_rows pg_rows log :
  rows_pass sqlite_rows pg_rows ->
  content_loop (combine sqlite_rows pg_rows) log = (Ok tt, log).
Proof.
  unfold content_loop.
  induction 1 as [|s p ss ps Hsp _ IH]; simpl; auto.
  unfold bind at 1. rewrite (columns_loop_pass _ _ _ _ Hsp). exact IH.
Qed.

Lemma combine_app_same_length {A B} (xs xs' : list A) (ys ys' : list B) :
  List.length xs = List.length ys ->
  combine (xs ++ xs') (ys ++ ys') = combine xs ys ++ combine xs' ys'.
Proof.
  revert ys; induction xs as [|x xs IH]; intros [|y ys] H; simpl in *;
    try discriminate; auto.
  f_equal. apply IH. congruence.
Qed.

Lemma rows_pass_length sqlite_rows pg_rows :
  rows_pass sqlite_rows pg_rows -> List.length sqlite_rows = List.length pg_rows.
Proof. induction 1; simpl; congruence. Qed.

Lemma content_loop_first_failure
  rows_before pg_before sqlite_row pg_row rows_after pg_after
  columns_before column columns_after e log :
  rows_pass rows_before pg_before ->
  keys sqlite_row = columns_before ++ column :: columns_after ->
  columns_pass sqlite_row pg_row columns_before ->
  compare_column sqlite_row pg_row column = Raise e ->
  content_loop (combine (rows_before ++ sqlite_row :: rows_after)
                        (pg_before ++ pg_row :: pg_after)) log
  = (Raise e, log).
Proof.
  intros Hrows Hkeys Hcols He.
  rewrite combine_app_same_length by (apply rows_pass_length; assumption).
  unfold content_loop. rewrite for_each_app.
  fold (content_loop (combine rows_before pg_before)).
  rewrite (content_loop_pass _ _ _ Hrows). simpl.
  unfold bind at 1. rewrite Hkeys.
  rewrite (columns_loop_first_failure _ _ _ _ _ _ _ Hcols He). reflexivity.
Qed.

Lemma convert_sqlite_datetime_raises v e :
  convert_sqlite_datetime v = Raise e -> e = ValueError.
Proof.
  destruct v as [|n|f|s|d]; simpl; try discriminate.
  destruct (contains "+00" s); [|discriminate].
  destruct (strptime _); [discriminate|]. congruence.
Qed.

Lemma convert_postgres_datetime_raises v e :
  convert_postgres_datetime v = Raise e -> e = OverflowError.
Proof.
  destruct v as [|n|f|s|d]; simpl; try discriminate.
  destruct (tzinfo d) as [off|]; [|discriminate].
  unfold astimezone_utc, of_microseconds, rbind.
  destruct (_ || _); [congruence|].
  destruct (ord2ymd _) as [[y m] dd]. discriminate.
Qed.

(** [compare_column] raises no assertion but the mismatch of its own row
    and column. *)
Lemma compare_column_assertion sqlite_row pg_row column m :
  compare_column sqlite_row pg_row column = Raise (AssertionError m) ->
  exists id sqlite_value pg_value,
    m = Mismatch id column sqlite_value pg_value
    /\ lookup "id" sqlite_row = Some id.
Proof.
  unfold compare_column, sqlite_getitem, pg_getitem, rbind.
  destruct (lookup column sqlite_row) as [sv|]; [|discriminate].
  destruct (lookup column pg_row) as [pv|]; [|discriminate].
  assert (Hend : forall sv' pv',
    (if is_none sv' && py_eq pv' (PyFloat float_zero) then Ok tt
     else if py_eq sv' pv' then Ok tt
     else match match lookup "id" sqlite_row with
                | Some v => Ok v
                | None => Raise (IndexError "id")
                end with
          | Ok id => Raise (AssertionError (Mismatch id column sv' pv'))
          | Raise e => Raise e
          end) = Raise (AssertionError m) ->
    exists id sqlite_value pg_value,
      m = Mismatch id column sqlite_value pg_value
      /\ lookup "id" sqlite_row = Some id).
  { intros sv' pv'.
    destruct (is_none sv' && py_eq pv' (PyFloat float_zero)); [discriminate|].
    destruct (py_eq sv' pv'); [discriminate|].
    destruct (lookup "id" sqlite_row) as [id|]; [|discriminate].
    intros H; inversion H; eauto. }
  destruct (is_timestamp_column column).
  - destruct (convert_sqlite_datetime sv) as [sv'|e] eqn:Hs.
    + destruct (convert_postgres_datetime pv) as [pv'|e] eqn:Hp.
      * apply Hend.
      * apply convert_postgres_datetime_raises in Hp. subst e. discriminate.
    + apply convert_sqlite_datetime_raises in Hs. subst e. discriminate.
  - apply Hend.
Qed.

Lemma compare_table_count_equal sqlite_conn pg_conn table rows pg_rows log :
  sqlite_conn table = Some rows ->
  pg_conn table = Some pg_rows ->
  List.length rows = List.length pg_rows ->
  compare_table_count sqlite_conn pg_conn table log
  = (Ok true,
     log ++ [InfoCounts table (List.length rows) (List.length pg_rows);
             InfoCountMatches table]).
Proof.
  intros Hs Hp Hlen.
  unfold compare_table_count, execute_count, bind, logger, py_assert, ret.
  rewrite Hs, Hp. simpl.
  apply Nat.eqb_eq in Hlen. rewrite Hlen. simpl.
  rewrite <- app_assoc. reflexivity.
Qed.

Lemma compare_table_count_unequal sqlite_conn pg_conn table rows pg_rows log :
  sqlite_conn table = Some rows ->
  pg_conn table = Some pg_rows ->
  List.length rows <> List.length pg_rows ->
  compare_table_count sqlite_conn pg_conn table log
  = (Raise (AssertionError (RecordCountMismatch table)),
     log ++ [InfoCounts table (List.length rows) (List.length pg_rows)]).
Proof.
  intros Hs Hp Hlen.
  unfold compare_table_count, execute_count, bind, logger, py_assert, ret, raise.
  rewrite Hs, Hp. simpl.
  apply Nat.eqb_neq in Hlen. rewrite Hlen. reflexivity.
Qed.

Lemma compare_table_data_unfold sqlite_conn pg_conn table rows pg_rows log :
  sqlite_conn table = Some rows ->
  pg_conn table = Some pg_rows ->
  List.length rows = List.length pg_rows ->
  compare_table_data sqlite_conn pg_conn table log
  = match content_loop (combine rows pg_rows)
            (log ++ [InfoCheckingContent table]) with
    | (Ok _, log') => (Ok true, log' ++ [InfoContentMatches table])
    | (Raise e, log') => (Raise e, log')
    end.
Proof.
  intros Hs Hp Hlen.
  unfold compare_table_data, execute_select_order_by_id, bind, logger,
    py_assert, ret.
  rewrite Hs, Hp. simpl.
  apply Nat.eqb_eq in Hlen. rewrite Hlen. simpl.
  fold (content_loop (combine rows pg_rows)).
  destruct (content_loop _ _) as [[[]|e] log']; reflexivity.
Qed.

Lemma check_table_unfold sqlite_conn pg_conn table log :
  check_table sqlite_conn pg_conn table log =
  match try_body sqlite_conn pg_conn table (log ++ [InfoCheckingTable table]) with
  | (Raise (AssertionError m), log') => (Ok tt, log' ++ [ErrorLogged m])
  | other => other
  end.
Proof. reflexivity. Qed.

Section FirstFailure.

(** The content of [table] on both sides, split at the first pair of rows
    and the first column on which the loop body does not return
    normally. *)
Variables (sqlite_conn pg_conn : query_connection) (table : string).
Variables (rows_before pg_before rows_after pg_after : list row).
Variables (sqlite_row pg_row : row).
Variables (columns_before columns_after : list string) (column : string).

Hypothesis sqlite_content :
  sqlite_conn table = Some (rows_before ++ sqlite_row :: rows_after).
Hypothesis pg_content :
  pg_conn table = Some (pg_before ++ pg_row :: pg_after).
Hypothesis rows_after_paired : List.length rows_after = List.length pg_after.
Hypothesis rows_before_pass : rows_pass rows_before pg_before.
Hypothesis row_columns :
  keys sqlite_row = columns_before ++ column :: columns_after.
Hypothesis columns_before_pass :
  columns_pass sqlite_row pg_row columns_before.

Lemma same_row_count :
  List.length (rows_before ++ sqlite_row :: rows_after)
  = List.length (pg_before ++ pg_row :: pg_after).
Proof.
  rewrite !length_app. simpl.
  rewrite (rows_pass_length _ _ rows_before_pass), rows_after_paired.
  reflexivity.
Qed.

Lemma try_body_first_failure e log :
  compare_column sqlite_row pg_row column = Raise e ->
  try_body sqlite_conn pg_conn table log
  = (Raise e,
     log ++ [InfoCounts table
               (List.length (rows_before ++ sqlite_row :: rows_after))
               (List.length (pg_before ++ pg_row :: pg_after));
             InfoCountMatches table; InfoCheckingContent table]).
Proof.
  intros He. unfold try_body. unfold bind at 1.
  rewrite (compare_table_count_equal _ _ _ _ _ _ sqlite_content pg_content
             same_row_count).
  unfold bind at 1.
  rewrite (compare_table_data_unfold _ _ _ _ _ _ sqlite_content pg_content
             same_row_count).
  rewrite (content_loop_first_failure _ _ _ _ _ _ _ _ _ _ _
             rows_before_pass row_columns columns_before_pass He).
  rewrite <- app_assoc. reflexivity.
Qed.

End FirstFailure.

(** An assertion failure inside the [try] block ends that table's checks
    and the loop goes on with the next table. *)
Lemma driver_continues_after_assertion sqlite_conn pg_conn table rest m log log' :
  try_body sqlite_conn pg_conn table (log ++ [InfoCheckingTable table])
  = (Raise (AssertionError m), log') ->
  for_each (table :: rest) (check_table sqlite_conn pg_conn) log
  = for_each rest (check_table sqlite_conn pg_conn) (log' ++ [ErrorLogged m]).
Proof.
  intros H. simpl. unfold bind at 1.
  rewrite check_table_unfold, H. reflexivity.
Qed.

(** Any other exception leaves the loop, and the driver, at once. *)
Lemma driver_stops_on_other_exception sqlite_conn pg_conn
  tables_before table tables_after e log0 log1 log2 :
  (forall m, e <> AssertionError m) ->
  tables = tables_before ++ table :: tables_after ->
  for_each tables_before (check_table sqlite_conn pg_conn) log0 = (Ok tt, log1) ->
  try_body sqlite_conn pg_conn table (log1 ++ [InfoCheckingTable table])
  = (Raise e, log2) ->
  test_data_integrity sqlite_conn pg_conn log0 = (Raise e, log2).
Proof.
  intros Hne Htables Hbefore Hbody.
  unfold test_data_integrity. unfold bind at 1.
  rewrite Htables, for_each_app, Hbefore. simpl. unfold bind at 1.
  rewrite check_table_unfold, Hbody.
  destruct e; try reflexivity. exfalso; eapply Hne; reflexivity.
Qed.

(** *** At most one report per table *)

Lemma quiet_ret {A} (a : A) : quiet (ret a).
Proof.
  intros log. exists []. rewrite app_nil_r. split; [reflexivity|constructor].
Qed.

Lemma quiet_raise {A} e : quiet (@raise A e).
Proof.
  intros log. exists []. rewrite app_nil_r. split; [reflexivity|constructor].
Qed.

Lemma quiet_lift {A} (r : result A) : quiet (lift r).
Proof.
  intros log. exists []. rewrite app_nil_r. split; [reflexivity|constructor].
Qed.

Lemma quiet_logger r : is_error r = false -> quiet (logger r).
Proof.
  intros Hr log. exists [r]. split; [reflexivity|].
  constructor; [exact Hr|constructor].
Qed.

Lemma quiet_bind {A B} (m : M A) (k : A -> M B) :
  quiet m -> (forall a, quiet (k a)) -> quiet (bind m k).
Proof.
  intros Hm Hk log. unfold bind.
  destruct (Hm log) as (added & Hlog & Hq).
  destruct (m log) as [[a|e] log']; simpl in Hlog; subst log'.
  - destruct (Hk a (log ++ added)) as (added' & Hlog' & Hq').
    exists (added ++ added'). rewrite Hlog', app_assoc.
    split; [reflexivity|]. apply Forall_app. split; assumption.
  - exists added. split; [reflexivity|exact Hq].
Qed.

Lemma quiet_for_each {A} (xs : list A) (body : A -> M unit) :
  (forall x, quiet (body x)) -> quiet (for_each xs body).
Proof.
  intros Hbody. induction xs as [|x xs IH]; simpl.
  - apply quiet_ret.
  - apply quiet_bind; [apply Hbody|intros _; exact IH].
Qed.

Lemma quiet_py_assert cond m : quiet (py_assert cond m).
Proof. unfold py_assert. destruct cond; [apply quiet_ret|apply quiet_raise]. Qed.

Lemma quiet_execute_count conn table : quiet (execute_count conn table).
Proof.
  unfold execute_count. destruct (conn table); [apply quiet_ret|apply quiet_raise].
Qed.

Lemma quiet_execute_select conn table :
  quiet (execute_select_order_by_id conn table).
Proof.
  unfold execute_select_order_by_id.
  destruct (conn table); [apply quiet_ret|apply quiet_raise].
Qed.

Lemma quiet_compare_table_count sqlite_conn pg_conn table :
  quiet (compare_table_count sqlite_conn pg_conn table).
Proof.
  unfold compare_table_count.
  apply quiet_bind; [apply quiet_execute_count|intros sqlite_count].
  apply quiet_bind; [apply quiet_execute_count|intros pg_count].
  apply quiet_bind; [apply quiet_logger; reflexivity|intros _].
  apply quiet_bind; [apply quiet_py_assert|intros _].
  apply quiet_bind; [apply quiet_logger; reflexivity|intros _].
  apply quiet_ret.
Qed.

Lemma quiet_compare_table_data sqlite_conn pg_conn table :
  quiet (compare_table_data sqlite_conn pg_conn table).
Proof.
  unfold compare_table_data.
  apply quiet_bind; [apply quiet_execute_select|intros sqlite_rows].
  apply quiet_bind; [apply quiet_execute_select|intros pg_rows].
  apply quiet_bind; [apply quiet_logger; reflexivity|intros _].
  apply quiet_bind; [apply quiet_py_assert|intros _].
  apply quiet_bind.
  - apply quiet_for_each. intros [sqlite_row pg_row].
    apply quiet_for_each. intros column. apply quiet_lift.
  - intros _. apply quiet_bind; [apply quiet_logger; reflexivity|intros _].
    apply quiet_ret.
Qed.

Lemma quiet_try_body sqlite_conn pg_conn table :
  quiet (try_body sqlite_conn pg_conn table).
Proof.
  unfold try_body.
  apply quiet_bind; [apply quiet_compare_table_count|intros _].
  apply quiet_bind; [apply quiet_compare_table_data|intros _].
  apply quiet_logger. reflexivity.
Qed.

(** Whatever the two stores hold, the check of one table adds at most one
    error-level record to the report. *)
Lemma check_table_reports_at_most_one_error sqlite_conn pg_conn table log :
  exists added,
    snd (check_table sqlite_conn pg_conn table log) = log ++ added
    /\ (List.length (filter is_error added) <= 1)%nat.
Proof.
  rewrite check_table_unfold.
  destruct (quiet_try_body sqlite_conn pg_conn table
              (log ++ [InfoCheckingTable table])) as (added & Hlog & Hq).
  assert (Hnone : filter is_error added = []).
  { clear Hlog. induction Hq as [|r added Hr _ IH]; simpl; [reflexivity|].
    rewrite Hr. exact IH. }
  destruct (try_body sqlite_conn pg_conn table (log ++ [InfoCheckingTable table]))
    as [[u|e] log']; simpl in Hlog; subst log'.
  - exists (InfoCheckingTable table :: added). rewrite <- app_assoc.
    split; [reflexivity|]. simpl. rewrite Hnone. simpl. lia.
  - destruct e as [m| | | | |];
      try (exists (InfoCheckingTable table :: added); rewrite <- app_assoc;
           split; [reflexivity|]; simpl; rewrite Hnone; simpl; lia).
    exists (InfoCheckingTable table :: added ++ [ErrorLogged m]).
    simpl. rewrite <- !app_assoc. split; [reflexivity|].
    rewrite filter_app, Hnone. simpl. lia.
Qed.

(** *** The claims about the checker *)

(** C3 (amended).  During the content check of a table the first field
    mismatch, rows taken in id order and columns in the row's own order, is
    raised as an assertion failure that names the row id and the column; the
    driver records it and the content check of that table ends there.  The
    rows and columns after it are not compared: whatever they hold, the
    table's part of the report is the same and carries that one
    mismatch. *)
Theorem first_mismatch_ends_content_check
  sqlite_conn pg_conn table rows_before pg_before rows_after pg_after
  sqlite_row pg_row columns_before columns_after column m :
  sqlite_conn table = Some (rows_before ++ sqlite_row :: rows_after) ->
  pg_conn table = Some (pg_before ++ pg_row :: pg_after) ->
  List.length rows_after = List.length pg_after ->
  rows_pass rows_before pg_before ->
  keys sqlite_row = columns_before ++ column :: columns_after ->
  columns_pass sqlite_row pg_row columns_before ->
  compare_column sqlite_row pg_row column = Raise (AssertionError m) ->
  (exists id sqlite_value pg_value,
      m = Mismatch id column sqlite_value pg_value
      /\ lookup "id" sqlite_row = Some id)
  /\ forall log,
      check_table sqlite_conn pg_conn table log
      = (Ok tt,
         log ++ [InfoCheckingTable table;
                 InfoCounts table
                   (List.length (rows_before ++ sqlite_row :: rows_after))
                   (List.length (pg_before ++ pg_row :: pg_after));
                 InfoCountMatches table; InfoCheckingContent table;
                 ErrorLogged m]).
Proof.
  intros Hs Hp Hafter Hrows Hkeys Hcols Hm. split.
  - eapply compare_column_assertion; eassumption.
  - intros log. rewrite check_table_unfold.
    rewrite (try_body_first_failure _ _ _ _ _ _ _ _ _ _ _ _
               Hs Hp Hafter Hrows Hkeys Hcols _ _ Hm).
    rewrite <- !app_assoc. reflexivity.
Qed.

(** C4 (amended).  The two checks of a table run in sequence inside one
    guarded block: when the row counts differ the mismatch is reported and
    the content check of that table is skipped; an assertion failure of
    either check on one table does not stop the verification of the tables
    after it. *)
Theorem count_mismatch_skips_content_check :
  (forall sqlite_conn pg_conn table rest rows pg_rows log,
      sqlite_conn table = Some rows ->
      pg_conn table = Some pg_rows ->
      List.length rows <> List.length pg_rows ->
      for_each (table :: rest) (check_table sqlite_conn pg_conn) log
      = for_each rest (check_table sqlite_conn pg_conn)
          (log ++ [InfoCheckingTable table;
                   InfoCounts table (List.length rows) (List.length pg_rows);
                   ErrorLogged (RecordCountMismatch table)]))
  /\ (forall sqlite_conn pg_conn table rest m log log',
      try_body sqlite_conn pg_conn table (log ++ [InfoCheckingTable table])
      = (Raise (AssertionError m), log') ->
      for_each (table :: rest) (check_table sqlite_conn pg_conn) log
      = for_each rest (check_table sqlite_conn pg_conn)
          (log' ++ [ErrorLogged m])).
Proof.
  split.
  - intros sqlite_conn pg_conn table rest rows pg_rows log Hs Hp Hlen.
    rewrite (driver_continues_after_assertion _ _ _ _
               (RecordCountMismatch table) log
               ((log ++ [InfoCheckingTable table])
                ++ [InfoCounts table (List.length rows) (List.length pg_rows)])).
    + rewrite <- !app_assoc. reflexivity.
    + unfold try_body. unfold bind at 1.
      rewrite (compare_table_count_unequal _ _ _ _ _ _ Hs Hp Hlen).
      reflexivity.
  - intros sqlite_conn pg_conn table rest m log log'.
    apply driver_continues_after_assertion.
Qed.

(** C8.  The source string "2023-05-01 12:00:00.000000+00" and the aware
    target timestamp 2023-05-01T12:00:00+00:00 are both normalised to the
    naive timestamp 2023-05-01 12:00:00, which [==] finds equal, so the
    comparison of a [created] or [modified] cell holding them passes. *)
Theorem timestamp_normalization_round_trip :
  let source := PyStr "2023-05-01 12:00:00.000000+00" in
  let target := PyDatetime (mkDatetime 2023 5 1 12 0 0 0 (Some 0)) in
  let naive := PyDatetime (mkDatetime 2023 5 1 12 0 0 0 None) in
  convert_sqlite_datetime source = Ok naive
  /\ convert_postgres_datetime target = Ok naive
  /\ py_eq naive naive = true
  /\ compare_column [("created", source)] [("created", target)] "created"
     = Ok tt
  /\ compare_column [("modified", source)] [("modified", target)] "modified"
     = Ok tt.
Proof. vm_compute. repeat split. Qed.

(** C9.  In the loop body a source NULL against a target 0.0 passes on any
    column, of any table, while a source 0.0 against a target NULL is an
    assertion failure that names the row and the column. *)
Theorem null_equals_zero_on_every_column_one_way
  (sqlite_row pg_row : row) (column : string) :
  (lookup column sqlite_row = Some PyNone ->
   lookup column pg_row = Some (PyFloat float_zero) ->
   compare_column sqlite_row pg_row column = Ok tt)
  /\ (forall id,
      lookup column sqlite_row = Some (PyFloat float_zero) ->
      lookup column pg_row = Some PyNone ->
      lookup "id" sqlite_row = Some id ->
      compare_column sqlite_row pg_row column
      = Raise (AssertionError
                 (Mismatch id column (PyFloat float_zero) PyNone))).
Proof.
  split.
  - intros Hs Hp. unfold compare_column, sqlite_getitem, pg_getitem.
    rewrite Hs, Hp. simpl. destruct (is_timestamp_column column); reflexivity.
  - intros id Hs Hp Hid. unfold compare_column, sqlite_getitem, pg_getitem.
    rewrite Hs, Hp. simpl.
    destruct (is_timestamp_column column); simpl; rewrite Hid; reflexivity.
Qed.

(** C10.  A string that holds '+00' and, once every '+00' is removed, is
    not accepted by [strptime] with '%Y-%m-%d %H:%M:%S.%f' makes
    [convert_sqlite_datetime] raise [ValueError].  When the content check
    reaches such a string in a [created] or [modified] cell, the error is
    not an [AssertionError]: it leaves [test_data_integrity], so that table
    is not finished and the tables after it are not verified. *)
Theorem unparsable_timestamp_aborts_verification (s : string) :
  contains "+00" s = true ->
  strptime (replace "+00" "" s) = None ->
  convert_sqlite_datetime (PyStr s) = Raise ValueError
  /\ forall sqlite_conn pg_conn table rows_before pg_before rows_after pg_after
       sqlite_row pg_row columns_before columns_after column pg_value
       tables_before tables_after log0 log1,
      sqlite_conn table = Some (rows_before ++ sqlite_row :: rows_after) ->
      pg_conn table = Some (pg_before ++ pg_row :: pg_after) ->
      List.length rows_after = List.length pg_after ->
      rows_pass rows_before pg_before ->
      keys sqlite_row = columns_before ++ column :: columns_after ->
      columns_pass sqlite_row pg_row columns_before ->
      is_timestamp_column column = true ->
      lookup column sqlite_row = Some (PyStr s) ->
      lookup column pg_row = Some pg_value ->
      tables = tables_before ++ table :: tables_after ->
      for_each tables_before (check_table sqlite_conn pg_conn) log0
      = (Ok tt, log1) ->
      test_data_integrity sqlite_conn pg_conn log0
      = (Raise ValueError,
         log1 ++ [InfoCheckingTable table;
                  InfoCounts table
                    (List.length (rows_before ++ sqlite_row :: rows_after))
                    (List.length (pg_before ++ pg_row :: pg_after));
                  InfoCountMatches table; InfoCheckingContent table]).
Proof.
  intros Hin Hparse.
  assert (Hconv : convert_sqlite_datetime (PyStr s) = Raise ValueError).
  { simpl. rewrite Hin, Hparse. reflexivity. }
  split; [exact Hconv|].
  intros sqlite_conn pg_conn table rows_before pg_before rows_after pg_after
    sqlite_row pg_row columns_before columns_after column pg_value
    tables_before tables_after log0 log1
    Hs Hp Hafter Hrows Hkeys Hcols Hts Hcell Hpg Htables Hbefore.
  assert (Hcol : compare_column sqlite_row pg_row column = Raise ValueError).
  { unfold compare_column, sqlite_getitem, pg_getitem.
    rewrite Hcell, Hpg. cbv beta iota delta [rbind].
    rewrite Hts, Hconv. reflexivity. }
  eapply driver_stops_on_other_exception; try eassumption.
  - discriminate.
  - rewrite (try_body_first_failure _ _ _ _ _ _ _ _ _ _ _ _
               Hs Hp Hafter Hrows Hkeys Hcols _ _ Hcol).
    rewrite <- !app_assoc. reflexivity.
Qed.

(** *** Concrete runs of the checker *)

(** C3, the claim as stated fails: with three mismatching cells in one
    table, the loop body would flag each of them, yet the report of the
    whole verification holds the first one only. *)
Lemma later_mismatches_are_not_reported :
  let sqlite_conn := person_only [ann_sqlite; bob_sqlite; cy_sqlite] in
  let pg_conn := person_only [ann_pg; bob_pg; cy_pg] in
  let report := snd (test_data_integrity sqlite_conn pg_conn []) in
  compare_column bob_sqlite bob_pg "created"
  = Raise (AssertionError bob_created_mismatch)
  /\ compare_column cy_sqlite cy_pg "full_name"
     = Raise (AssertionError cy_name_mismatch)
  /\ In (ErrorLogged bob_name_mismatch) report
  /\ ~ In (ErrorLogged bob_created_mismatch) report
  /\ ~ In (ErrorLogged cy_name_mismatch) report.
Proof.
  vm_compute. repeat split; auto 10;
    intros H; repeat (destruct H as [H|H]; [discriminate H|]); exact H.
Qed.

(** The theorem on three persons, the second of which differs in two
    columns and the third in one. *)
Lemma first_mismatch_ends_content_check_witness :
  check_table (person_only [ann_sqlite; bob_sqlite; cy_sqlite])
    (person_only [ann_pg; bob_pg; cy_pg]) "person" []
  = (Ok tt,
     [InfoCheckingTable "person"; InfoCounts "person" 3 3;
      InfoCountMatches "person"; InfoCheckingContent "person";
      ErrorLogged bob_name_mismatch]).
Proof.
  apply (proj2 (first_mismatch_ends_content_check
                  (person_only [ann_sqlite; bob_sqlite; cy_sqlite])
                  (person_only [ann_pg; bob_pg; cy_pg]) "person"
                  [ann_sqlite] [ann_pg] [cy_sqlite] [cy_pg]
                  bob_sqlite bob_pg ["id"] ["created"] "full_name"
                  bob_name_mismatch
                  eq_refl eq_refl eq_refl
                  ltac:(repeat constructor) eq_refl
                  ltac:(repeat constructor) eq_refl) []).
Defined.

(** C4, the claim as stated fails: the source holds two persons and the
    target one, whose name differs; the count mismatch is reported and the
    content check of [person] never starts, so the differing name is not
    looked at. *)
Lemma count_failure_blocks_content_check :
  let sqlite_conn := person_only [bob_sqlite; cy_sqlite] in
  let pg_conn := person_only [bob_pg] in
  let report := snd (test_data_integrity sqlite_conn pg_conn []) in
  In (ErrorLogged (RecordCountMismatch "person")) report
  /\ ~ In (InfoCheckingContent "person") report
  /\ ~ In (ErrorLogged (RowCountMismatch "person")) report
  /\ ~ In (ErrorLogged bob_name_mismatch) report.
Proof.
  vm_compute. repeat split; auto 10;
    intros H; repeat (destruct H as [H|H]; [discriminate H|]); exact H.
Qed.

(** The theorem on two source persons against one target person, and on
    one person whose name differs. *)
Lemma count_mismatch_skips_content_check_witness :
  for_each ["person"; "genre"]
    (check_table (person_only [bob_sqlite; cy_sqlite]) (person_only [bob_pg])) []
  = for_each ["genre"]
      (check_table (person_only [bob_sqlite; cy_sqlite]) (person_only [bob_pg]))
      [InfoCheckingTable "person"; InfoCounts "person" 2 1;
       ErrorLogged (RecordCountMismatch "person")]
  /\ for_each ["person"; "genre"]
       (check_table (person_only [bob_sqlite]) (person_only [bob_pg])) []
     = for_each ["genre"]
         (check_table (person_only [bob_sqlite]) (person_only [bob_pg]))
         [InfoCheckingTable "person"; InfoCounts "person" 1 1;
          InfoCountMatches "person"; InfoCheckingContent "person";
          ErrorLogged bob_name_mismatch].
Proof.
  split.
  - apply (proj1 count_mismatch_skips_content_check
             (person_only [bob_sqlite; cy_sqlite]) (person_only [bob_pg])
             "person" ["genre"] [bob_sqlite; cy_sqlite] [bob_pg] []
             eq_refl eq_refl ltac:(discriminate)).
  - apply (proj2 count_mismatch_skips_content_check
             (person_only [bob_sqlite]) (person_only [bob_pg])
             "person" ["genre"] bob_name_mismatch []
             [InfoCheckingTable "person"; InfoCounts "person" 1 1;
              InfoCountMatches "person"; InfoCheckingContent "person"]
             eq_refl).
Defined.

(** The theorem on the [description] column of a genre. *)
Lemma null_equals_zero_on_every_column_one_way_witness :
  compare_column [("id", PyStr "g1"); ("description", PyNone)]
    [("id", PyStr "g1"); ("description", PyFloat float_zero)] "description"
  = Ok tt
  /\ compare_column [("id", PyStr "g1"); ("description", PyFloat float_zero)]
       [("id", PyStr "g1"); ("description", PyNone)] "description"
     = Raise (AssertionError
                (Mismatch (PyStr "g1") "description" (PyFloat float_zero)
                   PyNone)).
Proof.
  split.
  - apply (proj1 (null_equals_zero_on_every_column_one_way
                    [("id", PyStr "g1"); ("description", PyNone)]
                    [("id", PyStr "g1"); ("description", PyFloat float_zero)]
                    "description") eq_refl eq_refl).
  - apply (proj2 (null_equals_zero_on_every_column_one_way
                    [("id", PyStr "g1"); ("description", PyFloat float_zero)]
                    [("id", PyStr "g1"); ("description", PyNone)]
                    "description") (PyStr "g1") eq_refl eq_refl eq_refl).
Defined.

(** The theorem on a [created] cell without fractional seconds in the
    first table. *)
Lemma unparsable_timestamp_aborts_verification_witness :
  convert_sqlite_datetime (PyStr "2023-05-01 12:00:00+00") = Raise ValueError
  /\ test_data_integrity (person_only [ann_no_fraction; bob_sqlite])
       (person_only [ann_pg; bob_pg]) []
     = (Raise ValueError,
        [InfoCheckingTable "person"; InfoCounts "person" 2 2;
         InfoCountMatches "person"; InfoCheckingContent "person"]).
Proof.
  destruct (unparsable_timestamp_aborts_verification "2023-05-01 12:00:00+00"
              eq_refl eq_refl) as [Hconv Hrun].
  split; [exact Hconv|].
  apply (Hrun (person_only [ann_no_fraction; bob_sqlite])
           (person_only [ann_pg; bob_pg]) "person"
           [] [] [bob_sqlite] [bob_pg] ann_no_fraction ann_pg
           ["id"; "full_name"] [] "created" (aware 1 12)
           [] ["genre"; "film_work"; "genre_film_work"; "person_film_work"]
           [] []
           eq_refl eq_refl eq_refl ltac:(constructor) eq_refl
           ltac:(repeat constructor) eq_refl eq_refl eq_refl eq_refl eq_refl).
Defined.

End CheckerFacts.

(** * Facts about the reader *)

Module ReaderFacts.
Import Py Postgres Loader.

Lemma select_limit_offset_nat {A} (rows : list A) (batch_size : Z) (o : nat) :
  0 < batch_size ->
  select_limit_offset rows batch_size (Z.of_nat o)
  = firstn (Z.to_nat batch_size) (skipn o rows).
Proof.
  intros Hb. unfold select_limit_offset.
  rewrite Nat2Z.id.
  destruct (batch_size <? 0) eqn:Hneg; [apply Z.ltb_lt in Hneg; lia|reflexivity].
Qed.

(** The loop started at offset [o] yields the rows from [o] on, cut into
    consecutive slices of [batch_size] rows. *)
Lemma load_data_loop_from {A} (rows : list A) (batch_size : Z) :
  0 < batch_size ->
  forall (fuel o : nat),
    (List.length rows - o <= fuel)%nat ->
    exists batches,
      load_data_loop fuel rows batch_size (Z.of_nat (List.length rows))
        (Z.of_nat o) = Some batches
      /\ List.concat batches = skipn o rows
      /\ (forall k, (k < List.length batches)%nat ->
            nth_error batches k
            = Some (firstn (Z.to_nat batch_size)
                      (skipn (o + k * Z.to_nat batch_size) rows)))
      /\ Forall (fun batch => batch <> []
                              /\ (List.length batch <= Z.to_nat batch_size)%nat)
           batches.
Proof.
  intros Hb. set (b := Z.to_nat batch_size).
  assert (Hbpos : (0 < b)%nat) by (subst b; lia).
  induction fuel as [|fuel IH]; intros o Hfuel.
  - exists []. simpl.
    destruct (Z.of_nat o <? Z.of_nat (List.length rows)) eqn:Hlt.
    + apply Z.ltb_lt in Hlt. lia.
    + apply Z.ltb_ge in Hlt. repeat split.
      * symmetry. apply skipn_all2. lia.
      * intros k Hk. simpl in Hk. lia.
      * constructor.
  - simpl.
    destruct (Z.of_nat o <? Z.of_nat (List.length rows)) eqn:Hlt.
    + apply Z.ltb_lt in Hlt.
      replace (Z.of_nat o + batch_size) with (Z.of_nat (o + b))
        by (subst b; lia).
      destruct (IH (o + b)%nat) as (rest & Hrest & Hcat & Hnth & Hshape);
        [lia|].
      rewrite Hrest. simpl.
      rewrite select_limit_offset_nat by assumption. fold b.
      exists (firstn b (skipn o rows) :: rest). repeat split.
      * simpl. rewrite Hcat.
        replace (o + b)%nat with (b + o)%nat by lia.
        rewrite <- skipn_skipn. apply firstn_skipn.
      * intros [|k] Hk; simpl.
        -- rewrite Nat.add_0_r. reflexivity.
        -- simpl in Hk. rewrite Hnth by lia. do 3 f_equal. lia.
      * constructor; [|exact Hshape]. split.
        -- intros Hnil. apply (f_equal (@List.length A)) in Hnil.
           rewrite length_firstn, length_skipn in Hnil. simpl in Hnil. lia.
        -- rewrite length_firstn. lia.
    + apply Z.ltb_ge in Hlt. exists []. repeat split.
      * symmetry. apply skipn_all2. lia.
      * intros k Hk. simpl in Hk. lia.
      * constructor.
Qed.

(** With a batch size that is not positive the offset never gets past the
    row count: the generator of a non-empty table never ends, and the
    model uses up any fuel. *)
Lemma load_data_loop_stuck {A} (rows : list A) (batch_size : Z) :
  batch_size <= 0 ->
  forall fuel offset,
    offset < Z.of_nat (List.length rows) ->
    load_data_loop fuel rows batch_size (Z.of_nat (List.length rows)) offset
    = None.
Proof.
  intros Hb. induction fuel as [|fuel IH]; intros offset Hlt; simpl.
  - apply Z.ltb_lt in Hlt. rewrite Hlt. reflexivity.
  - pose proof Hlt as Hlt'. apply Z.ltb_lt in Hlt'. rewrite Hlt'.
    rewrite IH by lia. reflexivity.
Qed.

(** The reader ends and its batches, put end to end, are the table. *)
Lemma load_data_whole_table {A} (rows : list A) (batch_size : Z) (fuel : nat) :
  0 < batch_size ->
  (List.length rows <= fuel)%nat ->
  exists batches,
    load_data fuel rows batch_size = Some batches
    /\ List.concat batches = rows.
Proof.
  intros Hb Hfuel.
  destruct (load_data_loop_from rows batch_size Hb fuel 0)
    as (batches & Hrun & Hcat & _); [lia|].
  exists batches. split; [exact Hrun|exact Hcat].
Qed.

(** C6.  With a positive batch size and fuel for one iteration per row,
    the reader ends and the batches it yields, put end to end, are the rows
    of the table as the store returns them: countRows(table) rows, each
    once, in native order; batch [k] is the slice of rows [k * batchSize]
    to [(k+1) * batchSize), none is empty and none longer than the batch
    size. *)
Theorem batch_completeness {A} (rows : list A) (batch_size : Z) (fuel : nat) :
  0 < batch_size ->
  (List.length rows <= fuel)%nat ->
  exists batches,
    load_data fuel rows batch_size = Some batches
    /\ List.concat batches = rows
    /\ List.length (List.concat batches) = List.length rows
    /\ (forall k, (k < List.length batches)%nat ->
          nth_error batches k
          = Some (firstn (Z.to_nat batch_size)
                    (skipn (k * Z.to_nat batch_size) rows)))
    /\ Forall (fun batch => batch <> []
                            /\ (List.length batch <= Z.to_nat batch_size)%nat)
         batches.
Proof.
  intros Hb Hfuel.
  destruct (load_data_whole_table rows batch_size fuel Hb Hfuel)
    as (batches & Hrun & Hcat).
  destruct (load_data_loop_from rows batch_size Hb fuel 0)
    as (batches' & Hrun' & _ & Hnth & Hshape); [lia|].
  assert (batches' = batches).
  { unfold load_data in Hrun. change (Z.of_nat 0) with 0 in Hrun'.
    congruence. }
  subst batches'.
  exists batches. repeat split; auto.
  rewrite Hcat. reflexivity.
Qed.

(** The theorem on five rows read by two. *)
Lemma batch_completeness_witness :
  exists batches,
    load_data 5 [10; 20; 30; 40; 50] 2 = Some batches
    /\ List.concat batches = [10; 20; 30; 40; 50]
    /\ List.length (List.concat batches) = 5%nat
    /\ (forall k, (k < List.length batches)%nat ->
          nth_error batches k
          = Some (firstn 2 (skipn (k * 2) [10; 20; 30; 40; 50])))
    /\ Forall (fun batch => batch <> [] /\ (List.length batch <= 2)%nat)
         batches.
Proof.
  apply (batch_completeness [10; 20; 30; 40; 50] 2 5); [lia | simpl; lia].
Defined.

Example load_data_five_rows_by_two :
  load_data 5 [10; 20; 30; 40; 50] 2 = Some [[10; 20]; [30; 40]; [50]].
Proof. reflexivity. Qed.

End ReaderFacts.

(** * Facts about the target store *)

Module PostgresFacts.
Import Py Postgres PostgresProps.

(** ** Equality of stored values *)

Lemma float_same_refl f : float_same f f = true.
Proof.
  destruct f as [s|s| |s m e]; simpl; auto using Bool.eqb_reflx.
  rewrite Bool.eqb_reflx, Pos.eqb_refl, Z.eqb_refl. reflexivity.
Qed.

Lemma float_same_eq f g : float_same f g = true -> f = g.
Proof.
  destruct f as [s|s| |s m e], g as [t|t| |t n k]; simpl; try discriminate;
    auto.
  - intros H. apply Bool.eqb_prop in H. congruence.
  - intros H. apply Bool.eqb_prop in H. congruence.
  - intros H. apply andb_prop in H. destruct H as [H He].
    apply andb_prop in H. destruct H as [Hs Hm].
    apply Bool.eqb_prop in Hs. apply Pos.eqb_eq in Hm. apply Z.eqb_eq in He.
    congruence.
Qed.

Lemma datetime_eqb_refl d : datetime_eqb d d = true.
Proof.
  unfold datetime_eqb. rewrite !Z.eqb_refl. simpl.
  destruct (tzinfo d); simpl; auto using Z.eqb_refl.
Qed.

Lemma datetime_eqb_eq a b : datetime_eqb a b = true -> a = b.
Proof.
  unfold datetime_eqb. intros H.
  repeat (apply andb_prop in H; destruct H as [H ?]).
  destruct a as [y1 m1 d1 h1 mi1 s1 u1 z1], b as [y2 m2 d2 h2 mi2 s2 u2 z2].
  simpl in *.
  repeat match goal with
         | E : (_ =? _) = true |- _ => apply Z.eqb_eq in E
         end.
  assert (z1 = z2).
  { destruct z1, z2; simpl in *; try discriminate; auto.
    f_equal. apply Z.eqb_eq. assumption. }
  congruence.
Qed.

Lemma value_eqb_refl v : value_eqb v v = true.
Proof.
  destruct v; simpl; auto using Z.eqb_refl, float_same_refl, String.eqb_refl,
    datetime_eqb_refl.
Qed.

Lemma value_eqb_eq v w : value_eqb v w = true -> v = w.
Proof.
  destruct v, w; simpl; try discriminate; intros H; try reflexivity; f_equal.
  - apply Z.eqb_eq; assumption.
  - apply float_same_eq; assumption.
  - apply String.eqb_eq; assumption.
  - apply datetime_eqb_eq; assumption.
Qed.

Lemma is_none_false v : is_none v = false <-> v <> PyNone.
Proof. destruct v; simpl; split; congruence. Qed.

(** ** The schema *)

Lemma primary_key_is_id t : primary_key (schema t) = "id".
Proof. destruct t; reflexivity. Qed.

Lemma id_is_arbiter t : is_arbiter t ["id"] = true.
Proof. destruct t; reflexivity. Qed.

Lemma id_index_is_unique t : In ["id"] (unique_indexes t).
Proof. unfold unique_indexes. rewrite primary_key_is_id. left. reflexivity. Qed.

(** No table references itself. *)
Lemma parent_is_another_table t column parent :
  In (column, parent) (foreign_keys (schema t)) -> parent <> t.
Proof.
  destruct t; simpl; intros H;
    repeat (destruct H as [H|H]; [inversion H; discriminate|]);
    contradiction.
Qed.

Lemma rows_of_set_rows_same db t rows : rows_of (set_rows db t rows) t = rows.
Proof. destruct t; reflexivity. Qed.

Lemma rows_of_set_rows_other db t t' rows :
  t' <> t -> rows_of (set_rows db t rows) t' = rows_of db t'.
Proof. destruct t, t'; simpl; congruence. Qed.

(** ** One insert *)

Lemma find_existsb {A} (f : A -> bool) (l : list A) :
  match find f l with
  | Some _ => existsb f l = true
  | None => existsb f l = false
  end.
Proof.
  induction l as [|x l IH]; simpl; auto.
  destruct (f x); simpl; auto.
Qed.

(** What each answer of the server says about the row, for a statement
    whose conflict target is the primary id. *)
Lemma insert_outcome_spec db st :
  on_conflict st = ["id"] ->
  let new := new_row st in
  let rows := rows_of db (into st) in
  match insert_outcome db st with
  | Skipped => field new "id" <> PyNone /\ hits ["id"] new rows = true
  | Inserted =>
      field new "id" <> PyNone /\ hits ["id"] new rows = false
      /\ unique_clash (into st) new rows = false
      /\ fk_missing db (into st) new = false
  | Failed _ =>
      field new "id" = PyNone
      \/ (hits ["id"] new rows = false
          /\ (unique_clash (into st) new rows = true
              \/ fk_missing db (into st) new = true))
  end.
Proof.
  intros Hid new rows. unfold insert_outcome.
  rewrite Hid, id_is_arbiter, primary_key_is_id. simpl negb. cbv iota.
  fold new. fold rows.
  destruct (is_none (field new "id")) eqn:Hnull.
  { left. destruct (field new "id"); simpl in Hnull; congruence. }
  apply is_none_false in Hnull.
  fold (hits ["id"] new rows).
  destruct (hits ["id"] new rows) eqn:Hhit; [split; auto|].
  pose proof (find_existsb (fun index => existsb (key_conflict index new) rows)
                (unique_indexes (into st))) as Hu.
  fold (unique_clash (into st) new rows) in Hu.
  destruct (find _ (unique_indexes (into st))).
  { right. auto. }
  pose proof (find_existsb (references_missing db new)
                (foreign_keys (schema (into st)))) as Hf.
  fold (fk_missing db (into st) new) in Hf.
  destruct (find _ (foreign_keys (schema (into st)))) as [[column parent]|].
  { right. auto. }
  auto.
Qed.

Lemma hits_id_iff new rows :
  field new "id" <> PyNone ->
  hits ["id"] new rows = true <-> In (field new "id") (ids rows).
Proof.
  intros Hnn. apply is_none_false in Hnn.
  unfold hits, ids. rewrite existsb_exists, in_map_iff.
  split.
  - intros (old & Hin & Hc). exists old. split; [|assumption].
    unfold key_conflict in Hc. simpl in Hc. rewrite Hnn in Hc. simpl in Hc.
    rewrite andb_true_r in Hc. apply value_eqb_eq. assumption.
  - intros (old & Heq & Hin). exists old. split; [assumption|].
    unfold key_conflict. simpl. rewrite Hnn, Heq, value_eqb_refl. reflexivity.
Qed.

(** ** Statements on a connection *)

Lemma execute_live c st :
  tx c <> Aborted ->
  execute c st =
  match insert_outcome (visible c) st with
  | Inserted =>
      (Inserted, mkConnection (committed c)
                   (InTransaction (insert_row (visible c) st))
                   (replies c ++ [Inserted]))
  | Skipped =>
      (Skipped, mkConnection (committed c) (InTransaction (visible c))
                  (replies c ++ [Skipped]))
  | Failed e =>
      (Failed e, mkConnection (committed c) Aborted (replies c ++ [Failed e]))
  end.
Proof.
  unfold execute, visible. destruct (tx c); intros H; try reflexivity.
  contradiction H; reflexivity.
Qed.

Lemma execute_aborted c st :
  tx c = Aborted ->
  execute c st =
  (Failed InFailedSqlTransaction,
   mkConnection (committed c) Aborted
     (replies c ++ [Failed InFailedSqlTransaction])).
Proof. unfold execute. intros H; rewrite H; reflexivity. Qed.

Lemma execute_committed c st : committed (snd (execute c st)) = committed c.
Proof.
  unfold execute.
  destruct (tx c); try reflexivity;
    destruct (insert_outcome _ st); reflexivity.
Qed.

Lemma exec_list_cons c st sts :
  exec_list c (st :: sts) = exec_list (snd (execute c st)) sts.
Proof. reflexivity. Qed.

Lemma exec_list_committed sts : forall c,
  committed (exec_list c sts) = committed c.
Proof.
  induction sts as [|st sts IH]; intros c; [reflexivity|].
  rewrite exec_list_cons, IH. apply execute_committed.
Qed.

Lemma exec_list_aborted sts : forall c,
  tx c = Aborted -> tx (exec_list c sts) = Aborted.
Proof.
  induction sts as [|st sts IH]; intros c H; [exact H|].
  rewrite exec_list_cons. apply IH.
  rewrite (execute_aborted _ _ H). reflexivity.
Qed.

Lemma commit_aborted c : tx c = Aborted -> committed (commit c) = committed c.
Proof. unfold commit. intros H; rewrite H; reflexivity. Qed.

Lemma commit_visible c : committed (commit c) = visible c.
Proof. unfold commit, visible. destruct (tx c); reflexivity. Qed.

Lemma commit_idle c : tx (commit c) = Idle.
Proof. unfold commit. destruct (tx c) eqn:H; simpl; auto. Qed.

Lemma commit_replies c : replies (commit c) = replies c.
Proof. unfold commit. destruct (tx c); reflexivity. Qed.

Lemma visible_idle c : tx c = Idle -> visible c = committed c.
Proof. unfold visible. intros H; rewrite H; reflexivity. Qed.

(** A failed statement anywhere in a batch: the commit keeps nothing of
    the batch. *)
Lemma failed_batch_commits_nothing c sts :
  tx (exec_list c sts) = Aborted ->
  committed (commit (exec_list c sts)) = committed c.
Proof.
  intros H. rewrite (commit_aborted _ H). apply exec_list_committed.
Qed.

(** A statement whose id is already stored is answered by the conflict
    clause, whatever else the row holds, and changes nothing. *)
Lemma stored_id_is_skipped c st :
  tx c <> Aborted ->
  on_conflict st = ["id"] ->
  statement_id st <> PyNone ->
  In (statement_id st) (ids (rows_of (visible c) (into st))) ->
  execute c st
  = (Skipped, mkConnection (committed c) (InTransaction (visible c))
                (replies c ++ [Skipped])).
Proof.
  intros Hlive Hid Hnn Hin. rewrite (execute_live _ _ Hlive).
  pose proof (insert_outcome_spec (visible c) st Hid) as Hspec.
  apply (hits_id_iff _ _ Hnn) in Hin. unfold statement_id in *.
  destruct (insert_outcome (visible c) st); simpl in Hspec.
  - destruct Hspec as (_ & Hhit & _). congruence.
  - reflexivity.
  - destruct Hspec as [Hnull|[Hhit _]]; congruence.
Qed.

Lemma replay_skips t sts : forall c,
  tx c <> Aborted ->
  Forall (fun st => on_conflict st = ["id"] /\ into st = t
                    /\ statement_id st <> PyNone
                    /\ In (statement_id st) (ids (rows_of (visible c) t))) sts ->
  visible (exec_list c sts) = visible c
  /\ tx (exec_list c sts) <> Aborted
  /\ replies (exec_list c sts) = replies c ++ repeat Skipped (List.length sts).
Proof.
  induction sts as [|st sts IH]; intros c Hlive Hall.
  - simpl. rewrite app_nil_r. auto.
  - inversion Hall as [|? ? (Hid & Ht & Hnn & Hin) Hrest]; subst.
    rewrite exec_list_cons, (stored_id_is_skipped _ _ Hlive Hid Hnn Hin).
    simpl snd.
    destruct (IH (mkConnection (committed c) (InTransaction (visible c))
                    (replies c ++ [Skipped]))) as (Hv & Hl & Hr).
    + simpl. discriminate.
    + exact Hrest.
    + rewrite Hv, Hr. simpl. rewrite <- app_assoc. auto.
Qed.

Lemma ids_app rows rows' : ids (rows ++ rows') = ids rows ++ ids rows'.
Proof. apply map_app. Qed.

Lemma rows_of_insert_row_same db st :
  rows_of (insert_row db st) (into st) = rows_of db (into st) ++ [new_row st].
Proof. apply rows_of_set_rows_same. Qed.

Lemma rows_of_insert_row_other db st t :
  t <> into st -> rows_of (insert_row db st) t = rows_of db t.
Proof. apply rows_of_set_rows_other. Qed.

Lemma visible_in_transaction db work answers :
  visible (mkConnection db (InTransaction work) answers) = work.
Proof. reflexivity. Qed.

(** A batch that ends with its transaction alive has only added rows to
    its table, each under the id of one of its statements, and the id of
    every statement is stored at the end. *)
Lemma live_batch_grows t sts : forall c,
  tx c <> Aborted ->
  Forall (fun st => on_conflict st = ["id"] /\ into st = t) sts ->
  tx (exec_list c sts) <> Aborted ->
  (exists added,
      rows_of (visible (exec_list c sts)) t = rows_of (visible c) t ++ added
      /\ incl (ids added) (map statement_id sts))
  /\ (forall t', t' <> t ->
        rows_of (visible (exec_list c sts)) t' = rows_of (visible c) t')
  /\ Forall (fun st => statement_id st <> PyNone
                       /\ In (statement_id st)
                            (ids (rows_of (visible (exec_list c sts)) t))) sts.
Proof.
  induction sts as [|st sts IH]; intros c Hlive Hall Hend.
  - simpl. repeat split; auto.
    exists []. rewrite app_nil_r. split; [reflexivity|]. intros v [].
  - inversion Hall as [|? ? (Hid & Ht) Hrest]; subst.
    rewrite exec_list_cons in *.
    set (c1 := snd (execute c st)) in *.
    assert (Hlive1 : tx c1 <> Aborted).
    { intros Hab. apply Hend. apply exec_list_aborted. exact Hab. }
    destruct (IH c1 Hlive1 Hrest Hend) as ((added & Hrows & Hincl) & Hother & Hids).
    pose proof (insert_outcome_spec (visible c) st Hid) as Hspec.
    assert (Hstep :
      statement_id st <> PyNone
      /\ (exists one, rows_of (visible c1) (into st)
                      = rows_of (visible c) (into st) ++ one
                      /\ incl (ids one) [statement_id st])
      /\ (forall t', t' <> into st ->
            rows_of (visible c1) t' = rows_of (visible c) t')
      /\ In (statement_id st) (ids (rows_of (visible c1) (into st)))).
    { subst c1. clear Hrows Hother Hids Hend.
      rewrite (execute_live _ _ Hlive) in *.
      destruct (insert_outcome (visible c) st); simpl in *.
      - destruct Hspec as (Hnn & _). split; [exact Hnn|].
        rewrite !visible_in_transaction. repeat split.
        + exists [new_row st]. split; [apply rows_of_insert_row_same|].
          intros v Hv. exact Hv.
        + intros t' Ht'. apply rows_of_insert_row_other. exact Ht'.
        + rewrite rows_of_insert_row_same, ids_app. apply in_or_app.
          right. left. reflexivity.
      - destruct Hspec as (Hnn & Hhit). split; [exact Hnn|].
        rewrite !visible_in_transaction. repeat split.
        + exists []. rewrite app_nil_r. split; [reflexivity|]. intros v [].
        + apply hits_id_iff; assumption.
      - contradiction Hlive1; reflexivity. }
    destruct Hstep as (Hnn & (one & Hone & Hincl1) & Hother1 & Hin1).
    repeat split.
    + exists (one ++ added). rewrite Hrows, Hone, <- app_assoc.
      split; [reflexivity|].
      rewrite ids_app. intros v Hv. apply in_app_or in Hv. simpl.
      destruct Hv as [Hv|Hv].
      * apply Hincl1 in Hv. destruct Hv as [Hv|[]]. left. exact Hv.
      * right. apply Hincl. exact Hv.
    + intros t' Ht'. rewrite Hother, Hother1 by assumption. reflexivity.
    + constructor; [|exact Hids]. split; [exact Hnn|].
      rewrite Hrows, ids_app. apply in_or_app. left. exact Hin1.
Qed.

(** ** The same batch against a later state of the target

    The second run sends, for a source row, a statement that may differ
    from the first run's in its timestamps only.  The columns the server
    looks at, those of the unique indexes and of the foreign keys, are the
    same. *)

Lemma id_is_key_column t : In "id" (List.concat (unique_indexes t)).
Proof.
  unfold unique_indexes. rewrite primary_key_is_id. simpl. left. reflexivity.
Qed.

Lemma same_keys_id st1 st2 :
  same_keys st1 st2 -> statement_id st1 = statement_id st2.
Proof.
  intros [_ H]. apply H. unfold key_columns. apply in_or_app. left.
  apply id_is_key_column.
Qed.

Lemma forallb_agree {A} (f g : A -> bool) (l : list A) :
  (forall a, In a l -> f a = g a) -> forallb f l = forallb g l.
Proof.
  induction l as [|a l IH]; intros H; simpl; auto.
  rewrite (H a (or_introl eq_refl)), IH; auto.
  intros b Hb. apply H. right. exact Hb.
Qed.

Lemma existsb_agree {A} (f g : A -> bool) (l : list A) :
  (forall a, In a l -> f a = g a) -> existsb f l = existsb g l.
Proof.
  induction l as [|a l IH]; intros H; simpl; auto.
  rewrite (H a (or_introl eq_refl)), IH; auto.
  intros b Hb. apply H. right. exact Hb.
Qed.

Lemma key_conflict_transfer t index new1 new2 x y :
  In index (unique_indexes t) ->
  (forall c, In c (key_columns t) -> field new1 c = field new2 c) ->
  agree t x y ->
  key_conflict index new1 x = key_conflict index new2 y.
Proof.
  intros Hindex Hnew Hxy. unfold key_conflict.
  apply forallb_agree. intros c Hc.
  assert (Hcc : In c (List.concat (unique_indexes t))).
  { apply in_concat. exists index. split; assumption. }
  rewrite (Hxy c Hcc), (Hnew c).
  - reflexivity.
  - unfold key_columns. apply in_or_app. left. exact Hcc.
Qed.

Lemma hits_transfer t index new1 new2 rows1 rows2 :
  In index (unique_indexes t) ->
  (forall c, In c (key_columns t) -> field new1 c = field new2 c) ->
  covered t rows1 rows2 ->
  hits index new1 rows1 = true -> hits index new2 rows2 = true.
Proof.
  intros Hindex Hnew Hcov. unfold hits. rewrite !existsb_exists.
  intros (x & Hx & Hc). destruct (Hcov x Hx) as (y & Hy & Hxy).
  exists y. split; [exact Hy|].
  rewrite <- (key_conflict_transfer t index new1 new2 x y); assumption.
Qed.

Lemma unique_clash_transfer t new1 new2 rows1 rows2 :
  (forall c, In c (key_columns t) -> field new1 c = field new2 c) ->
  covered t rows1 rows2 ->
  unique_clash t new1 rows1 = true -> unique_clash t new2 rows2 = true.
Proof.
  intros Hnew Hcov. unfold unique_clash. rewrite !existsb_exists.
  intros (index & Hindex & Hhit). exists index. split; [exact Hindex|].
  eapply hits_transfer; eassumption.
Qed.

Lemma fk_missing_transfer t new1 new2 db1 db2 :
  (forall c, In c (key_columns t) -> field new1 c = field new2 c) ->
  (forall column parent, In (column, parent) (foreign_keys (schema t)) ->
     rows_of db1 parent = rows_of db2 parent) ->
  fk_missing db1 t new1 = fk_missing db2 t new2.
Proof.
  intros Hnew Hparents. unfold fk_missing.
  apply existsb_agree. intros [column parent] Hfk.
  unfold references_missing.
  rewrite (Hparents column parent Hfk), (Hnew column).
  - reflexivity.
  - unfold key_columns. apply in_or_app. right.
    apply in_map_iff. exists (column, parent). auto.
Qed.

Lemma rows_of_insert_row_at db st t :
  into st = t -> rows_of (insert_row db st) t = rows_of db t ++ [new_row st].
Proof. intros <-. apply rows_of_insert_row_same. Qed.

(** One statement in both runs: a failure in the first run is a failure in
    the second, and while both transactions live the relation between the
    two views is kept. *)
Lemma paired_step t batch_ids c1 c2 st1 st2 :
  tx c1 <> Aborted -> tx c2 <> Aborted ->
  later_view t batch_ids (visible c1) (visible c2) ->
  paired t batch_ids st1 st2 ->
  (tx (snd (execute c1 st1)) = Aborted -> tx (snd (execute c2 st2)) = Aborted)
  /\ (tx (snd (execute c1 st1)) <> Aborted ->
      tx (snd (execute c2 st2)) <> Aborted ->
      later_view t batch_ids (visible (snd (execute c1 st1)))
        (visible (snd (execute c2 st2)))).
Proof.
  intros Hlive1 Hlive2 (Hcov & Hback & Hparents) (Hid1 & Hid2 & Ht & Hkeys & Hin).
  pose proof (same_keys_id _ _ Hkeys) as Hsame_id.
  destruct Hkeys as [Hinto Hfields]. rewrite Ht in Hfields.
  assert (Ht2 : into st2 = t) by congruence.
  pose proof (insert_outcome_spec (visible c1) st1 Hid1) as Hspec1.
  pose proof (insert_outcome_spec (visible c2) st2 Hid2) as Hspec2.
  rewrite Ht in Hspec1. rewrite Ht2 in Hspec2.
  unfold statement_id in *.
  (* an id stored for the second run is stored for the first *)
  assert (Hhit_back :
    field (new_row st2) "id" <> PyNone ->
    hits ["id"] (new_row st2) (rows_of (visible c2) t) = true ->
    hits ["id"] (new_row st1) (rows_of (visible c1) t) = true).
  { intros Hnn Hhit. apply hits_id_iff; [congruence|].
    apply Hback; [exact Hin|]. rewrite Hsame_id.
    apply hits_id_iff; assumption. }
  assert (Hhit_forth :
    hits ["id"] (new_row st1) (rows_of (visible c1) t) = true ->
    hits ["id"] (new_row st2) (rows_of (visible c2) t) = true).
  { apply (hits_transfer t); auto using id_index_is_unique. }
  rewrite (execute_live _ _ Hlive1), (execute_live _ _ Hlive2).
  destruct (insert_outcome (visible c1) st1) as [| |e1];
    destruct (insert_outcome (visible c2) st2) as [| |e2];
    simpl in Hspec1, Hspec2; simpl snd; simpl tx;
    rewrite ?visible_in_transaction.
  - (* inserted, inserted *)
    split; [discriminate|]. intros _ _.
    destruct Hspec1 as (Hnn1 & _). repeat split.
    + intros x Hx. rewrite (rows_of_insert_row_at _ _ _ Ht) in Hx.
      rewrite (rows_of_insert_row_at _ _ _ Ht2).
      apply in_app_or in Hx. destruct Hx as [Hx|[Hx|[]]].
      * destruct (Hcov x Hx) as (y & Hy & Hxy).
        exists y. split; [|exact Hxy]. apply in_or_app. left. exact Hy.
      * subst x. exists (new_row st2). split.
        -- apply in_or_app. right. left. reflexivity.
        -- intros c Hc. apply Hfields. unfold key_columns.
           apply in_or_app. left. exact Hc.
    + intros v Hv Hv2.
      rewrite (rows_of_insert_row_at _ _ _ Ht2), ids_app in Hv2.
      rewrite (rows_of_insert_row_at _ _ _ Ht), ids_app.
      apply in_or_app. apply in_app_or in Hv2.
      destruct Hv2 as [Hv2|[Hv2|[]]].
      * left. apply Hback; assumption.
      * right. left. rewrite <- Hv2. exact Hsame_id.
    + intros column parent Hfk.
      pose proof (parent_is_another_table _ _ _ Hfk) as Hne.
      rewrite !rows_of_insert_row_other by congruence.
      eapply Hparents; eassumption.
  - (* inserted, skipped *)
    destruct Hspec1 as (_ & Hmiss & _). destruct Hspec2 as (Hnn2 & Hhit2).
    rewrite (Hhit_back Hnn2 Hhit2) in Hmiss. discriminate.
  - split; [discriminate|]. intros _ H; contradiction H; reflexivity.
  - (* skipped, inserted *)
    destruct Hspec1 as (_ & Hhit1). destruct Hspec2 as (_ & Hmiss & _).
    rewrite (Hhit_forth Hhit1) in Hmiss. discriminate.
  - (* skipped, skipped *)
    split; [discriminate|]. intros _ _. repeat split; assumption.
  - split; [discriminate|]. intros _ H; contradiction H; reflexivity.
  - (* failed, inserted *)
    exfalso. destruct Hspec2 as (Hnn2 & Hmiss2 & Hclash2 & Hfk2).
    destruct Hspec1 as [Hnull|[_ [Hclash|Hfk]]].
    + congruence.
    + rewrite (unique_clash_transfer t _ _ _ _ Hfields Hcov Hclash) in Hclash2.
      discriminate.
    + rewrite (fk_missing_transfer t _ _ _ _ Hfields Hparents) in Hfk.
      congruence.
  - (* failed, skipped *)
    exfalso. destruct Hspec2 as (Hnn2 & Hhit2).
    destruct Hspec1 as [Hnull|[Hmiss _]].
    + congruence.
    + rewrite (Hhit_back Hnn2 Hhit2) in Hmiss. discriminate.
  - split; [reflexivity|]. intros H; contradiction H; reflexivity.
Qed.

Lemma aborted_dec (c : connection) : {tx c = Aborted} + {tx c <> Aborted}.
Proof. destruct (tx c); [right|right|left]; congruence. Qed.

(** A batch that fails in the first run fails in the second. *)
Lemma abort_persists t batch_ids sts1 sts2 :
  Forall2 (paired t batch_ids) sts1 sts2 ->
  forall c1 c2,
    tx c1 <> Aborted ->
    (tx c2 <> Aborted -> later_view t batch_ids (visible c1) (visible c2)) ->
    tx (exec_list c1 sts1) = Aborted ->
    tx (exec_list c2 sts2) = Aborted.
Proof.
  induction 1 as [|st1 st2 sts1 sts2 Hpair _ IH]; intros c1 c2 Hlive1 Hview Hend.
  - simpl in Hend. contradiction.
  - rewrite exec_list_cons in *.
    destruct (aborted_dec c2) as [Hab2|Hlive2].
    { apply exec_list_aborted. rewrite (execute_aborted _ _ Hab2). reflexivity. }
    destruct (paired_step t batch_ids c1 c2 st1 st2 Hlive1 Hlive2
                (Hview Hlive2) Hpair) as [Hfail Hkeep].
    destruct (aborted_dec (snd (execute c1 st1))) as [Hab1|Hl1].
    + apply exec_list_aborted, Hfail, Hab1.
    + apply (IH _ _ Hl1); auto.
Qed.

Lemma paired_statements_left t batch_ids sts1 sts2 :
  Forall2 (paired t batch_ids) sts1 sts2 ->
  Forall (fun st => on_conflict st = ["id"] /\ into st = t) sts1.
Proof.
  induction 1 as [|st1 st2 sts1 sts2 (H1 & _ & Ht & _) _ IH]; constructor; auto.
Qed.

Lemma paired_statements_replay t batch_ids sts1 sts2 (stored : list value) :
  Forall2 (paired t batch_ids) sts1 sts2 ->
  Forall (fun st => statement_id st <> PyNone /\ In (statement_id st) stored)
    sts1 ->
  Forall (fun st => on_conflict st = ["id"] /\ into st = t
                    /\ statement_id st <> PyNone
                    /\ In (statement_id st) stored) sts2.
Proof.
  induction 1 as [|st1 st2 sts1 sts2 (_ & H2 & Ht & Hkeys & _) _ IH];
    intros Hall; constructor; inversion Hall as [|? ? [Hnn Hin] Hrest]; subst.
  - rewrite <- (same_keys_id _ _ Hkeys). destruct Hkeys as [Hinto _].
    repeat split; auto; congruence.
  - apply IH. exact Hrest.
Qed.

(** One batch, sent again to a target that holds what the first run
    committed from it, possibly followed by rows under other ids: the
    commit changes nothing; and when the first run's batch met no error,
    every statement is answered by the conflict clause. *)
Lemma batch_replay t batch_ids sts1 sts2 c1 c2 extra :
  tx c1 = Idle -> tx c2 = Idle ->
  Forall2 (paired t batch_ids) sts1 sts2 ->
  rows_of (committed c2) t
  = rows_of (committed (commit (exec_list c1 sts1))) t ++ extra ->
  (forall v, In v batch_ids -> ~ In v (ids extra)) ->
  (forall column parent, In (column, parent) (foreign_keys (schema t)) ->
     rows_of (committed c1) parent = rows_of (committed c2) parent) ->
  committed (commit (exec_list c2 sts2)) = committed c2
  /\ (tx (exec_list c1 sts1) <> Aborted ->
      replies (commit (exec_list c2 sts2))
      = replies c2 ++ repeat Skipped (List.length sts2)).
Proof.
  intros Hidle1 Hidle2 Hpairs Hrows Hfresh Hparents.
  assert (Hlive1 : tx c1 <> Aborted) by (rewrite Hidle1; discriminate).
  assert (Hlive2 : tx c2 <> Aborted) by (rewrite Hidle2; discriminate).
  destruct (aborted_dec (exec_list c1 sts1)) as [Hab|Hlive].
  - rewrite (failed_batch_commits_nothing _ _ Hab) in Hrows.
    split; [|intros H; contradiction].
    apply failed_batch_commits_nothing.
    apply (abort_persists t batch_ids sts1 sts2 Hpairs c1 c2 Hlive1); auto.
    intros _. rewrite (visible_idle _ Hidle1), (visible_idle _ Hidle2).
    repeat split.
    + intros x Hx. exists x. split.
      * rewrite Hrows. apply in_or_app. left. exact Hx.
      * intros c _. reflexivity.
    + intros v Hv Hv2. rewrite Hrows, ids_app in Hv2.
      apply in_app_or in Hv2. destruct Hv2 as [Hv2|Hv2]; [exact Hv2|].
      exfalso. exact (Hfresh v Hv Hv2).
    + exact Hparents.
  - rewrite commit_visible in Hrows.
    destruct (live_batch_grows t sts1 c1 Hlive1
                (paired_statements_left _ _ _ _ Hpairs) Hlive)
      as (_ & _ & Hstored).
    assert (Hall :
      Forall (fun st => on_conflict st = ["id"] /\ into st = t
                        /\ statement_id st <> PyNone
                        /\ In (statement_id st)
                             (ids (rows_of (visible c2) t))) sts2).
    { apply (paired_statements_replay t batch_ids sts1 sts2 _ Hpairs).
      eapply Forall_impl; [|exact Hstored]. intros st [Hnn Hin].
      split; [exact Hnn|].
      rewrite (visible_idle _ Hidle2), Hrows, ids_app.
      apply in_or_app. left. exact Hin. }
    destruct (replay_skips t sts2 c2 Hlive2 Hall) as (Hv & _ & Hr).
    rewrite commit_visible, commit_replies, Hv, (visible_idle _ Hidle2).
    split; [reflexivity|]. intros _. exact Hr.
Qed.

(** ** The server's answers *)

Lemma execute_replies c st :
  exists o, replies (snd (execute c st)) = replies c ++ [o]
            /\ (tx (snd (execute c st)) = Aborted -> exists e, o = Failed e).
Proof.
  unfold execute.
  destruct (tx c); [| |eexists; split; [reflexivity|eauto]];
    destruct (insert_outcome _ st); eexists; (split; [reflexivity|]);
    simpl; intros H; try discriminate; eauto.
Qed.

Lemma exec_list_replies sts : forall c,
  exists answers,
    replies (exec_list c sts) = replies c ++ answers
    /\ List.length answers = List.length sts
    /\ (tx c <> Aborted -> tx (exec_list c sts) = Aborted ->
        exists e, In (Failed e) answers).
Proof.
  induction sts as [|st sts IH]; intros c.
  - exists []. rewrite app_nil_r. repeat split; auto.
    intros H1 H2. contradiction.
  - rewrite exec_list_cons.
    destruct (execute_replies c st) as (o & Ho & Hfail).
    destruct (IH (snd (execute c st))) as (answers & Ha & Hlen & Hab).
    exists (o :: answers). rewrite Ha, Ho, <- app_assoc. simpl.
    repeat split; auto.
    intros Hlive Hend.
    destruct (aborted_dec (snd (execute c st))) as [Hnow|Hlater].
    + destruct (Hfail Hnow) as [e ->]. exists e. left. reflexivity.
    + destruct (Hab Hlater Hend) as [e He]. exists e. right. exact He.
Qed.

Lemma clean_prefix c c' answers :
  replies c' = replies c ++ answers -> clean c' -> clean c.
Proof.
  intros H Hclean e He. apply (Hclean e). rewrite H.
  apply in_or_app. left. exact He.
Qed.

(** A batch of a clean run ended with its transaction alive. *)
Lemma clean_batch_is_live c sts :
  tx c <> Aborted -> clean (commit (exec_list c sts)) ->
  tx (exec_list c sts) <> Aborted.
Proof.
  intros Hlive Hclean Hab.
  destruct (exec_list_replies sts c) as (answers & Ha & _ & Hfail).
  destruct (Hfail Hlive Hab) as [e He].
  apply (Hclean e). rewrite commit_replies, Ha.
  apply in_or_app. right. exact He.
Qed.

Lemma execute_reply c st :
  replies (snd (execute c st)) = replies c ++ [fst (execute c st)].
Proof.
  unfold execute.
  destruct (tx c); try reflexivity; destruct (insert_outcome _ st); reflexivity.
Qed.

Lemma execute_failed c st e :
  fst (execute c st) = Failed e -> tx (snd (execute c st)) = Aborted.
Proof.
  unfold execute.
  destruct (tx c); try reflexivity;
    destruct (insert_outcome _ st); simpl; intros H; try discriminate;
    reflexivity.
Qed.

Lemma replies_answers sts : forall c,
  replies (exec_list c sts) = replies c ++ answers c sts.
Proof.
  induction sts as [|st sts IH]; intros c.
  - simpl. rewrite app_nil_r. reflexivity.
  - rewrite exec_list_cons, IH, execute_reply, <- app_assoc. reflexivity.
Qed.

(** One refused statement and the transaction is failed at the end of
    the batch. *)
Lemma failed_answer_aborts sts : forall c e,
  In (Failed e) (answers c sts) -> tx (exec_list c sts) = Aborted.
Proof.
  induction sts as [|st sts IH]; intros c e Hin; simpl in Hin; [contradiction|].
  rewrite exec_list_cons. destruct Hin as [Hnow|Hlater].
  - apply exec_list_aborted. eapply execute_failed. exact Hnow.
  - eapply IH. exact Hlater.
Qed.

End PostgresFacts.

(** * Facts about the writer and the whole run *)

Module WriterFacts.
Import Py Postgres Loader PostgresProps LoaderProps LoaderScenarios
  PostgresFacts ReaderFacts.
Local Open Scope loader_scope.

(** ** The statements the writers build *)

Ltac case_defaults :=
  repeat match goal with
         | |- context [truthy ?v] => destruct (truthy v)
         | |- context [is_none ?v] => destruct (is_none v)
         end.

Ltac same_keys_by_columns :=
  split; [reflexivity|];
  let c := fresh "c" in let Hc := fresh "Hc" in
  intros c Hc; simpl in Hc;
  repeat (destruct Hc as [Hc|Hc]; [subst c; reflexivity|]);
  contradiction.

Ltac prove_well_keyed statement :=
  constructor; intros; unfold statement, or_now, if_not_none_else_now,
    L_bind, L_ret, now; case_defaults; simpl; try reflexivity;
  same_keys_by_columns.

Lemma person_statement_well_keyed :
  well_keyed person p_id person_statement.
Proof. prove_well_keyed person_statement. Qed.

Lemma genre_statement_well_keyed :
  well_keyed genre g_id genre_statement.
Proof. prove_well_keyed genre_statement. Qed.

Lemma film_work_statement_well_keyed :
  well_keyed film_work fw_id film_work_statement.
Proof. prove_well_keyed film_work_statement. Qed.

Lemma person_film_work_statement_well_keyed :
  well_keyed person_film_work pfw_id person_film_work_statement.
Proof. prove_well_keyed person_film_work_statement. Qed.

Lemma genre_film_work_statement_well_keyed :
  well_keyed genre_film_work gfw_id genre_film_work_statement.
Proof. prove_well_keyed genre_film_work_statement. Qed.

(** ** A batch on the connection *)

Lemma for_in_cons {A} (x : A) xs (body : A -> L unit) st :
  snd (for_in (x :: xs) body st) = snd (for_in xs body (snd (body x st))).
Proof. simpl. unfold L_bind. destruct (body x st). reflexivity. Qed.

Lemma try_execute_conn t id stmt st :
  conn (snd (try_execute t id stmt st)) = snd (execute (conn st) stmt).
Proof.
  unfold try_execute, L_bind, cursor_execute.
  destruct (execute (conn st) stmt) as [o c]. destruct o; reflexivity.
Qed.

Lemma row_body_conn {A} t id_of (statement : A -> L insert_statement) row st :
  well_keyed t id_of statement ->
  conn (snd (row_body t id_of statement row st))
  = snd (execute (conn st) (fst (statement row st))).
Proof.
  intros Hwk. unfold row_body, L_bind.
  pose proof (wk_conn _ _ _ Hwk row st) as Hc.
  destruct (statement row st) as [stmt st']. simpl in *.
  rewrite try_execute_conn, Hc. reflexivity.
Qed.

Lemma rows_loop_conn {A} t id_of (statement : A -> L insert_statement) :
  well_keyed t id_of statement ->
  forall data st,
  exists sts,
    Forall2 (built statement) data sts
    /\ conn (snd (for_in data (row_body t id_of statement) st))
       = exec_list (conn st) sts.
Proof.
  intros Hwk. induction data as [|row data IH]; intros st.
  - exists []. split; [constructor|reflexivity].
  - destruct (IH (snd (row_body t id_of statement row st))) as (sts & Hb & Hc).
    exists (fst (statement row st) :: sts). split.
    + constructor; [exists st; reflexivity|exact Hb].
    + rewrite for_in_cons, Hc, exec_list_cons, row_body_conn by assumption.
      reflexivity.
Qed.

Lemma save_rows_conn {A} t id_of (statement : A -> L insert_statement) :
  well_keyed t id_of statement ->
  forall data st,
  exists sts,
    Forall2 (built statement) data sts
    /\ conn (snd (save_rows t id_of statement data st))
       = commit (exec_list (conn st) sts).
Proof.
  intros Hwk data st.
  destruct (rows_loop_conn t id_of statement Hwk data st) as (sts & Hb & Hc).
  exists sts. split; [exact Hb|].
  unfold save_rows. fold (row_body t id_of statement).
  unfold L_bind at 1.
  destruct (for_in data (row_body t id_of statement) st) as [u st'].
  simpl in *. rewrite Hc. reflexivity.
Qed.

Lemma built_ids {A} t id_of (statement : A -> L insert_statement) data sts :
  well_keyed t id_of statement ->
  Forall2 (built statement) data sts ->
  map statement_id sts = map id_of data.
Proof.
  intros Hwk. induction 1 as [|row stmt data sts [st ->] _ IH]; simpl.
  - reflexivity.
  - rewrite IH, (wk_id _ _ _ Hwk). reflexivity.
Qed.

Lemma built_left {A} t id_of (statement : A -> L insert_statement) data sts :
  well_keyed t id_of statement ->
  Forall2 (built statement) data sts ->
  Forall (fun st => on_conflict st = ["id"] /\ into st = t) sts.
Proof.
  intros Hwk. induction 1 as [|row stmt data sts [st ->] _ IH]; constructor.
  - split; [apply (wk_target _ _ _ Hwk)|apply (wk_into _ _ _ Hwk)].
  - exact IH.
Qed.

Lemma built_paired {A} t id_of (statement : A -> L insert_statement)
  data sts1 sts2 :
  well_keyed t id_of statement ->
  Forall2 (built statement) data sts1 ->
  Forall2 (built statement) data sts2 ->
  Forall2 (paired t (map id_of data)) sts1 sts2.
Proof.
  intros Hwk H1. revert sts2.
  induction H1 as [|row stmt1 data sts1 [st1 ->] _ IH]; intros sts2 H2;
    inversion H2 as [|? stmt2 ? sts2' [st2 ->] Hrest]; subst; constructor.
  - unfold paired.
    split; [apply (wk_target _ _ _ Hwk)|].
    split; [apply (wk_target _ _ _ Hwk)|].
    split; [apply (wk_into _ _ _ Hwk)|].
    split; [apply (wk_keys _ _ _ Hwk)|].
    rewrite (wk_id _ _ _ Hwk). left. reflexivity.
  - eapply Forall2_impl; [|apply IH; exact Hrest].
    intros a b (H1 & H2' & H3 & H4 & H5).
    split; [exact H1|]. split; [exact H2'|]. split; [exact H3|].
    split; [exact H4|]. right. exact H5.
Qed.

Lemma nodup_app_disjoint {B} (l l' : list B) :
  NoDup (l ++ l') -> forall a, In a l -> ~ In a l'.
Proof.
  induction l as [|b l IH]; simpl; intros Hnd a Ha Ha'; [contradiction|].
  inversion Hnd as [|? ? Hnot Hrest]; subst. destruct Ha as [->|Ha].
  - apply Hnot. apply in_or_app. right. exact Ha'.
  - exact (IH Hrest a Ha Ha').
Qed.

(** ** One table: the loop over its batches *)

Section OneTable.

Context {A : Type} (t : table) (id_of : A -> value)
  (statement : A -> L insert_statement).
Hypothesis keyed : well_keyed t id_of statement.

Let save := save_rows t id_of statement.

Lemma batch_body_conn batch st :
  exists sts,
    Forall2 (built statement) batch sts
    /\ conn (snd (batch_body t save batch st))
       = commit (exec_list (conn st) sts).
Proof.
  destruct (save_rows_conn t id_of statement keyed batch
              (snd (emit (InfoLoaded t (List.length batch)) st)))
    as (sts & Hb & Hc).
  exists sts. split; [exact Hb|].
  unfold batch_body, L_bind. simpl. exact Hc.
Qed.

(** What a batch does to the target: it adds rows to its own table only,
    under ids of its own rows, and leaves the connection idle. *)
Lemma batch_effect batch st :
  tx (conn st) = Idle ->
  let e := snd (batch_body t save batch st) in
  tx (conn e) = Idle
  /\ (exists added,
        rows_of (committed (conn e)) t
        = rows_of (committed (conn st)) t ++ added
        /\ incl (ids added) (map id_of batch))
  /\ (forall t', t' <> t ->
        rows_of (committed (conn e)) t' = rows_of (committed (conn st)) t')
  /\ (exists answers,
        replies (conn e) = replies (conn st) ++ answers
        /\ List.length answers = List.length batch).
Proof.
  intros Hidle e. subst e.
  destruct (batch_body_conn batch st) as (sts & Hb & Hc). rewrite Hc.
  assert (Hlive : tx (conn st) <> Aborted) by (rewrite Hidle; discriminate).
  split; [apply commit_idle|].
  assert (Hanswers :
    exists answers,
      replies (commit (exec_list (conn st) sts)) = replies (conn st) ++ answers
      /\ List.length answers = List.length batch).
  { destruct (exec_list_replies sts (conn st)) as (answers & Ha & Hlen & _).
    exists answers. rewrite commit_replies. split; [exact Ha|].
    rewrite Hlen. symmetry. eapply Forall2_length. exact Hb. }
  destruct (aborted_dec (exec_list (conn st) sts)) as [Hab|Hl].
  - rewrite (failed_batch_commits_nothing _ _ Hab).
    repeat split; auto.
    exists []. rewrite app_nil_r. split; [reflexivity|]. intros v [].
  - rewrite commit_visible.
    destruct (live_batch_grows t sts (conn st) Hlive
                (built_left _ _ _ _ _ keyed Hb) Hl)
      as ((added & Hrows & Hincl) & Hother & _).
    rewrite (visible_idle _ Hidle) in *.
    repeat split; auto.
    exists added. split; [exact Hrows|].
    rewrite <- (built_ids _ _ _ _ _ keyed Hb). exact Hincl.
Qed.

Lemma batches_effect batches : forall st,
  tx (conn st) = Idle ->
  let e := snd (for_in batches (batch_body t save) st) in
  tx (conn e) = Idle
  /\ (exists added,
        rows_of (committed (conn e)) t
        = rows_of (committed (conn st)) t ++ added
        /\ incl (ids added) (map id_of (List.concat batches)))
  /\ (forall t', t' <> t ->
        rows_of (committed (conn e)) t' = rows_of (committed (conn st)) t')
  /\ (exists answers,
        replies (conn e) = replies (conn st) ++ answers
        /\ List.length answers = List.length (List.concat batches)).
Proof.
  induction batches as [|batch batches IH]; intros st Hidle.
  - simpl. repeat split; auto.
    + exists []. rewrite app_nil_r. split; [reflexivity|]. intros v [].
    + exists []. rewrite app_nil_r. split; reflexivity.
  - cbv zeta. rewrite for_in_cons.
    destruct (batch_effect batch st Hidle)
      as (Hidle1 & (added1 & Hrows1 & Hincl1) & Hother1 & (ans1 & Hans1 & Hlen1)).
    destruct (IH _ Hidle1)
      as (Hidle2 & (added2 & Hrows2 & Hincl2) & Hother2 & (ans2 & Hans2 & Hlen2)).
    split; [exact Hidle2|]. repeat split.
    + exists (added1 ++ added2). rewrite Hrows2, Hrows1, <- app_assoc.
      split; [reflexivity|].
      simpl. rewrite ids_app, map_app. intros v Hv.
      apply in_or_app. apply in_app_or in Hv. destruct Hv as [Hv|Hv]; auto.
    + intros t' Ht'. rewrite Hother2, Hother1 by assumption. reflexivity.
    + exists (ans1 ++ ans2). rewrite Hans2, Hans1, <- app_assoc.
      split; [reflexivity|].
      simpl. rewrite !length_app. congruence.
Qed.

(** *** The second run of a batch *)

Lemma batch_again batch st1 st2 extra :
  tx (conn st1) = Idle -> tx (conn st2) = Idle ->
  let e1 := snd (batch_body t save batch st1) in
  let e2 := snd (batch_body t save batch st2) in
  rows_of (committed (conn st2)) t = rows_of (committed (conn e1)) t ++ extra ->
  (forall v, In v (map id_of batch) -> ~ In v (ids extra)) ->
  (forall column parent, In (column, parent) (foreign_keys (schema t)) ->
     rows_of (committed (conn st1)) parent
     = rows_of (committed (conn st2)) parent) ->
  committed (conn e2) = committed (conn st2)
  /\ tx (conn e2) = Idle
  /\ (clean (conn e1) ->
      replies (conn e2)
      = replies (conn st2) ++ repeat Skipped (List.length batch)).
Proof.
  intros Hidle1 Hidle2 e1 e2. subst e1 e2.
  destruct (batch_body_conn batch st1) as (sts1 & Hb1 & Hc1).
  destruct (batch_body_conn batch st2) as (sts2 & Hb2 & Hc2).
  rewrite Hc1, Hc2. intros Hrows Hfresh Hparents.
  destruct (batch_replay t (map id_of batch) sts1 sts2 (conn st1) (conn st2)
              extra Hidle1 Hidle2
              (built_paired _ _ _ _ _ _ keyed Hb1 Hb2) Hrows Hfresh Hparents)
    as (Hsame & Hskips).
  split; [exact Hsame|]. split; [apply commit_idle|].
  intros Hclean.
  rewrite (Forall2_length Hb2). apply Hskips.
  apply clean_batch_is_live; [rewrite Hidle1; discriminate|exact Hclean].
Qed.

Lemma concat_ids_cons (batch : list A) batches :
  map id_of (List.concat (batch :: batches))
  = map id_of batch ++ map id_of (List.concat batches).
Proof. simpl. apply map_app. Qed.

(** The second run of a whole table: the target holds what the first run
    committed from the table, [extra] rows under other ids aside, and the
    tables it references are as the first run saw them. *)
Lemma batches_again batches : forall st1 st2 extra,
  tx (conn st1) = Idle -> tx (conn st2) = Idle ->
  NoDup (map id_of (List.concat batches)) ->
  let e1 := snd (for_in batches (batch_body t save) st1) in
  let e2 := snd (for_in batches (batch_body t save) st2) in
  rows_of (committed (conn st2)) t = rows_of (committed (conn e1)) t ++ extra ->
  (forall v, In v (map id_of (List.concat batches)) -> ~ In v (ids extra)) ->
  (forall column parent, In (column, parent) (foreign_keys (schema t)) ->
     rows_of (committed (conn st1)) parent
     = rows_of (committed (conn st2)) parent) ->
  committed (conn e2) = committed (conn st2)
  /\ tx (conn e2) = Idle
  /\ (clean (conn e1) ->
      replies (conn e2)
      = replies (conn st2)
        ++ repeat Skipped (List.length (List.concat batches))).
Proof.
  induction batches as [|batch batches IH];
    intros st1 st2 extra Hidle1 Hidle2 Hnodup e1 e2 Hrows Hfresh Hparents.
  - subst e1 e2. simpl. rewrite app_nil_r. auto.
  - subst e1 e2. rewrite !for_in_cons in *.
    rewrite concat_ids_cons in Hnodup, Hfresh.
    set (m1 := snd (batch_body t save batch st1)) in *.
    set (m2 := snd (batch_body t save batch st2)) in *.
    destruct (batch_effect batch st1 Hidle1)
      as (Hm1 & _ & Hother1 & (ans1 & Hans1 & _)). fold m1 in Hm1, Hother1, Hans1.
    destruct (batches_effect batches m1 Hm1)
      as (_ & (added & Hadded & Hincl) & _ & (ans & Hans & _)).
    (* the batch, against what the rest of the first run left behind *)
    destruct (batch_again batch st1 st2 (added ++ extra) Hidle1 Hidle2)
      as (Hsame & Hm2 & Hskips).
    { fold m1. rewrite Hrows, Hadded, <- app_assoc. reflexivity. }
    { intros v Hv Hin. rewrite ids_app in Hin. apply in_app_or in Hin.
      destruct Hin as [Hin|Hin].
      - apply Hincl in Hin.
        exact (nodup_app_disjoint _ _ Hnodup v Hv Hin).
      - apply (Hfresh v); [apply in_or_app; left; exact Hv|exact Hin]. }
    { exact Hparents. }
    fold m2 in Hsame, Hm2, Hskips.
    (* the remaining batches *)
    destruct (IH m1 m2 extra Hm1 Hm2) as (Hsame' & Hidle' & Hskips').
    { apply NoDup_app_remove_l in Hnodup. exact Hnodup. }
    { rewrite Hsame. exact Hrows. }
    { intros v Hv. apply Hfresh. apply in_or_app. right. exact Hv. }
    { intros column parent Hfk. rewrite Hsame.
      rewrite Hother1 by (eapply parent_is_another_table; eassumption).
      eapply Hparents; eassumption. }
    split; [congruence|]. split; [exact Hidle'|].
    intros Hclean. rewrite Hskips' by exact Hclean.
    rewrite Hskips.
    + rewrite <- app_assoc, <- repeat_app. simpl List.concat.
      rewrite length_app. reflexivity.
    + eapply clean_prefix; [exact Hans|exact Hclean].
Qed.

(** *** The whole table, read in batches of 1000 *)

Lemma migrate_table_batches (fuel : nat) (rows : list A) :
  (List.length rows <= fuel)%nat ->
  exists batches,
    List.concat batches = rows
    /\ forall st,
        migrate_table t fuel rows save st
        = Some (snd (for_in batches (batch_body t save)
                       (snd (emit (InfoTableContains t
                                       (Z.of_nat (List.length rows))) st)))).
Proof.
  intros Hfuel.
  destruct (load_data_whole_table rows 1000 fuel) as (batches & Hload & Hcat);
    [lia|exact Hfuel|].
  exists batches. split; [exact Hcat|]. intros st.
  unfold migrate_table. rewrite Hload. unfold L_bind at 1. reflexivity.
Qed.

Lemma table_effect (fuel : nat) (rows : list A) st :
  (List.length rows <= fuel)%nat ->
  tx (conn st) = Idle ->
  exists e,
    migrate_table t fuel rows save st = Some e
    /\ tx (conn e) = Idle
    /\ (exists added,
          rows_of (committed (conn e)) t
          = rows_of (committed (conn st)) t ++ added
          /\ incl (ids added) (map id_of rows))
    /\ (forall t', t' <> t ->
          rows_of (committed (conn e)) t' = rows_of (committed (conn st)) t')
    /\ (exists answers,
          replies (conn e) = replies (conn st) ++ answers
          /\ List.length answers = List.length rows).
Proof.
  intros Hfuel Hidle.
  destruct (migrate_table_batches fuel rows Hfuel) as (batches & Hcat & Hrun).
  eexists. split; [apply Hrun|].
  pose proof (batches_effect batches
                (snd (emit (InfoTableContains t
                                (Z.of_nat (List.length rows))) st)) Hidle)
    as Heffect.
  cbv zeta in Heffect. rewrite Hcat in Heffect. exact Heffect.
Qed.

Lemma table_again (fuel : nat) (rows : list A) st1 st2 e1 extra :
  (List.length rows <= fuel)%nat ->
  tx (conn st1) = Idle -> tx (conn st2) = Idle ->
  NoDup (map id_of rows) ->
  migrate_table t fuel rows save st1 = Some e1 ->
  rows_of (committed (conn st2)) t = rows_of (committed (conn e1)) t ++ extra ->
  (forall v, In v (map id_of rows) -> ~ In v (ids extra)) ->
  (forall column parent, In (column, parent) (foreign_keys (schema t)) ->
     rows_of (committed (conn st1)) parent
     = rows_of (committed (conn st2)) parent) ->
  exists e2,
    migrate_table t fuel rows save st2 = Some e2
    /\ committed (conn e2) = committed (conn st2)
    /\ tx (conn e2) = Idle
    /\ (clean (conn e1) ->
        replies (conn e2)
        = replies (conn st2) ++ repeat Skipped (List.length rows)).
Proof.
  intros Hfuel Hidle1 Hidle2 Hnodup Hrun1 Hrows Hfresh Hparents.
  destruct (migrate_table_batches fuel rows Hfuel) as (batches & Hcat & Hrun).
  assert (He1 :
    e1 = snd (for_in batches (batch_body t save)
                (snd (emit (InfoTableContains t
                                (Z.of_nat (List.length rows))) st1))))
    by (rewrite Hrun in Hrun1; congruence).
  subst e1. clear Hrun1.
  eexists. split; [apply Hrun|].
  rewrite <- Hcat in Hnodup.
  pose proof (batches_again batches
                (snd (emit (InfoTableContains t
                                (Z.of_nat (List.length rows))) st1))
                (snd (emit (InfoTableContains t
                                (Z.of_nat (List.length rows))) st2))
                extra Hidle1 Hidle2 Hnodup) as Hagain.
  cbv zeta in Hagain. rewrite Hcat in Hagain.
  apply Hagain; assumption.
Qed.

End OneTable.

(** ** The whole run *)

Lemma load_from_sqlite_terminates src st :
  exists e, load_from_sqlite src st = Some e.
Proof.
  unfold load_from_sqlite, load_from_sqlite_fuel, total_rows.
  set (fuel := (_ + _)%nat).
  destruct (migrate_table_batches person p_id person_statement fuel
              (src_person src)) as (b1 & _ & H1); [subst fuel; lia|].
  destruct (migrate_table_batches genre g_id genre_statement fuel
              (src_genre src)) as (b2 & _ & H2); [subst fuel; lia|].
  destruct (migrate_table_batches film_work fw_id film_work_statement fuel
              (src_film_work src)) as (b3 & _ & H3); [subst fuel; lia|].
  destruct (migrate_table_batches person_film_work pfw_id
              person_film_work_statement fuel (src_person_film_work src))
    as (b4 & _ & H4); [subst fuel; lia|].
  destruct (migrate_table_batches genre_film_work gfw_id
              genre_film_work_statement fuel (src_genre_film_work src))
    as (b5 & _ & H5); [subst fuel; lia|].
  unfold save_persons, save_genres, save_film_works, save_person_film_work,
    save_genre_film_work.
  rewrite H1. simpl obind. rewrite H2. simpl obind. rewrite H3. simpl obind.
  rewrite H4. simpl obind. rewrite H5. eexists. reflexivity.
Qed.

Ltac parent_cases Hfk :=
  simpl in Hfk;
  repeat (destruct Hfk as [Hfk|Hfk]; [inversion Hfk; subst; clear Hfk|]);
  try contradiction.

(** A second run against the target the first run left: nothing is
    committed, and if the first run met no error every statement is
    answered by the conflict clause. *)
Lemma second_run_changes_nothing_fuel fuel src st1 e1 st2 :
  (List.length (src_person src) <= fuel)%nat ->
  (List.length (src_genre src) <= fuel)%nat ->
  (List.length (src_film_work src) <= fuel)%nat ->
  (List.length (src_person_film_work src) <= fuel)%nat ->
  (List.length (src_genre_film_work src) <= fuel)%nat ->
  unique_ids src ->
  tx (conn st1) = Idle ->
  load_from_sqlite_fuel fuel src st1 = Some e1 ->
  tx (conn st2) = Idle ->
  committed (conn st2) = committed (conn e1) ->
  exists e2,
    load_from_sqlite_fuel fuel src st2 = Some e2
    /\ committed (conn e2) = committed (conn e1)
    /\ (clean (conn e1) ->
        replies (conn e2)
        = replies (conn st2)
          ++ repeat Skipped
               (List.length (src_person src) + List.length (src_genre src)
                + List.length (src_film_work src)
                + List.length (src_person_film_work src)
                + List.length (src_genre_film_work src))).
Proof.
  intros F1 F2 F3 F4 F5 (N1 & N2 & N3 & N4 & N5) Hidle1 Hrun1 Hidle2 Hsame.
  unfold load_from_sqlite_fuel, save_persons, save_genres, save_film_works,
    save_person_film_work, save_genre_film_work in *.
  (* the first run, table by table *)
  destruct (table_effect person p_id person_statement
              person_statement_well_keyed fuel (src_person src) st1 F1 Hidle1)
    as (p1 & R1 & I1 & _ & O1 & (a1 & A1 & _)).
  rewrite R1 in Hrun1. simpl obind in Hrun1.
  destruct (table_effect genre g_id genre_statement
              genre_statement_well_keyed fuel (src_genre src) p1 F2 I1)
    as (p2 & R2 & I2 & _ & O2 & (a2 & A2 & _)).
  rewrite R2 in Hrun1. simpl obind in Hrun1.
  destruct (table_effect film_work fw_id film_work_statement
              film_work_statement_well_keyed fuel (src_film_work src) p2 F3 I2)
    as (p3 & R3 & I3 & _ & O3 & (a3 & A3 & _)).
  rewrite R3 in Hrun1. simpl obind in Hrun1.
  destruct (table_effect person_film_work pfw_id person_film_work_statement
              person_film_work_statement_well_keyed fuel
              (src_person_film_work src) p3 F4 I3)
    as (p4 & R4 & I4 & _ & O4 & (a4 & A4 & _)).
  rewrite R4 in Hrun1. simpl obind in Hrun1.
  assert (R5 := Hrun1).
  destruct (table_effect genre_film_work gfw_id genre_film_work_statement
              genre_film_work_statement_well_keyed fuel
              (src_genre_film_work src) p4 F5 I4)
    as (p5 & R5' & _ & _ & O5 & (a5 & A5 & _)).
  assert (p5 = e1) by congruence. subst p5. clear R5' Hrun1.
  (* the second run *)
  destruct (table_again person p_id person_statement
              person_statement_well_keyed fuel (src_person src)
              st1 st2 p1 [] F1 Hidle1 Hidle2 N1 R1)
    as (q1 & S1 & C1 & J1 & K1).
  { rewrite app_nil_r, Hsame, O5, O4, O3, O2 by discriminate. reflexivity. }
  { intros v _ []. }
  { intros column parent Hfk. parent_cases Hfk. }
  rewrite S1. simpl obind.
  destruct (table_again genre g_id genre_statement
              genre_statement_well_keyed fuel (src_genre src)
              p1 q1 p2 [] F2 I1 J1 N2 R2)
    as (q2 & S2 & C2 & J2 & K2).
  { rewrite app_nil_r, C1, Hsame, O5, O4, O3 by discriminate. reflexivity. }
  { intros v _ []. }
  { intros column parent Hfk. parent_cases Hfk. }
  rewrite S2. simpl obind.
  destruct (table_again film_work fw_id film_work_statement
              film_work_statement_well_keyed fuel (src_film_work src)
              p2 q2 p3 [] F3 I2 J2 N3 R3)
    as (q3 & S3 & C3 & J3 & K3).
  { rewrite app_nil_r, C2, C1, Hsame, O5, O4 by discriminate. reflexivity. }
  { intros v _ []. }
  { intros column parent Hfk. parent_cases Hfk. }
  rewrite S3. simpl obind.
  destruct (table_again person_film_work pfw_id person_film_work_statement
              person_film_work_statement_well_keyed fuel
              (src_person_film_work src) p3 q3 p4 [] F4 I3 J3 N4 R4)
    as (q4 & S4 & C4 & J4 & K4).
  { rewrite app_nil_r, C3, C2, C1, Hsame, O5 by discriminate. reflexivity. }
  { intros v _ []. }
  { intros column parent Hfk. parent_cases Hfk;
      rewrite C3, C2, C1, Hsame, O5, O4 by discriminate; reflexivity. }
  rewrite S4. simpl obind.
  destruct (table_again genre_film_work gfw_id genre_film_work_statement
              genre_film_work_statement_well_keyed fuel
              (src_genre_film_work src) p4 q4 e1 [] F5 I4 J4 N5 R5)
    as (q5 & S5 & C5 & J5 & K5).
  { rewrite app_nil_r, C4, C3, C2, C1, Hsame. reflexivity. }
  { intros v _ []. }
  { intros column parent Hfk. parent_cases Hfk;
      rewrite C4, C3, C2, C1, Hsame, O5 by discriminate; reflexivity. }
  exists q5. split; [exact S5|]. split; [congruence|].
  intros Hclean.
  assert (Hc4 : clean (conn p4)) by (eapply clean_prefix; eassumption).
  assert (Hc3 : clean (conn p3)) by (eapply clean_prefix; eassumption).
  assert (Hc2 : clean (conn p2)) by (eapply clean_prefix; eassumption).
  assert (Hc1 : clean (conn p1)) by (eapply clean_prefix; eassumption).
  rewrite (K5 Hclean), (K4 Hc4), (K3 Hc3), (K2 Hc2), (K1 Hc1).
  rewrite <- !app_assoc, <- !repeat_app. do 2 f_equal. lia.
Qed.

(** *** The claims about the writer and the run *)

(** C5 (amended).  For a source whose ids are unique within each table,
    a second run against the target the first run produced ends and leaves
    the target content identical, migrate(migrate(T)) = migrate(T): it
    commits no row in any table.  When the first run met no row error, the
    second run answers every row of the source by the conflict skip. *)
Theorem migration_is_idempotent src clock1 clock2 target :
  unique_ids src ->
  exists st1 st2,
    load_from_sqlite src (start target clock1) = Some st1
    /\ load_from_sqlite src (start (committed (conn st1)) clock2) = Some st2
    /\ committed (conn st2) = committed (conn st1)
    /\ (clean (conn st1) ->
        replies (conn st2) = repeat Skipped (total_rows src)).
Proof.
  intros Hunique.
  destruct (load_from_sqlite_terminates src (start target clock1)) as (st1 & H1).
  exists st1.
  destruct (second_run_changes_nothing_fuel (total_rows src) src
              (start target clock1) st1 (start (committed (conn st1)) clock2))
    as (st2 & H2 & Hsame & Hskips); auto;
    try (unfold total_rows; lia).
  exists st2. repeat split; auto.
Qed.

(** The theorem on the end-to-end scenario, from an empty target. *)
Lemma migration_is_idempotent_witness :
  exists st1 st2,
    load_from_sqlite scenario_source (start empty_database seconds_clock)
    = Some st1
    /\ load_from_sqlite scenario_source
         (start (committed (conn st1)) seconds_clock) = Some st2
    /\ committed (conn st2) = committed (conn st1)
    /\ replies (conn st2) = repeat Skipped 3.
Proof.
  destruct (migration_is_idempotent scenario_source seconds_clock seconds_clock
              empty_database) as (st1 & st2 & H1 & H2 & Hsame & Hskips).
  - unfold unique_ids; simpl.
    repeat split; repeat (constructor; [intros []|]); constructor.
  - exists st1, st2. repeat split; auto. apply Hskips.
    assert (Hreplies : replies (conn st1) = [Inserted; Inserted; Inserted]).
    { vm_compute in H1. injection H1 as <-. reflexivity. }
    intros e Hin. rewrite Hreplies in Hin.
    repeat (destruct Hin as [Hin|Hin]; [discriminate Hin|]). exact Hin.
Defined.

(** The scenario, run: the second run inserts nothing and skips the three
    rows. *)
Example scenario_second_run :
  option_map (fun st => replies (conn st))
    (obind (load_from_sqlite scenario_source
              (start empty_database seconds_clock))
       (fun st1 => load_from_sqlite scenario_source
                     (start (committed (conn st1)) seconds_clock)))
  = Some [Skipped; Skipped; Skipped].
Proof. vm_compute. reflexivity. Qed.

(** C5, the claim as stated fails: with a link row whose film work is
    missing, the second run leaves the target as it was, but its rows are
    not all skipped by the conflict clause: the good link row of the failed
    batch is inserted again and rolled back again, the bad one is refused
    again. *)
Lemma second_run_fails_again :
  unique_ids dangling_source
  /\ exists st1 st2,
      load_from_sqlite dangling_source (start empty_database seconds_clock)
      = Some st1
      /\ load_from_sqlite dangling_source
           (start (committed (conn st1)) seconds_clock) = Some st2
      /\ committed (conn st2) = committed (conn st1)
      /\ replies (conn st2)
         = [Skipped; Skipped; Inserted;
            Failed (ForeignKeyViolation "film_work_id")]
      /\ replies (conn st2) <> repeat Skipped (total_rows dangling_source).
Proof.
  split.
  - unfold unique_ids; simpl.
    repeat split; repeat (constructor; [simpl; intuition discriminate|]);
      constructor.
  - eexists. eexists. split; [vm_compute; reflexivity|].
    split; [vm_compute; reflexivity|].
    vm_compute. repeat split. discriminate.
Qed.

(** C1 (amended).  For every table, base or link, the conflict target of
    the insert is the primary id: as long as the batch's transaction has
    not failed, a row whose id is already in the target is skipped
    silently, whatever its other columns hold; nothing is logged and no
    table changes. *)
Theorem conflict_target_is_primary_id :
  (forall row st, on_conflict (fst (person_statement row st)) = ["id"])
  /\ (forall row st, on_conflict (fst (genre_statement row st)) = ["id"])
  /\ (forall row st, on_conflict (fst (film_work_statement row st)) = ["id"])
  /\ (forall row st,
        on_conflict (fst (person_film_work_statement row st)) = ["id"])
  /\ (forall row st,
        on_conflict (fst (genre_film_work_statement row st)) = ["id"])
  /\ (forall t id stmt st,
        tx (conn st) <> Aborted ->
        on_conflict stmt = ["id"] ->
        statement_id stmt <> PyNone ->
        In (statement_id stmt) (ids (rows_of (visible (conn st)) (into stmt))) ->
        try_execute t id stmt st
        = (tt, mkState
                 (mkConnection (committed (conn st))
                    (InTransaction (visible (conn st)))
                    (replies (conn st) ++ [Skipped]))
                 (clock st) (ticks st) (log st))).
Proof.
  split; [apply (wk_target _ _ _ person_statement_well_keyed)|].
  split; [apply (wk_target _ _ _ genre_statement_well_keyed)|].
  split; [apply (wk_target _ _ _ film_work_statement_well_keyed)|].
  split; [apply (wk_target _ _ _ person_film_work_statement_well_keyed)|].
  split; [apply (wk_target _ _ _ genre_film_work_statement_well_keyed)|].
  intros t id stmt st Hlive Htarget Hnn Hin.
  unfold try_execute, L_bind, cursor_execute.
  rewrite (stored_id_is_skipped _ _ Hlive Htarget Hnn Hin). reflexivity.
Qed.

(** The theorem on a link whose id is stored and whose role and film work
    are not those of the stored row. *)
Lemma conflict_target_is_primary_id_witness :
  let stmt :=
    insert_person_film_work (PyStr "L0") (PyStr "director") PyNone
      (PyStr "F3") (PyStr "P1") in
  let st := start linked_target seconds_clock in
  try_execute person_film_work (PyStr "L0") stmt st
  = (tt, mkState
           (mkConnection linked_target (InTransaction linked_target) [Skipped])
           seconds_clock 0 []).
Proof.
  apply (proj2 (proj2 (proj2 (proj2 (proj2 conflict_target_is_primary_id))))
           person_film_work (PyStr "L0")
           (insert_person_film_work (PyStr "L0") (PyStr "director") PyNone
              (PyStr "F3") (PyStr "P1"))
           (start linked_target seconds_clock)).
  - discriminate.
  - reflexivity.
  - discriminate.
  - vm_compute. left. reflexivity.
Defined.

(** C1, the claim as stated fails: a link row that repeats a stored
    composite key under a new id is sent with conflict target (id); the
    conflict clause does not fire, the server refuses the row with a
    unique violation and the writer logs a warning. *)
Lemma composite_duplicate_is_not_skipped :
  let link :=
    mkPersonFilmWork (PyStr "L9") (PyStr "actor") PyNone (PyStr "F1")
      (PyStr "P1") in
  let genre_link :=
    mkGenreFilmWork (PyStr "K9") PyNone (PyStr "F1") (PyStr "G1") in
  let st := start linked_target seconds_clock in
  on_conflict (fst (person_film_work_statement link st))
  <> ["film_work_id"; "person_id"; "role"]
  /\ replies (conn (snd (save_person_film_work [link] st)))
     = [Failed (UniqueViolation ["film_work_id"; "person_id"; "role"])]
  /\ log (snd (save_person_film_work [link] st))
     = [WarningInsertError person_film_work (PyStr "L9")
          (UniqueViolation ["film_work_id"; "person_id"; "role"])]
  /\ on_conflict (fst (genre_film_work_statement genre_link st))
     <> ["genre_id"; "film_work_id"]
  /\ replies (conn (snd (save_genre_film_work [genre_link] st)))
     = [Failed (UniqueViolation ["genre_id"; "film_work_id"])]
  /\ log (snd (save_genre_film_work [genre_link] st))
     = [WarningInsertError genre_film_work (PyStr "K9")
          (UniqueViolation ["genre_id"; "film_work_id"])].
Proof. vm_compute. repeat split; discriminate. Qed.

(** C2, the code at the failing input: the second row's foreign-key error
    leaves the transaction failed, the third row is refused for that
    reason, and the commit rolls back, so none of the three rows reaches
    the target.  The run does go on to [genre_film_work], whose row is
    committed. *)
Theorem foreign_key_error_loses_the_batch :
  (let st := snd (save_person_film_work three_links
                    (start parents_target seconds_clock)) in
   committed (conn st) = parents_target
   /\ tx (conn st) = Idle
   /\ replies (conn st)
      = [Inserted; Failed (ForeignKeyViolation "film_work_id");
         Failed InFailedSqlTransaction]
   /\ log st
      = [WarningInsertError person_film_work (PyStr "L2")
           (ForeignKeyViolation "film_work_id");
         WarningInsertError person_film_work (PyStr "L3")
           InFailedSqlTransaction])
  /\ (exists st,
        load_from_sqlite three_links_source
          (start empty_database seconds_clock) = Some st
        /\ person_film_work_rows (committed (conn st)) = []
        /\ ids (genre_film_work_rows (committed (conn st))) = [PyStr "K1"]).
Proof.
  split.
  - vm_compute. repeat split.
  - eexists. split; [vm_compute; reflexivity|]. vm_compute. split; reflexivity.
Qed.

(** The defect behind C2, for every writer and every batch: as soon as
    the server refuses one statement of a batch, the commit at its end
    keeps no row of that batch. *)
Lemma failing_row_loses_the_batch {A} t id_of
  (statement : A -> L insert_statement) batch st err new_answers :
  well_keyed t id_of statement ->
  replies (conn (snd (save_rows t id_of statement batch st)))
  = replies (conn st) ++ new_answers ->
  In (Failed err) new_answers ->
  committed (conn (snd (save_rows t id_of statement batch st)))
  = committed (conn st).
Proof.
  intros Hwk Hreplies Hin.
  destruct (save_rows_conn t id_of statement Hwk batch st) as (sts & _ & Hc).
  rewrite Hc in *. rewrite commit_replies, replies_answers in Hreplies.
  apply app_inv_head in Hreplies. subst new_answers.
  apply failed_batch_commits_nothing.
  eapply failed_answer_aborts. exact Hin.
Qed.

(** *** Defaults *)

(** A NULL rating is written as 0.0, any other rating as it is. *)
Lemma rating_default row st :
  field (new_row (fst (film_work_statement row st))) "rating"
  = if is_none (fw_rating row) then PyFloat float_zero else fw_rating row.
Proof.
  unfold film_work_statement, L_bind, L_ret, or_now, now.
  case_defaults; reflexivity.
Qed.

(** A NULL [created] or [modified] of a base table is written as a reading
    of the clock taken for that row and that column. *)
Lemma null_timestamps_are_now row st :
  p_created row = PyNone -> p_modified row = PyNone ->
  person_statement row st
  = (insert_person (p_id row) (p_full_name row)
       (PyDatetime (clock st (ticks st)))
       (PyDatetime (clock st (S (ticks st)))),
     mkState (conn st) (clock st) (S (S (ticks st))) (log st)).
Proof.
  intros Hc Hm. unfold person_statement, L_bind, L_ret, or_now.
  rewrite Hc, Hm. reflexivity.
Qed.

(** A truthy [created] and [modified] are written as they are and the
    clock is not read. *)
Lemma truthy_timestamps_are_kept row st :
  truthy (p_created row) = true -> truthy (p_modified row) = true ->
  person_statement row st
  = (insert_person (p_id row) (p_full_name row) (p_created row)
       (p_modified row), st).
Proof.
  intros Hc Hm. unfold person_statement, L_bind, L_ret, or_now.
  rewrite Hc, Hm. reflexivity.
Qed.

(** The clock is read row by row: two persons without timestamps in one
    batch are stamped with four different readings. *)
Example timestamps_are_per_row :
  let batch := [mkPerson (PyStr "P1") (PyStr "Ann") PyNone PyNone;
                mkPerson (PyStr "P2") (PyStr "Bob") PyNone PyNone] in
  let st := snd (save_persons batch (start empty_database seconds_clock)) in
  map (fun r => (field r "created", field r "modified"))
    (person_rows (committed (conn st)))
  = [(PyDatetime (seconds_clock 0), PyDatetime (seconds_clock 1));
     (PyDatetime (seconds_clock 2), PyDatetime (seconds_clock 3))].
Proof. vm_compute. reflexivity. Qed.

(** C7, the code at the failing input: a base-table row whose [created]
    is the empty string and whose [modified] is the integer 0, both
    non-null, is not written unchanged; the three base-table writers replace
    any falsy timestamp by the clock, while the two link-table writers,
    which test for [None], pass the same value on. *)
Theorem falsy_timestamp_is_replaced_by_now (st : state) :
  let person := mkPerson (PyStr "P1") (PyStr "Ann") (PyStr "") (PyInt 0) in
  let genre := mkGenre (PyStr "G1") (PyStr "Drama") PyNone (PyStr "") (PyInt 0) in
  let film :=
    mkFilmWork (PyStr "F1") (PyStr "Film") PyNone PyNone PyNone PyNone
      (PyStr "movie") (PyStr "") (PyInt 0) in
  let link :=
    mkPersonFilmWork (PyStr "L1") (PyStr "actor") (PyStr "") (PyStr "F1")
      (PyStr "P1") in
  let genre_link :=
    mkGenreFilmWork (PyStr "K1") (PyStr "") (PyStr "F1") (PyStr "G1") in
  let written (stmt : insert_statement) (column : string) :=
    field (new_row stmt) column in
  let first_reading := PyDatetime (clock st (ticks st)) in
  let second_reading := PyDatetime (clock st (S (ticks st))) in
  written (fst (person_statement person st)) "created" = first_reading
  /\ written (fst (person_statement person st)) "modified" = second_reading
  /\ written (fst (genre_statement genre st)) "created" = first_reading
  /\ written (fst (genre_statement genre st)) "modified" = second_reading
  /\ written (fst (film_work_statement film st)) "created" = first_reading
  /\ written (fst (film_work_statement film st)) "modified" = second_reading
  /\ written (fst (person_film_work_statement link st)) "created" = PyStr ""
  /\ written (fst (genre_film_work_statement genre_link st)) "created"
     = PyStr "".
Proof. cbv zeta. repeat split. Qed.

(** *** Why C5 asks for unique ids *)

(** With an id that occurs twice in a source table the second run can
    commit rows: here the first run leaves one genre and the second run
    a thousand. *)
Remark repeated_id_breaks_idempotence :
  option_map (fun st => List.length (genre_rows (committed (conn st))))
    (load_from_sqlite repeated_id_source (start empty_database seconds_clock))
  = Some 1%nat
  /\ option_map (fun st => List.length (genre_rows (committed (conn st))))
       (obind (load_from_sqlite repeated_id_source
                 (start empty_database seconds_clock))
          (fun st1 => load_from_sqlite repeated_id_source
                        (start (committed (conn st1)) seconds_clock)))
     = Some 1000%nat.
Proof. split; vm_compute; reflexivity. Qed.

End WriterFacts.

(** * Further facts about the checker *)

Module CheckerMore.
Import Py Checker CheckerProps CheckerScenarios CheckerNotions CheckerFacts.
Local Open Scope checker_scope.

(** ** A table that passes *)

Lemma columns_loop_inv sqlite_row pg_row columns log r log' :
  for_each columns (fun c => lift (compare_column sqlite_row pg_row c)) log
  = (r, log') ->
  log' = log /\ (r = Ok tt -> columns_pass sqlite_row pg_row columns).
Proof.
  revert log. induction columns as [|c cs IH]; intros log; simpl.
  - unfold ret. intros H; inversion H; subst. split; [reflexivity|].
    intros _. constructor.
  - unfold bind, lift.
    destruct (compare_column sqlite_row pg_row c) as [[]|e] eqn:Hc.
    + intros H. destruct (IH _ H) as [Hlog Hpass]. split; [exact Hlog|].
      intros Hr. constructor; [exact Hc|exact (Hpass Hr)].
    + intros H; inversion H; subst. split; [reflexivity|discriminate].
Qed.

Lemma content_loop_inv sqlite_rows : forall pg_rows log r log',
  List.length sqlite_rows = List.length pg_rows ->
  content_loop (combine sqlite_rows pg_rows) log = (r, log') ->
  log' = log /\ (r = Ok tt -> rows_pass sqlite_rows pg_rows).
Proof.
  unfold content_loop.
  induction sqlite_rows as [|s ss IH]; intros [|p ps] log r log' Hlen;
    simpl in Hlen; try discriminate; simpl.
  - unfold ret. intros H; inversion H; subst. split; [reflexivity|].
    intros _. constructor.
  - unfold bind at 1.
    destruct (for_each (keys s) _ log) as [[[]|e] log1] eqn:Hrow;
      apply columns_loop_inv in Hrow; destruct Hrow as [-> Hcols].
    + intros H. destruct (IH ps log r log') as [Hlog Hpass];
        [congruence|exact H|].
      split; [exact Hlog|]. intros Hr.
      constructor; [apply Hcols; reflexivity|exact (Hpass Hr)].
    + intros H; inversion H; subst. split; [reflexivity|discriminate].
Qed.

Lemma try_body_unfold sqlite_conn pg_conn table log :
  try_body sqlite_conn pg_conn table log
  = try_body_result sqlite_conn pg_conn table log.
Proof.
  unfold try_body, try_body_result, compare_table_count, compare_table_data,
    execute_count, execute_select_order_by_id, content_loop.
  destruct (sqlite_conn table) as [rows|] eqn:Hs; [|reflexivity].
  destruct (pg_conn table) as [pg_rows|] eqn:Hp; [|reflexivity].
  unfold bind, ret, raise, logger, py_assert. simpl.
  destruct (Nat.eqb (List.length rows) (List.length pg_rows)) eqn:Hn; simpl;
    [|reflexivity].
  rewrite <- !app_assoc. simpl.
  destruct (for_each (combine rows pg_rows) _ _) as [[u|e] log'];
    [|reflexivity].
  rewrite <- app_assoc. reflexivity.
Qed.

Lemma try_body_passes sqlite_conn pg_conn table rows pg_rows log :
  sqlite_conn table = Some rows ->
  pg_conn table = Some pg_rows ->
  rows_pass rows pg_rows ->
  try_body sqlite_conn pg_conn table log
  = (Ok tt,
     log ++ [InfoCounts table (List.length rows) (List.length rows);
             InfoCountMatches table; InfoCheckingContent table;
             InfoContentMatches table; InfoTablePassed table]).
Proof.
  intros Hs Hp Hpass. rewrite try_body_unfold. unfold try_body_result.
  rewrite Hs, Hp. pose proof (rows_pass_length _ _ Hpass) as Hlen.
  rewrite <- Hlen, Nat.eqb_refl, content_loop_pass by exact Hpass.
  rewrite <- app_assoc. reflexivity.
Qed.

Lemma try_body_ok_inv sqlite_conn pg_conn table log log' :
  try_body sqlite_conn pg_conn table log = (Ok tt, log') ->
  exists rows pg_rows,
    sqlite_conn table = Some rows /\ pg_conn table = Some pg_rows
    /\ rows_pass rows pg_rows.
Proof.
  rewrite try_body_unfold. unfold try_body_result.
  destruct (sqlite_conn table) as [rows|]; [|discriminate].
  destruct (pg_conn table) as [pg_rows|]; [|discriminate].
  destruct (Nat.eqb (List.length rows) (List.length pg_rows)) eqn:Hn;
    [|discriminate].
  apply Nat.eqb_eq in Hn.
  destruct (content_loop _ _) as [[[]|e] log1] eqn:Hloop; [|discriminate].
  intros _. exists rows, pg_rows. repeat split.
  apply (content_loop_inv _ _ _ _ _ Hn) in Hloop. apply Hloop. reflexivity.
Qed.

(** X1.  The check of a table ends with the "passed" line exactly when both
    stores hold the table, with the same number of rows, and every pair of
    rows in [id] order passes on every column of the source row.  The
    report then grows by the six lines of a passing table and by nothing
    else. *)
Theorem table_passes_iff sqlite_conn pg_conn table n log :
  check_table sqlite_conn pg_conn table log
  = (Ok tt, log ++ pass_report table n)
  <-> exists rows pg_rows,
        sqlite_conn table = Some rows /\ pg_conn table = Some pg_rows
        /\ List.length rows = n /\ rows_pass rows pg_rows.
Proof.
  rewrite check_table_unfold. split.
  - destruct (try_body _ _ _ _) as [[[]|e] log'] eqn:Hbody.
    + intros Hlog. destruct (try_body_ok_inv _ _ _ _ _ Hbody)
        as (rows & pg_rows & Hs & Hp & Hpass).
      exists rows, pg_rows. repeat split; try assumption.
      rewrite (try_body_passes _ _ _ _ _ _ Hs Hp Hpass) in Hbody.
      inversion Hbody; subst log'. inversion Hlog as [Heq].
      rewrite <- app_assoc in Heq. apply app_inv_head in Heq.
      inversion Heq. reflexivity.
    + destruct e; try discriminate.
      rewrite try_body_unfold in Hbody. unfold try_body_result in Hbody.
      destruct (sqlite_conn table) as [rows|]; [|discriminate].
      destruct (pg_conn table) as [pg_rows|]; [|discriminate].
      destruct (Nat.eqb _ _) eqn:Hn.
      * apply Nat.eqb_eq in Hn.
        destruct (content_loop _ _) as [[[]|e] log1] eqn:Hloop;
          [discriminate|].
        apply (content_loop_inv _ _ _ _ _ Hn) in Hloop.
        destruct Hloop as [-> _]. inversion Hbody; subst.
        intros Hlog; inversion Hlog as [Heq].
        rewrite <- !app_assoc in Heq. apply app_inv_head in Heq.
        discriminate.
      * inversion Hbody; subst. intros Hlog; inversion Hlog as [Heq].
        rewrite <- !app_assoc in Heq. apply app_inv_head in Heq.
        discriminate.
  - intros (rows & pg_rows & Hs & Hp & Hlen & Hpass).
    rewrite (try_body_passes _ _ _ _ _ _ Hs Hp Hpass), <- app_assoc, Hlen.
    reflexivity.
Qed.

Lemma table_passes_iff_witness :
  check_table (person_only [ann_sqlite]) (person_only [ann_pg]) "person" []
  = (Ok tt, pass_report "person" 1).
Proof.
  apply (proj2 (table_passes_iff (person_only [ann_sqlite])
                  (person_only [ann_pg]) "person" 1%nat [])).
  exists [ann_sqlite], [ann_pg].
  repeat split; repeat constructor.
Defined.

(** ** The shape of the report *)

Lemma checked_tables_app a b :
  checked_tables (a ++ b) = checked_tables a ++ checked_tables b.
Proof. apply flat_map_app. Qed.

Lemma checked_tables_details added :
  forallb is_table_detail added = true -> checked_tables added = [].
Proof.
  induction added as [|r added IH]; simpl; [reflexivity|].
  intros H. apply andb_prop in H. destruct H as [Hr Hrest].
  destruct r; try discriminate; simpl; auto.
Qed.

Lemma details_hold_no_completion added :
  forallb is_table_detail added = true -> ~ In InfoTestingCompleted added.
Proof.
  intros H Hin. rewrite forallb_forall in H. apply H in Hin. discriminate.
Qed.

Ltac shape_done :=
  simpl;
  split; [reflexivity|
  split; [reflexivity|
  split; [simpl; lia|intros ?; discriminate]]].

(** One pass of the driver's loop body: the line that opens the table,
    then lines about that table only, among them at most one error; an
    assertion failure does not come out of it. *)
Lemma check_table_shape sqlite_conn pg_conn table log :
  exists added,
    snd (check_table sqlite_conn pg_conn table log)
    = log ++ InfoCheckingTable table :: added
    /\ forallb is_table_detail added = true
    /\ (List.length (filter is_error added) <= 1)%nat
    /\ forall m,
         fst (check_table sqlite_conn pg_conn table log)
         <> Raise (AssertionError m).
Proof.
  rewrite check_table_unfold, try_body_unfold. unfold try_body_result.
  destruct (sqlite_conn table) as [rows|].
  2:{ exists []. shape_done. }
  destruct (pg_conn table) as [pg_rows|].
  2:{ exists []. shape_done. }
  destruct (Nat.eqb _ _) eqn:Hn.
  - apply Nat.eqb_eq in Hn.
    destruct (content_loop _ _) as [[u|e] log1] eqn:Hloop;
      apply (content_loop_inv _ _ _ _ _ Hn) in Hloop; destruct Hloop as [-> _].
    + eexists. simpl. rewrite <- !app_assoc. shape_done.
    + destruct e; simpl; rewrite <- ?app_assoc; eexists; shape_done.
  - eexists. simpl. rewrite <- !app_assoc. shape_done.
Qed.

Lemma tables_loop_shape sqlite_conn pg_conn ts : forall log,
  exists added,
    snd (for_each ts (check_table sqlite_conn pg_conn) log) = log ++ added
    /\ ~ In InfoTestingCompleted added
    /\ (List.length (filter is_error added)
        <= List.length (checked_tables added))%nat
    /\ match fst (for_each ts (check_table sqlite_conn pg_conn) log) with
       | Ok _ => checked_tables added = ts
       | Raise e =>
           (forall m, e <> AssertionError m)
           /\ exists before table after,
                ts = before ++ table :: after
                /\ checked_tables added = before ++ [table]
       end.
Proof.
  induction ts as [|t ts IH]; intros log.
  - exists []. simpl. rewrite app_nil_r. repeat split; auto.
  - simpl. unfold bind at 1 2.
    destruct (check_table_shape sqlite_conn pg_conn t log)
      as (added & Hlog & Hdetail & Herrors & Hexn).
    destruct (check_table sqlite_conn pg_conn t log) as [[u|e] log1];
      simpl in Hlog, Hexn; subst log1.
    + destruct (IH (log ++ InfoCheckingTable t :: added))
        as (rest & Hlog' & Hdone & Herrors' & Hres).
      exists (InfoCheckingTable t :: added ++ rest).
      rewrite Hlog', <- app_assoc. simpl. split; [reflexivity|].
      split.
      { intros [H|H]; [discriminate|]. apply in_app_or in H.
        destruct H as [H|H]; [|exact (Hdone H)].
        exact (details_hold_no_completion _ Hdetail H). }
      rewrite filter_app, length_app, checked_tables_app,
        (checked_tables_details _ Hdetail).
      simpl. split; [lia|].
      destruct (fst (for_each ts _ _)) as [u'|e].
      * rewrite Hres. reflexivity.
      * destruct Hres as [Hne (before & table & after & Hts & Hchecked)].
        split; [exact Hne|].
        exists (t :: before), table, after. rewrite Hts, Hchecked.
        split; reflexivity.
    + exists (InfoCheckingTable t :: added). simpl.
      split; [reflexivity|]. split.
      { intros [H|H]; [discriminate|].
        exact (details_hold_no_completion _ Hdetail H). }
      rewrite (checked_tables_details _ Hdetail). simpl.
      split; [lia|]. split.
      * intros m Hm. apply (Hexn m). congruence.
      * exists [], t, ts. split; reflexivity.
Qed.

(** X2.  No assertion failure leaves the driver.  When the driver returns,
    the check of each of the five tables was started once, in the order
    person, genre, film_work, genre_film_work, person_film_work, and the
    completion line is the last line of the report and occurs nowhere
    else.  When it raises, the tables started are a non-empty initial part
    of that list, ending with the table that raised, and the completion
    line is not written. *)
Theorem driver_report_shape sqlite_conn pg_conn log :
  exists added,
    snd (test_data_integrity sqlite_conn pg_conn log) = log ++ added
    /\ match fst (test_data_integrity sqlite_conn pg_conn log) with
       | Ok _ =>
           checked_tables added = tables
           /\ exists body, added = body ++ [InfoTestingCompleted]
                           /\ ~ In InfoTestingCompleted body
       | Raise e =>
           (forall m, e <> AssertionError m)
           /\ ~ In InfoTestingCompleted added
           /\ exists before table after,
                tables = before ++ table :: after
                /\ checked_tables added = before ++ [table]
       end.
Proof.
  unfold test_data_integrity, bind.
  destruct (tables_loop_shape sqlite_conn pg_conn tables log)
    as (added & Hlog & Hdone & _ & Hres).
  destruct (for_each tables _ log) as [[u|e] log1];
    simpl in Hlog, Hres; subst log1.
  - exists (added ++ [InfoTestingCompleted]). unfold logger. simpl.
    rewrite <- app_assoc, checked_tables_app, Hres.
    split; [reflexivity|]. split; [reflexivity|].
    exists added. split; auto.
  - exists added. simpl. destruct Hres as [Hne Hprefix]. auto.
Qed.

(** X3.  The report of a run holds at most one error-level line for each
    table whose check was started, so at most five. *)
Theorem at_most_one_error_per_table sqlite_conn pg_conn log :
  exists added,
    snd (test_data_integrity sqlite_conn pg_conn log) = log ++ added
    /\ (List.length (filter is_error added)
        <= List.length (checked_tables added)
        <= List.length tables)%nat.
Proof.
  unfold test_data_integrity, bind.
  destruct (tables_loop_shape sqlite_conn pg_conn tables log)
    as (added & Hlog & _ & Herrors & Hres).
  destruct (for_each tables _ log) as [[u|e] log1];
    simpl in Hlog, Hres; subst log1.
  - exists (added ++ [InfoTestingCompleted]). unfold logger. simpl.
    rewrite <- app_assoc, checked_tables_app, filter_app, !length_app.
    split; [reflexivity|]. rewrite Hres in *. simpl in *. lia.
  - exists added. split; [reflexivity|]. split; [exact Herrors|].
    destruct Hres as [_ (before & table & after & Hts & ->)].
    rewrite Hts, !length_app. simpl. lia.
Qed.

(** ** Exceptions that are not assertion failures *)

(** X4.  A table that one of the two stores does not have ends the whole
    run: the error of the first query is not an assertion failure, so it
    leaves the driver right after the line that opens the table, and no
    later table is checked. *)
Theorem missing_table_ends_the_run
  sqlite_conn pg_conn tables_before table tables_after log0 log1 :
  tables = tables_before ++ table :: tables_after ->
  for_each tables_before (check_table sqlite_conn pg_conn) log0
  = (Ok tt, log1) ->
  sqlite_conn table = None \/ pg_conn table = None ->
  test_data_integrity sqlite_conn pg_conn log0
  = (Raise (DatabaseError table), log1 ++ [InfoCheckingTable table]).
Proof.
  intros Htables Hbefore Hmissing.
  eapply driver_stops_on_other_exception; try eassumption.
  - discriminate.
  - rewrite try_body_unfold. unfold try_body_result.
    destruct Hmissing as [-> | ->]; [reflexivity|].
    destruct (sqlite_conn table); reflexivity.
Qed.

Lemma missing_table_ends_the_run_witness :
  test_data_integrity (person_only [ann_sqlite])
    (without_table "genre" (person_only [ann_pg])) []
  = (Raise (DatabaseError "genre"),
     pass_report "person" 1 ++ [InfoCheckingTable "genre"]).
Proof.
  apply (missing_table_ends_the_run (person_only [ann_sqlite])
           (without_table "genre" (person_only [ann_pg]))
           ["person"] "genre"
           ["film_work"; "genre_film_work"; "person_film_work"]
           [] (pass_report "person" 1)).
  - reflexivity.
  - vm_compute. reflexivity.
  - right. reflexivity.
Defined.

(** X5.  A column of the source row that the target row does not have
    makes the loop body raise [KeyError] for that column.  The error is
    not an assertion failure: it leaves [test_data_integrity], so the table
    is not finished and the tables after it are not checked. *)
Theorem missing_target_column_ends_the_run
  (sqlite_row pg_row : row) (column : string) (sqlite_value : value) :
  lookup column sqlite_row = Some sqlite_value ->
  lookup column pg_row = None ->
  compare_column sqlite_row pg_row column = Raise (KeyError column)
  /\ forall sqlite_conn pg_conn table rows_before pg_before rows_after pg_after
       columns_before columns_after tables_before tables_after log0 log1,
      sqlite_conn table = Some (rows_before ++ sqlite_row :: rows_after) ->
      pg_conn table = Some (pg_before ++ pg_row :: pg_after) ->
      List.length rows_after = List.length pg_after ->
      rows_pass rows_before pg_before ->
      keys sqlite_row = columns_before ++ column :: columns_after ->
      columns_pass sqlite_row pg_row columns_before ->
      tables = tables_before ++ table :: tables_after ->
      for_each tables_before (check_table sqlite_conn pg_conn) log0
      = (Ok tt, log1) ->
      test_data_integrity sqlite_conn pg_conn log0
      = (Raise (KeyError column),
         log1 ++ [InfoCheckingTable table;
                  InfoCounts table
                    (List.length (rows_before ++ sqlite_row :: rows_after))
                    (List.length (pg_before ++ pg_row :: pg_after));
                  InfoCountMatches table; InfoCheckingContent table]).
Proof.
  intros Hcell Hpg.
  assert (Hcol : compare_column sqlite_row pg_row column
                 = Raise (KeyError column)).
  { unfold compare_column, sqlite_getitem, pg_getitem.
    rewrite Hcell, Hpg. reflexivity. }
  split; [exact Hcol|].
  intros sqlite_conn pg_conn table rows_before pg_before rows_after pg_after
    columns_before columns_after tables_before tables_after log0 log1
    Hs Hp Hafter Hrows Hkeys Hcols Htables Hbefore.
  eapply driver_stops_on_other_exception; try eassumption.
  - discriminate.
  - rewrite (try_body_first_failure _ _ _ _ _ _ _ _ _ _ _ _
               Hs Hp Hafter Hrows Hkeys Hcols _ _ Hcol).
    rewrite <- !app_assoc. reflexivity.
Qed.

Lemma missing_target_column_ends_the_run_witness :
  compare_column ann_sqlite ann_pg_narrow "full_name"
  = Raise (KeyError "full_name")
  /\ test_data_integrity (person_only [ann_sqlite; bob_sqlite])
       (person_only [ann_pg_narrow; bob_pg]) []
     = (Raise (KeyError "full_name"),
        [InfoCheckingTable "person"; InfoCounts "person" 2 2;
         InfoCountMatches "person"; InfoCheckingContent "person"]).
Proof.
  destruct (missing_target_column_ends_the_run ann_sqlite ann_pg_narrow
              "full_name" (PyStr "Ann") eq_refl eq_refl) as [Hcol Hrun].
  split; [exact Hcol|].
  apply (Hrun (person_only [ann_sqlite; bob_sqlite])
           (person_only [ann_pg_narrow; bob_pg]) "person"
           [] [] [bob_sqlite] [bob_pg] ["id"] ["created"]
           [] ["genre"; "film_work"; "genre_film_work"; "person_film_work"]
           [] []).
  - reflexivity.
  - reflexivity.
  - reflexivity.
  - constructor.
  - reflexivity.
  - repeat constructor.
  - reflexivity.
  - reflexivity.
Defined.



Lemma columns_loop_raises sqlite_row pg_row columns e log log' :
  for_each columns (fun c => lift (compare_column sqlite_row pg_row c)) log
  = (Raise e, log') ->
  exists column,
    In column columns /\ compare_column sqlite_row pg_row column = Raise e.
Proof.
  revert log. induction columns as [|c cs IH]; intros log; simpl.
  - discriminate.
  - unfold bind, lift.
    destruct (compare_column sqlite_row pg_row c) as [u|e1] eqn:Hc.
    + intros H. destruct (IH _ H) as (column & Hin & Hcol). eauto.
    + intros H; inversion H; subst. eauto.
Qed.

Lemma content_loop_raises pairs e : forall log log',
  content_loop pairs log = (Raise e, log') ->
  exists sqlite_row pg_row column,
    In (sqlite_row, pg_row) pairs /\ In column (keys sqlite_row)
    /\ compare_column sqlite_row pg_row column = Raise e.
Proof.
  unfold content_loop.
  induction pairs as [|[s p] pairs IH]; intros log log'; simpl.
  - discriminate.
  - unfold bind at 1.
    destruct (for_each (keys s) _ log) as [[u|e1] log1] eqn:Hrow.
    + intros H. destruct (IH _ _ H) as (s' & p' & c & Hin & Hc & Hraise).
      exists s', p', c. auto.
    + intros H; inversion H; subst.
      destruct (columns_loop_raises _ _ _ _ _ _ Hrow) as (c & Hin & Hc).
      exists s, p, c. auto.
Qed.




(** ** What the content check does not look at *)

Lemma compare_column_same_lookup sqlite_row pg_row pg_row' column :
  lookup column pg_row = lookup column pg_row' ->
  compare_column sqlite_row pg_row column
  = compare_column sqlite_row pg_row' column.
Proof.
  intros H. unfold compare_column, pg_getitem. rewrite H. reflexivity.
Qed.

Lemma columns_loop_same sqlite_row pg_row pg_row' columns log :
  (forall c, In c columns -> lookup c pg_row = lookup c pg_row') ->
  for_each columns (fun c => lift (compare_column sqlite_row pg_row c)) log
  = for_each columns (fun c => lift (compare_column sqlite_row pg_row' c)) log.
Proof.
  revert log. induction columns as [|c cs IH]; intros log Hsame; simpl;
    [reflexivity|].
  unfold bind, lift.
  rewrite <- (compare_column_same_lookup sqlite_row pg_row pg_row' c)
    by (apply Hsame; left; reflexivity).
  destruct (compare_column sqlite_row pg_row c); [|reflexivity].
  apply IH. intros c' Hin. apply Hsame. right; exact Hin.
Qed.

Lemma content_loop_same rows pg_rows pg_rows' :
  Forall3 same_on_source_columns rows pg_rows pg_rows' ->
  forall log,
    content_loop (combine rows pg_rows) log
    = content_loop (combine rows pg_rows') log.
Proof.
  unfold content_loop.
  induction 1 as [|s p p' rows ps ps' Hsame _ IH]; intros log; simpl;
    [reflexivity|].
  unfold bind at 1 2.
  rewrite (columns_loop_same s p p' (keys s) log Hsame).
  destruct (for_each (keys s) _ log) as [[u|e] log1]; [apply IH|reflexivity].
Qed.

Lemma Forall3_length {A B C} (R : A -> B -> C -> Prop) la lb lc :
  Forall3 R la lb lc ->
  List.length la = List.length lb /\ List.length lb = List.length lc.
Proof. induction 1; simpl; [auto|]. destruct IHForall3. split; congruence. Qed.

(** X7.  The content check reads a target row only under the column names
    of the source row it is paired with.  Two target stores whose rows of a
    table agree, pair by pair, on those columns get the same verdict and
    the same report for the table: columns that only the target has, and
    the order of the target's columns, are never compared. *)
Theorem target_only_columns_are_not_compared
  sqlite_conn pg_conn pg_conn' table rows pg_rows pg_rows' log :
  sqlite_conn table = Some rows ->
  pg_conn table = Some pg_rows ->
  pg_conn' table = Some pg_rows' ->
  Forall3 same_on_source_columns rows pg_rows pg_rows' ->
  check_table sqlite_conn pg_conn table log
  = check_table sqlite_conn pg_conn' table log.
Proof.
  intros Hs Hp Hp' Hsame.
  rewrite !check_table_unfold, !try_body_unfold. unfold try_body_result.
  rewrite Hs, Hp, Hp'.
  destruct (Forall3_length _ _ _ _ Hsame) as [_ Hlen].
  rewrite <- Hlen, (content_loop_same _ _ _ Hsame). reflexivity.
Qed.

Lemma target_only_columns_are_not_compared_witness :
  check_table (person_only [ann_sqlite]) (person_only [ann_pg]) "person" []
  = check_table (person_only [ann_sqlite]) (person_only [ann_pg_wide])
      "person" [].
Proof.
  apply (target_only_columns_are_not_compared
           (person_only [ann_sqlite]) (person_only [ann_pg])
           (person_only [ann_pg_wide]) "person"
           [ann_sqlite] [ann_pg] [ann_pg_wide] []);
    try reflexivity.
  constructor; [|constructor].
  intros column Hin. simpl in Hin.
  destruct Hin as [<-|[<-|[<-|[]]]]; reflexivity.
Defined.

(** ** The two normalisations *)

(** X8.  Both timestamp normalisations are idempotent: applied to their
    own result they change nothing and raise nothing new.  What
    [convert_postgres_datetime] returns is never an aware timestamp, and
    [convert_sqlite_datetime] never returns a string that holds '+00'. *)
Theorem normalisations_are_idempotent (v : value) :
  rbind (convert_sqlite_datetime v) convert_sqlite_datetime
  = convert_sqlite_datetime v
  /\ rbind (convert_postgres_datetime v) convert_postgres_datetime
     = convert_postgres_datetime v
  /\ match convert_sqlite_datetime v with
     | Ok (PyStr s) => contains "+00" s = false
     | _ => True
     end
  /\ match convert_postgres_datetime v with
     | Ok (PyDatetime d) => tzinfo d = None
     | _ => True
     end.
Proof.
  destruct v as [| | |s|d]; try (repeat split; reflexivity); simpl.
  - destruct (contains "+00" s) eqn:Hin.
    + destruct (strptime _); repeat split; reflexivity.
    + simpl. rewrite Hin. repeat split; auto.
  - destruct (tzinfo d) as [off|] eqn:Htz.
    + destruct (astimezone_utc d off); repeat split; reflexivity.
    + simpl. rewrite Htz. repeat split; auto.
Qed.

(** ** What a clean report establishes *)

Lemma check_table_of_passing sqlite_conn pg_conn table log :
  passes sqlite_conn pg_conn table ->
  exists n,
    check_table sqlite_conn pg_conn table log
    = (Ok tt, log ++ pass_report table n).
Proof.
  intros (rows & pg_rows & Hs & Hp & Hpass). exists (List.length rows).
  rewrite check_table_unfold, (try_body_passes _ _ _ _ _ _ Hs Hp Hpass),
    <- app_assoc.
  reflexivity.
Qed.

Lemma check_table_clean sqlite_conn pg_conn table log added :
  check_table sqlite_conn pg_conn table log = (Ok tt, log ++ added) ->
  existsb is_error added = false ->
  passes sqlite_conn pg_conn table.
Proof.
  rewrite check_table_unfold, try_body_unfold. unfold try_body_result, passes.
  destruct (sqlite_conn table) as [rows|]; [|discriminate].
  destruct (pg_conn table) as [pg_rows|]; [|discriminate].
  destruct (Nat.eqb _ _) eqn:Hn.
  - apply Nat.eqb_eq in Hn.
    destruct (content_loop _ _) as [[u|e] log1] eqn:Hloop.
    + intros _ _. exists rows, pg_rows. repeat split.
      apply (content_loop_inv _ _ _ _ _ Hn) in Hloop. apply Hloop.
      destruct u; reflexivity.
    + apply (content_loop_inv _ _ _ _ _ Hn) in Hloop. destruct Hloop as [-> _].
      destruct e; try discriminate.
      intros H; inversion H as [Heq]. rewrite <- !app_assoc in Heq.
      apply app_inv_head in Heq. subst added. discriminate.
  - intros H; inversion H as [Heq]. rewrite <- !app_assoc in Heq.
    apply app_inv_head in Heq. subst added. discriminate.
Qed.

Lemma tables_loop_clean sqlite_conn pg_conn ts : forall log added,
  for_each ts (check_table sqlite_conn pg_conn) log = (Ok tt, log ++ added) ->
  existsb is_error added = false ->
  forall table, In table ts -> passes sqlite_conn pg_conn table.
Proof.
  induction ts as [|t ts IH]; intros log added Hrun Hclean table Hin;
    [destruct Hin|].
  simpl in Hrun. unfold bind at 1 in Hrun.
  destruct (check_table_shape sqlite_conn pg_conn t log)
    as (added1 & Hlog1 & _ & _ & _).
  destruct (check_table sqlite_conn pg_conn t log) as [[[]|e] log1] eqn:Ht;
    [|discriminate].
  simpl in Hlog1. subst log1.
  destruct (tables_loop_shape sqlite_conn pg_conn ts
              (log ++ InfoCheckingTable t :: added1))
    as (added2 & Hlog2 & _).
  rewrite Hrun in Hlog2. simpl in Hlog2.
  rewrite <- app_assoc in Hlog2. apply app_inv_head in Hlog2. subst added.
  simpl in Hclean. rewrite existsb_app in Hclean.
  apply orb_false_elim in Hclean. destruct Hclean as [Hclean1 Hclean2].
  destruct Hin as [<-|Hin].
  - eapply check_table_clean; [exact Ht|exact Hclean1].
  - apply (IH (log ++ InfoCheckingTable t :: added1) added2); try assumption.
    rewrite Hrun, <- app_assoc. reflexivity.
Qed.

Lemma tables_loop_of_passing sqlite_conn pg_conn ts : forall log,
  (forall table, In table ts -> passes sqlite_conn pg_conn table) ->
  exists added,
    for_each ts (check_table sqlite_conn pg_conn) log = (Ok tt, log ++ added)
    /\ existsb is_error added = false.
Proof.
  induction ts as [|t ts IH]; intros log Hpass.
  - exists []. rewrite app_nil_r. split; reflexivity.
  - destruct (check_table_of_passing sqlite_conn pg_conn t log) as [n Ht].
    { apply Hpass. left; reflexivity. }
    destruct (IH (log ++ pass_report t n)) as (added & Hrun & Hclean).
    { intros table Hin. apply Hpass. right; exact Hin. }
    exists (pass_report t n ++ added). cbn [for_each]. unfold bind at 1.
    rewrite Ht, Hrun, <- app_assoc, existsb_app, Hclean.
    split; reflexivity.
Qed.

(** X16.  The run returns with a report free of error lines if and only
    if each of the five tables passes: both stores hold it, with the same
    number of rows, and every pair of rows taken in [id] order passes the
    comparison on every column of the source row. *)
Theorem clean_report_iff_every_table_passes sqlite_conn pg_conn log :
  (exists added,
      test_data_integrity sqlite_conn pg_conn log = (Ok tt, log ++ added)
      /\ existsb is_error added = false)
  <-> forall table, In table tables -> passes sqlite_conn pg_conn table.
Proof.
  unfold test_data_integrity. split.
  - intros (added & Hrun & Hclean). unfold bind in Hrun.
    destruct (tables_loop_shape sqlite_conn pg_conn tables log)
      as (added1 & Hlog1 & _).
    destruct (for_each tables _ log) as [[[]|e] log1] eqn:Hloop;
      [|discriminate].
    simpl in Hlog1. subst log1. unfold logger in Hrun.
    inversion Hrun as [Heq]. rewrite <- app_assoc in Heq.
    apply app_inv_head in Heq. subst added.
    rewrite existsb_app in Hclean. apply orb_false_elim in Hclean.
    eapply tables_loop_clean; [exact Hloop|apply Hclean].
  - intros Hpass.
    destruct (tables_loop_of_passing sqlite_conn pg_conn tables log Hpass)
      as (added & Hrun & Hclean).
    exists (added ++ [InfoTestingCompleted]). unfold bind, logger.
    rewrite Hrun, <- app_assoc, existsb_app, Hclean. split; reflexivity.
Qed.

Lemma clean_report_iff_every_table_passes_witness :
  exists added,
    test_data_integrity (person_only [ann_sqlite]) (person_only [ann_pg]) []
    = (Ok tt, [] ++ added)
    /\ existsb is_error added = false.
Proof.
  apply (proj2 (clean_report_iff_every_table_passes
                  (person_only [ann_sqlite]) (person_only [ann_pg]) [])).
  intros table Hin. simpl in Hin.
  destruct Hin as [<-|[<-|[<-|[<-|[<-|[]]]]]].
  - exists [ann_sqlite], [ann_pg]. repeat split; repeat constructor.
  - exists [], []. repeat split; constructor.
  - exists [], []. repeat split; constructor.
  - exists [], []. repeat split; constructor.
  - exists [], []. repeat split; constructor.
Defined.

(** ** The instant a target timestamp denotes *)

Lemma all_from_spec check count : forall start,
  all_from check start count = true ->
  forall r, start <= r < start + Z.of_nat count -> check r = true.
Proof.
  induction count as [|count IH]; intros start Hall r Hr; [lia|].
  cbn [all_from] in Hall.
  destruct (check start) eqn:Hstart; [|discriminate].
  destruct (Z.eq_dec r start) as [->|Hne]; [exact Hstart|].
  apply (IH (start + 1) Hall). lia.
Qed.

Lemma first_cycle_round_trips :
  all_from round_trips 0 (Z.to_nat 146097) = true.
Proof. vm_cast_no_check (eq_refl true). Qed.

Lemma round_trips_in_cycle r : 0 <= r < 146097 -> round_trips r = true.
Proof.
  intros Hr.
  apply (all_from_spec round_trips (Z.to_nat 146097) 0 first_cycle_round_trips).
  rewrite Z2Nat.id; lia.
Qed.

Lemma is_leap_period y q : is_leap (y + 400 * q) = is_leap y.
Proof.
  unfold is_leap.
  replace (y + 400 * q) with (y + (100 * q) * 4) at 1 by lia.
  replace (y + 400 * q) with (y + (4 * q) * 100) at 1 by lia.
  replace (y + 400 * q) with (y + q * 400) by lia.
  rewrite !Z_mod_plus_full. reflexivity.
Qed.

Lemma days_before_year_period y q :
  days_before_year (y + 400 * q) = days_before_year y + 146097 * q.
Proof.
  unfold days_before_year. cbv zeta.
  replace (y + 400 * q - 1) with (y - 1 + 400 * q) by lia.
  replace ((y - 1 + 400 * q) / 4) with ((y - 1) / 4 + 100 * q).
  2:{ replace (y - 1 + 400 * q) with (y - 1 + (100 * q) * 4) by lia.
      rewrite Z_div_plus_full by lia. reflexivity. }
  replace ((y - 1 + 400 * q) / 100) with ((y - 1) / 100 + 4 * q).
  2:{ replace (y - 1 + 400 * q) with (y - 1 + (4 * q) * 100) by lia.
      rewrite Z_div_plus_full by lia. reflexivity. }
  replace ((y - 1 + 400 * q) / 400) with ((y - 1) / 400 + q).
  2:{ replace (y - 1 + 400 * q) with (y - 1 + q * 400) by lia.
      rewrite Z_div_plus_full by lia. reflexivity. }
  lia.
Qed.

Lemma ymd2ord_period y m d q :
  ymd2ord (y + 400 * q) m d = ymd2ord y m d + 146097 * q.
Proof.
  unfold ymd2ord, days_before_month.
  rewrite days_before_year_period, is_leap_period. lia.
Qed.

Lemma ord2ymd_period q r :
  0 <= r < 146097 ->
  ord2ymd (146097 * q + r + 1)
  = let '(y, m, d) := ord2ymd (r + 1) in (y + 400 * q, m, d).
Proof.
  intros Hr. unfold ord2ymd. cbv zeta.
  replace (146097 * q + r + 1 - 1) with (r + q * 146097) by lia.
  replace (r + 1 - 1) with r by lia.
  rewrite Z_div_plus_full, Z_mod_plus_full by lia.
  rewrite (Z.div_small r 146097), (Z.mod_small r 146097) by lia.
  replace (0 + q) with q by lia. replace (0 * 400) with 0 by lia.
  set (n100 := r / 36524). set (r1 := r mod 36524).
  set (n4 := r1 / 1461). set (r2 := r1 mod 1461).
  set (n1 := r2 / 365). set (r3 := r2 mod 365).
  destruct ((n1 =? 4) || (n100 =? 4)).
  - f_equal. f_equal. lia.
  - destruct (r3 <? _); f_equal; f_equal; lia.
Qed.

(** Every ordinal is the ordinal of the date [ord2ymd] gives for it. *)
Lemma ymd2ord_ord2ymd n :
  let '(y, m, d) := ord2ymd n in ymd2ord y m d = n.
Proof.
  set (q := (n - 1) / 146097). set (r := (n - 1) mod 146097).
  assert (Hr : 0 <= r < 146097) by (subst r; apply Z.mod_pos_bound; lia).
  assert (Hn : n = 146097 * q + r + 1).
  { subst q r. pose proof (Z.div_mod (n - 1) 146097). lia. }
  rewrite Hn, (ord2ymd_period q r Hr).
  pose proof (round_trips_in_cycle r Hr) as Hcycle. unfold round_trips in Hcycle.
  destruct (ord2ymd (r + 1)) as [[y m] d].
  apply Z.eqb_eq in Hcycle. rewrite ymd2ord_period. lia.
Qed.

Lemma clock_fields_recompose secs :
  ((secs / 3600) * 60 + (secs / 60) mod 60) * 60 + secs mod 60 = secs.
Proof.
  replace 3600 with (60 * 60) by lia.
  rewrite <- Z.div_div by lia.
  pose proof (Z.div_mod secs 60). pose proof (Z.div_mod (secs / 60) 60). lia.
Qed.

Lemma of_microseconds_instant us tz u :
  of_microseconds us tz = Ok u ->
  to_microseconds u = us /\ tzinfo u = tz
  /\ 0 <= hour u < 24 /\ 0 <= minute u < 60 /\ 0 <= second u < 60
  /\ 0 <= microsecond u < 1000000.
Proof.
  unfold of_microseconds. cbv zeta.
  destruct ((us / us_per_day <? 1) || (max_ordinal <? us / us_per_day));
    [discriminate|].
  pose proof (ymd2ord_ord2ymd (us / us_per_day)) as Hord.
  destruct (ord2ymd (us / us_per_day)) as [[y m] d].
  intros H; inversion H; subst u; clear H.
  unfold to_microseconds. cbn [year month day hour minute second microsecond
                                 tzinfo].
  rewrite Hord, clock_fields_recompose.
  assert (Hday : 0 <= us mod us_per_day < us_per_day)
    by (apply Z.mod_pos_bound; reflexivity).
  unfold us_per_day in *.
  set (r := us mod (86400 * 1000000)) in *.
  pose proof (Z.div_mod us (86400 * 1000000)).
  pose proof (Z.div_mod r 1000000).
  pose proof (Z.mod_pos_bound r 1000000).
  assert (Hsecs : 0 <= r / 1000000 < 86400).
  { split; [apply Z.div_pos; lia|apply Z.div_lt_upper_bound; lia]. }
  pose proof (Z.mod_pos_bound (r / 1000000) 60).
  pose proof (Z.mod_pos_bound (r / 1000000 / 60) 60).
  split; [lia|]. split; [reflexivity|].
  split; [split; [apply Z.div_pos; lia|apply Z.div_lt_upper_bound; lia]|].
  split; [lia|]. split; lia.
Qed.

(** X20.  [convert_postgres_datetime] keeps the instant.  For an aware
    timestamp with UTC offset [off] seconds, the naive timestamp it returns
    lies exactly [off] seconds before the civil reading of the input, so it
    is the same moment read in UTC; its clock fields are in range and it
    carries no [tzinfo]. *)
Theorem normalisation_keeps_the_instant (d u : datetime) (off : Z) :
  tzinfo d = Some off ->
  convert_postgres_datetime (PyDatetime d) = Ok (PyDatetime u) ->
  to_microseconds u = to_microseconds d - off * 1000000
  /\ tzinfo u = None
  /\ 0 <= hour u < 24 /\ 0 <= minute u < 60 /\ 0 <= second u < 60
  /\ 0 <= microsecond u < 1000000.
Proof.
  intros Htz. simpl. rewrite Htz. unfold astimezone_utc.
  destruct (of_microseconds _ (Some 0)) as [v|e] eqn:Hv; [|discriminate].
  simpl. intros H; inversion H; subst u; clear H.
  apply of_microseconds_instant in Hv.
  destruct Hv as (Hus & _ & Hh & Hm & Hs & Hmicro).
  unfold to_microseconds in *. simpl. repeat split; try lia.
Qed.

Lemma normalisation_keeps_the_instant_witness :
  let d := mkDatetime 2024 3 1 1 30 0 0 (Some 10800) in
  let u := mkDatetime 2024 2 29 22 30 0 0 None in
  to_microseconds u = to_microseconds d - 10800 * 1000000
  /\ tzinfo u = None
  /\ 0 <= hour u < 24 /\ 0 <= minute u < 60 /\ 0 <= second u < 60
  /\ 0 <= microsecond u < 1000000.
Proof.
  apply (normalisation_keeps_the_instant
           (mkDatetime 2024 3 1 1 30 0 0 (Some 10800))
           (mkDatetime 2024 2 29 22 30 0 0 None) 10800); reflexivity.
Defined.

(** ** The error lines of the report *)

Ltac old_error_line H :=
  rewrite !in_app_iff in H; simpl in H; intuition discriminate.

Lemma check_table_error_lines sqlite_conn pg_conn table log m :
  In (ErrorLogged m) (snd (check_table sqlite_conn pg_conn table log)) ->
  In (ErrorLogged m) log
  \/ m = RecordCountMismatch table
  \/ exists id column sqlite_value pg_value,
       m = Mismatch id column sqlite_value pg_value.
Proof.
  rewrite check_table_unfold, try_body_unfold. unfold try_body_result.
  destruct (sqlite_conn table) as [rows|];
    [|simpl; intros H; old_error_line H].
  destruct (pg_conn table) as [pg_rows|];
    [|simpl; intros H; old_error_line H].
  destruct (Nat.eqb _ _) eqn:Hn.
  - apply Nat.eqb_eq in Hn.
    destruct (content_loop _ _) as [[u|e] log1] eqn:Hloop.
    + apply (content_loop_inv _ _ _ _ _ Hn) in Hloop. destruct Hloop as [-> _].
      simpl. intros H. old_error_line H.
    + pose proof Hloop as Hlog.
      apply (content_loop_inv _ _ _ _ _ Hn) in Hlog. destruct Hlog as [-> _].
      destruct (content_loop_raises _ _ _ _ Hloop)
        as (s & p & c & _ & _ & Hraise).
      destruct e; simpl; intros H; try (old_error_line H).
      rewrite !in_app_iff in H. simpl in H.
      destruct H as [H|[H|[]]]; [intuition discriminate|].
      inversion H; subst m0. right. right.
      destruct (compare_column_assertion _ _ _ _ Hraise)
        as (id & sv & pv & -> & _).
      eauto.
  - simpl. intros H. rewrite !in_app_iff in H. simpl in H.
    destruct H as [H|[H|[]]]; [intuition discriminate|].
    inversion H. auto.
Qed.

Lemma tables_loop_error_lines sqlite_conn pg_conn ts : forall log m,
  In (ErrorLogged m)
    (snd (for_each ts (check_table sqlite_conn pg_conn) log)) ->
  In (ErrorLogged m) log
  \/ (exists table, In table ts /\ m = RecordCountMismatch table)
  \/ exists id column sqlite_value pg_value,
       m = Mismatch id column sqlite_value pg_value.
Proof.
  induction ts as [|t ts IH]; intros log m; simpl; [auto|].
  unfold bind at 1.
  pose proof (check_table_error_lines sqlite_conn pg_conn t log m) as Ht.
  destruct (check_table sqlite_conn pg_conn t log) as [[u|e] log1];
    simpl in Ht.
  - intros H. destruct (IH _ _ H) as [H1|[(table & Hin & ->)|H1]]; eauto 6.
    destruct (Ht H1) as [H2|[->|H2]]; eauto 6.
  - simpl. intros H. destruct (Ht H) as [H2|[->|H2]]; eauto 6.
Qed.

(** X21.  Every error line a run adds to the report is either the count
    mismatch of one of the five tables or the mismatch of one cell, with
    the id of the row, the column and both values.  The row-count message
    of [compare_table_data] is never reported: the count check of the same
    table has failed before the content check could be reached. *)
Theorem error_lines_of_the_report sqlite_conn pg_conn m :
  In (ErrorLogged m) (snd (test_data_integrity sqlite_conn pg_conn [])) ->
  reportable m /\ forall table, m <> RowCountMismatch table.
Proof.
  unfold test_data_integrity, bind.
  pose proof (tables_loop_error_lines sqlite_conn pg_conn tables [] m) as Hloop.
  destruct (for_each tables _ []) as [[u|e] log1]; simpl in Hloop.
  - unfold logger. simpl. intros H. apply in_app_or in H.
    destruct H as [H|[H|[]]]; [|discriminate H].
    destruct (Hloop H) as [[]|[(table & Hin & ->)|(id & c & sv & pv & ->)]].
    + split; [left; exists table; auto|intros t; discriminate].
    + split; [right; exists id, c, sv, pv; reflexivity|intros t; discriminate].
  - simpl. intros H.
    destruct (Hloop H) as [[]|[(table & Hin & ->)|(id & c & sv & pv & ->)]].
    + split; [left; exists table; auto|intros t; discriminate].
    + split; [right; exists id, c, sv, pv; reflexivity|intros t; discriminate].
Qed.

Lemma error_lines_of_the_report_witness :
  reportable bob_name_mismatch
  /\ forall table, bob_name_mismatch <> RowCountMismatch table.
Proof.
  apply (error_lines_of_the_report
           (person_only [ann_sqlite; bob_sqlite; cy_sqlite])
           (person_only [ann_pg; bob_pg; cy_pg]) bob_name_mismatch).
  vm_compute. tauto.
Defined.

End CheckerMore.

(** * Further facts about the reader *)

Module ReaderMore.
Import Py Postgres Loader ReaderFacts.

(** ** When the reader ends *)

(** The loop ends at once on an empty table, whatever the batch size. *)
Lemma load_data_empty_table {A} (fuel : nat) (batch_size : Z) :
  load_data fuel (@nil A) batch_size = Some [].
Proof. destruct fuel; reflexivity. Qed.

(** X9.  The reader of a table ends if and only if the table is empty or
    the batch size is positive.  With a batch size of zero or less the
    offset never reaches the row count of a non-empty table, and the
    generator yields without end. *)
Theorem load_data_ends_iff {A} (rows : list A) (batch_size : Z) :
  (exists fuel batches, load_data fuel rows batch_size = Some batches)
  <-> rows = [] \/ 0 < batch_size.
Proof.
  split.
  - intros (fuel & batches & Hrun).
    destruct rows as [|row rows]; [left; reflexivity|right].
    destruct (Z_lt_le_dec 0 batch_size) as [Hpos|Hneg]; [exact Hpos|].
    unfold load_data in Hrun.
    rewrite load_data_loop_stuck in Hrun; [discriminate|exact Hneg|].
    simpl List.length. lia.
  - intros [-> | Hpos].
    + exists 0%nat, []. apply load_data_empty_table.
    + destruct (load_data_whole_table rows batch_size (List.length rows) Hpos)
        as (batches & Hrun & _); [lia|].
      exists (List.length rows), batches. exact Hrun.
Qed.

Lemma load_data_ends_iff_witness :
  (exists fuel batches, load_data fuel [10; 20; 30] 2 = Some batches)
  /\ ([10; 20; 30] = [] \/ 0 < 2).
Proof.
  split.
  - apply (proj2 (load_data_ends_iff [10; 20; 30] 2)). right. lia.
  - apply (proj1 (load_data_ends_iff [10; 20; 30] 2)).
    exists 2%nat, [[10; 20]; [30]]. reflexivity.
Defined.

(** ** How many batches *)

Lemma ceiling_step (n o b : nat) :
  (0 < b)%nat -> (o < n)%nat ->
  ((n - o + b - 1) / b = S ((n - (o + b) + b - 1) / b))%nat.
Proof.
  intros Hb Ho.
  destruct (Nat.le_gt_cases (o + b) n) as [Hle|Hgt].
  - replace (n - o + b - 1)%nat with ((n - (o + b) + b - 1) + 1 * b)%nat
      by lia.
    rewrite Nat.div_add by lia. lia.
  - replace (n - (o + b) + b - 1)%nat with (b - 1)%nat by lia.
    rewrite (Nat.div_small (b - 1) b) by lia.
    symmetry. apply (Nat.div_unique _ _ _ (n - o - 1)%nat); lia.
Qed.

Lemma load_data_loop_count {A} (rows : list A) (batch_size : Z) :
  0 < batch_size ->
  forall (fuel o : nat),
    (List.length rows - o <= fuel)%nat ->
    exists batches,
      load_data_loop fuel rows batch_size (Z.of_nat (List.length rows))
        (Z.of_nat o) = Some batches
      /\ List.length batches
         = ((List.length rows - o + Z.to_nat batch_size - 1)
            / Z.to_nat batch_size)%nat.
Proof.
  intros Hb. set (b := Z.to_nat batch_size).
  assert (Hbpos : (0 < b)%nat) by (subst b; lia).
  induction fuel as [|fuel IH]; intros o Hfuel.
  - exists []. simpl.
    destruct (Z.of_nat o <? Z.of_nat (List.length rows)) eqn:Hlt.
    + apply Z.ltb_lt in Hlt. lia.
    + apply Z.ltb_ge in Hlt. split; [reflexivity|].
      replace (List.length rows - o + b - 1)%nat with (b - 1)%nat by lia.
      rewrite Nat.div_small by lia. reflexivity.
  - simpl.
    destruct (Z.of_nat o <? Z.of_nat (List.length rows)) eqn:Hlt.
    + apply Z.ltb_lt in Hlt.
      replace (Z.of_nat o + batch_size) with (Z.of_nat (o + b))
        by (subst b; lia).
      destruct (IH (o + b)%nat) as (rest & Hrest & Hcount); [lia|].
      rewrite Hrest. simpl. eexists. split; [reflexivity|].
      simpl. rewrite Hcount. symmetry. apply ceiling_step; lia.
    + apply Z.ltb_ge in Hlt. exists []. split; [reflexivity|].
      replace (List.length rows - o + b - 1)%nat with (b - 1)%nat by lia.
      rewrite Nat.div_small by lia. reflexivity.
Qed.

(** X10.  With a positive batch size a table of [n] rows is read in
    [ceil (n / batch_size)] batches, and every batch but the last holds
    exactly [batch_size] rows. *)
Theorem batch_count_and_sizes {A} (rows : list A) (batch_size : Z)
  (fuel : nat) :
  0 < batch_size ->
  (List.length rows <= fuel)%nat ->
  exists batches,
    load_data fuel rows batch_size = Some batches
    /\ List.length batches
       = ((List.length rows + Z.to_nat batch_size - 1)
          / Z.to_nat batch_size)%nat
    /\ forall k, (S k < List.length batches)%nat ->
         exists batch,
           nth_error batches k = Some batch
           /\ List.length batch = Z.to_nat batch_size.
Proof.
  intros Hb Hfuel.
  destruct (load_data_loop_count rows batch_size Hb fuel 0)
    as (batches & Hrun & Hcount); [lia|].
  destruct (load_data_loop_from rows batch_size Hb fuel 0)
    as (batches' & Hrun' & _ & Hnth & Hshape); [lia|].
  assert (batches' = batches) by congruence. subst batches'.
  exists batches. split; [exact Hrun|].
  rewrite Nat.sub_0_r in Hcount. split; [exact Hcount|].
  intros k Hk. eexists. split; [apply Hnth; lia|].
  pose proof (Hnth (S k) Hk) as Hnext.
  rewrite Forall_forall in Hshape.
  destruct (Hshape _ (nth_error_In _ _ Hnext)) as [Hne _].
  rewrite length_firstn, length_skipn. simpl.
  destruct (Nat.le_gt_cases (Z.to_nat batch_size)
              (List.length rows - k * Z.to_nat batch_size)) as [Hle|Hgt];
    [lia|].
  exfalso. apply Hne. simpl.
  rewrite skipn_all2 by (simpl; lia). apply firstn_nil.
Qed.

Lemma batch_count_and_sizes_witness :
  exists batches,
    load_data 5 [10; 20; 30; 40; 50] 2 = Some batches
    /\ List.length batches = 3%nat
    /\ forall k, (S k < List.length batches)%nat ->
         exists batch,
           nth_error batches k = Some batch /\ List.length batch = 2%nat.
Proof.
  apply (batch_count_and_sizes [10; 20; 30; 40; 50] 2 5); [lia | simpl; lia].
Defined.

End ReaderMore.

(** * Further facts about the server *)

Module PostgresMore.
Import Py Postgres Loader PostgresProps LoaderNotions PostgresFacts.

(** ** The answers to a batch *)




(** ** Statements that meet no stored key *)

Lemma key_conflict_same_key index new old :
  key_conflict index new old = true -> row_key index old = row_key index new.
Proof.
  unfold key_conflict, row_key.
  induction index as [|c index IH]; simpl; [reflexivity|].
  intros H. apply andb_prop in H. destruct H as [Hc Hrest].
  apply andb_prop in Hc. destruct Hc as [_ Hc].
  apply value_eqb_eq in Hc. rewrite Hc, (IH Hrest). reflexivity.
Qed.

Lemma no_clash t new rows :
  (forall index, In index (unique_indexes t) ->
                 ~ In (row_key index new) (map (row_key index) rows)) ->
  unique_clash t new rows = false.
Proof.
  intros Hfresh. unfold unique_clash, hits.
  destruct (existsb _ (unique_indexes t)) eqn:Hclash; [|reflexivity].
  apply existsb_exists in Hclash. destruct Hclash as (index & Hin & Hhit).
  apply existsb_exists in Hhit. destruct Hhit as (old & Hold & Hconf).
  exfalso. apply (Hfresh index Hin).
  rewrite <- (key_conflict_same_key _ _ _ Hconf).
  apply in_map. exact Hold.
Qed.

Lemma no_clash_no_hit t new rows index :
  unique_clash t new rows = false ->
  In index (unique_indexes t) -> hits index new rows = false.
Proof.
  unfold unique_clash. intros Hclash Hin.
  destruct (hits index new rows) eqn:Hhit; [|reflexivity].
  rewrite <- Hclash. symmetry. apply existsb_exists. eauto.
Qed.

Lemma parents_present db t new :
  (forall column parent, In (column, parent) (foreign_keys (schema t)) ->
     In (field new column) (ids (rows_of db parent))) ->
  fk_missing db t new = false.
Proof.
  intros Hparents. unfold fk_missing.
  destruct (existsb _ _) eqn:Hmiss; [|reflexivity].
  apply existsb_exists in Hmiss.
  destruct Hmiss as ([column parent] & Hin & Hmiss).
  unfold references_missing in Hmiss.
  apply andb_prop in Hmiss. destruct Hmiss as [_ Hmiss].
  apply negb_true_iff in Hmiss.
  specialize (Hparents column parent Hin).
  unfold ids in Hparents. apply in_map_iff in Hparents.
  destruct Hparents as (p & Hp & Hin').
  assert (Hex : existsb (fun p => value_eqb (field p (primary_key (schema parent)))
                                    (field new column))
                  (rows_of db parent) = true).
  { apply existsb_exists. exists p. split; [exact Hin'|].
    rewrite primary_key_is_id, Hp. apply value_eqb_refl. }
  congruence.
Qed.

Lemma fresh_statement_inserted c st :
  tx c <> Aborted ->
  on_conflict st = ["id"] ->
  statement_id st <> PyNone ->
  unique_clash (into st) (new_row st) (rows_of (visible c) (into st)) = false ->
  fk_missing (visible c) (into st) (new_row st) = false ->
  execute c st
  = (Inserted, mkConnection (committed c)
                 (InTransaction (insert_row (visible c) st))
                 (replies c ++ [Inserted])).
Proof.
  intros Hlive Htarget Hid Hclash Hfk.
  rewrite (execute_live _ _ Hlive).
  pose proof (insert_outcome_spec (visible c) st Htarget) as Hspec.
  cbv zeta in Hspec.
  pose proof (no_clash_no_hit _ _ _ ["id"] Hclash (id_index_is_unique _))
    as Hnohit.
  destruct (insert_outcome (visible c) st) as [| |e]; [reflexivity| |].
  - destruct Hspec as [_ Hhit]. congruence.
  - exfalso. destruct Hspec as [Hnone|[_ [Hc|Hf]]]; [|congruence|congruence].
    apply Hid. exact Hnone.
Qed.

Lemma fresh_batch_inserted t sts : forall c,
  tx c <> Aborted ->
  Forall (fun st => on_conflict st = ["id"] /\ into st = t
                    /\ statement_id st <> PyNone) sts ->
  (forall index, In index (unique_indexes t) ->
     NoDup (map (row_key index) (rows_of (visible c) t ++ map new_row sts))) ->
  (forall st, In st sts ->
     forall column parent, In (column, parent) (foreign_keys (schema t)) ->
       In (field (new_row st) column) (ids (rows_of (visible c) parent))) ->
  tx (exec_list c sts) <> Aborted
  /\ rows_of (visible (exec_list c sts)) t
     = rows_of (visible c) t ++ map new_row sts
  /\ (forall t', t' <> t ->
        rows_of (visible (exec_list c sts)) t' = rows_of (visible c) t')
  /\ answers c sts = repeat Inserted (List.length sts).
Proof.
  induction sts as [|st sts IH]; intros c Hlive Hsts Hkeys Hparents.
  - simpl. rewrite app_nil_r. auto.
  - inversion Hsts as [|? ? (Htarget & Hinto & Hid) Hrest]; subst.
    assert (Hexec : execute c st
                    = (Inserted, mkConnection (committed c)
                                   (InTransaction (insert_row (visible c) st))
                                   (replies c ++ [Inserted]))).
    { apply fresh_statement_inserted; try assumption.
      - apply no_clash. intros index Hin Hold.
        specialize (Hkeys index Hin).
        rewrite map_app in Hkeys. simpl in Hkeys.
        apply NoDup_remove_2 in Hkeys. apply Hkeys.
        apply in_or_app. left. exact Hold.
      - apply parents_present. intros column parent Hfk.
        apply (Hparents st); [left; reflexivity|exact Hfk]. }
    rewrite exec_list_cons. simpl answers. rewrite Hexec. cbn [fst snd].
    set (c' := mkConnection (committed c)
                 (InTransaction (insert_row (visible c) st))
                 (replies c ++ [Inserted])).
    assert (Hvis : visible c' = insert_row (visible c) st) by reflexivity.
    destruct (IH c') as (Hlive' & Hrows & Hother & Hans).
    + discriminate.
    + exact Hrest.
    + intros index Hin. rewrite Hvis, rows_of_insert_row_same, <- app_assoc.
      apply (Hkeys index Hin).
    + intros st' Hin column parent Hfk. rewrite Hvis.
      rewrite rows_of_insert_row_other
        by exact (parent_is_another_table _ _ _ Hfk).
      apply (Hparents st'); [right; exact Hin|exact Hfk].
    + split; [exact Hlive'|]. split; [|split].
      * rewrite Hrows, Hvis, rows_of_insert_row_same, <- app_assoc.
        reflexivity.
      * intros t' Ht'. rewrite (Hother t' Ht'), Hvis.
        apply rows_of_insert_row_other. exact Ht'.
      * rewrite Hans. reflexivity.
Qed.

End PostgresMore.

(** * Further facts about the writers and the run *)

Module WriterMore.
Import Py Postgres Loader PostgresProps LoaderProps LoaderScenarios
  LoaderNotions PostgresFacts ReaderFacts WriterFacts PostgresMore.
Local Open Scope loader_scope.

(** ** What the writers log *)

Ltac prove_silent statement :=
  intros row st;
  unfold statement, or_now, if_not_none_else_now, L_bind, L_ret, now;
  case_defaults; reflexivity.

Lemma person_statement_silent : silent person_statement.
Proof. prove_silent person_statement. Qed.

Lemma genre_statement_silent : silent genre_statement.
Proof. prove_silent genre_statement. Qed.

Lemma film_work_statement_silent : silent film_work_statement.
Proof. prove_silent film_work_statement. Qed.

Lemma person_film_work_statement_silent : silent person_film_work_statement.
Proof. prove_silent person_film_work_statement. Qed.

Lemma genre_film_work_statement_silent : silent genre_film_work_statement.
Proof. prove_silent genre_film_work_statement. Qed.

Lemma warnings_cons t id row_ids o os :
  warnings t (id :: row_ids) (o :: os)
  = warnings t [id] [o] ++ warnings t row_ids os.
Proof. destruct o; reflexivity. Qed.

Lemma answers_length sts : forall c,
  List.length (answers c sts) = List.length sts.
Proof. induction sts; intros c; simpl; auto. Qed.

Section OneWriter.

Context {A : Type} (t : table) (id_of : A -> value)
  (statement : A -> L insert_statement).
Hypothesis keyed : well_keyed t id_of statement.
Hypothesis quiet_statement : silent statement.

Lemma row_body_log row st :
  log (snd (row_body t id_of statement row st))
  = log st
    ++ warnings t [id_of row]
         [fst (execute (conn st) (fst (statement row st)))].
Proof.
  unfold row_body, L_bind.
  pose proof (wk_conn _ _ _ keyed row st) as Hc.
  pose proof (quiet_statement row st) as Hl.
  destruct (statement row st) as [stmt st']. simpl in *.
  unfold try_execute, L_bind, cursor_execute. rewrite Hc.
  destruct (execute (conn st) stmt) as [o c].
  destruct o; simpl; rewrite Hl, ?app_nil_r; reflexivity.
Qed.

Lemma rows_loop_log data : forall st,
  exists sts,
    Forall2 (built statement) data sts
    /\ conn (snd (for_in data (row_body t id_of statement) st))
       = exec_list (conn st) sts
    /\ log (snd (for_in data (row_body t id_of statement) st))
       = log st ++ warnings t (map id_of data) (answers (conn st) sts).
Proof.
  induction data as [|row data IH]; intros st.
  - exists []. split; [constructor|]. simpl. rewrite app_nil_r.
    split; reflexivity.
  - destruct (IH (snd (row_body t id_of statement row st)))
      as (sts & Hb & Hc & Hl).
    exists (fst (statement row st) :: sts). split.
    + constructor; [exists st; reflexivity|exact Hb].
    + rewrite !for_in_cons. split.
      * rewrite Hc, exec_list_cons, (row_body_conn _ _ _ _ _ keyed).
        reflexivity.
      * rewrite Hl, (row_body_conn _ _ _ _ _ keyed), row_body_log.
        simpl map. simpl answers. rewrite (warnings_cons t (id_of row) (map id_of data)).
        rewrite <- app_assoc. reflexivity.
Qed.

Lemma save_rows_log data st :
  exists sts,
    Forall2 (built statement) data sts
    /\ conn (snd (save_rows t id_of statement data st))
       = commit (exec_list (conn st) sts)
    /\ log (snd (save_rows t id_of statement data st))
       = log st ++ warnings t (map id_of data) (answers (conn st) sts).
Proof.
  destruct (rows_loop_log data st) as (sts & Hb & Hc & Hl).
  exists sts. split; [exact Hb|].
  unfold save_rows. fold (row_body t id_of statement).
  unfold L_bind.
  destruct (for_in data (row_body t id_of statement) st) as [u st'].
  simpl in *. rewrite Hc, Hl. split; reflexivity.
Qed.

Lemma writer_logs_refusals : logs_refusals t id_of (save_rows t id_of statement).
Proof.
  intros data st e. subst e.
  destruct (save_rows_log data st) as (sts & Hb & Hc & Hl).
  exists (answers (conn st) sts). rewrite Hc, Hl, commit_replies.
  split; [apply replies_answers|]. split; [|reflexivity].
  rewrite answers_length. symmetry. eapply Forall2_length. exact Hb.
Qed.


End OneWriter.

(** X11.  Each of the five writers logs one warning for every statement
    the server refused, with the id of the row and the error, in the order
    of the rows, and logs nothing else: an inserted row and a row skipped
    by the conflict clause leave no trace in the log. *)
Theorem writers_log_every_refusal :
  logs_refusals person p_id save_persons
  /\ logs_refusals genre g_id save_genres
  /\ logs_refusals film_work fw_id save_film_works
  /\ logs_refusals person_film_work pfw_id save_person_film_work
  /\ logs_refusals genre_film_work gfw_id save_genre_film_work.
Proof.
  split; [|split; [|split; [|split]]].
  - exact (writer_logs_refusals _ _ _ person_statement_well_keyed
             person_statement_silent).
  - exact (writer_logs_refusals _ _ _ genre_statement_well_keyed
             genre_statement_silent).
  - exact (writer_logs_refusals _ _ _ film_work_statement_well_keyed
             film_work_statement_silent).
  - exact (writer_logs_refusals _ _ _ person_film_work_statement_well_keyed
             person_film_work_statement_silent).
  - exact (writer_logs_refusals _ _ _ genre_film_work_statement_well_keyed
             genre_film_work_statement_silent).
Qed.



(** ** The run only appends *)




(** ** A source that fits the schema *)

Lemma warnings_inserted t row_ids : forall n,
  warnings t row_ids (repeat Inserted n) = [].
Proof.
  induction row_ids as [|id row_ids IH]; intros [|n]; simpl; auto.
Qed.

Lemma index_columns_are_keys t index c :
  In index (unique_indexes t) -> In c index -> In c (key_columns t).
Proof.
  intros Hindex Hc. unfold key_columns. apply in_or_app. left.
  apply in_concat. eauto.
Qed.

Lemma foreign_key_is_key t column parent :
  In (column, parent) (foreign_keys (schema t)) -> In column (key_columns t).
Proof.
  intros Hfk. unfold key_columns. apply in_or_app. right.
  apply (in_map fst) in Hfk. exact Hfk.
Qed.

Section FreshTable.

Context {A : Type} (t : table) (id_of : A -> value)
  (statement : A -> L insert_statement) (cells : A -> string -> value).
Hypothesis keyed : well_keyed t id_of statement.
Hypothesis quiet_statement : silent statement.
Hypothesis reads : reads_keys t statement cells.

Let save := save_rows t id_of statement.

(** The keys the rows of the source put under an index, after those of
    the rows already stored. *)
Let keys_under (index : list string) (stored : list pg_row) (rows : list A) :=
  map (row_key index) stored ++ map (fun row => map (cells row) index) rows.

Lemma built_keys index data sts :
  In index (unique_indexes t) ->
  Forall2 (built statement) data sts ->
  map (row_key index) (map new_row sts)
  = map (fun row => map (cells row) index) data.
Proof.
  intros Hindex. induction 1 as [|row stmt data sts [st ->] _ IH]; simpl;
    [reflexivity|].
  rewrite IH. f_equal. unfold row_key. apply map_ext_in.
  intros c Hc. apply reads. eapply index_columns_are_keys; eassumption.
Qed.

Lemma built_parent_cells data sts stmt column parent :
  Forall2 (built statement) data sts ->
  In stmt sts ->
  In (column, parent) (foreign_keys (schema t)) ->
  exists row, In row data /\ field (new_row stmt) column = cells row column.
Proof.
  intros Hb Hin Hfk. induction Hb as [|row s data sts [st ->] _ IH];
    [destruct Hin|].
  destruct Hin as [<-|Hin].
  - exists row. split; [left; reflexivity|].
    apply reads. eapply foreign_key_is_key; eassumption.
  - destruct (IH Hin) as (row' & Hrow & Hcell). exists row'.
    split; [right; exact Hrow|exact Hcell].
Qed.

Lemma built_present data sts :
  (forall row, In row data -> id_of row <> PyNone) ->
  Forall2 (built statement) data sts ->
  Forall (fun st => on_conflict st = ["id"] /\ into st = t
                    /\ statement_id st <> PyNone) sts.
Proof.
  intros Hids. induction 1 as [|row stmt data sts [st ->] _ IH];
    constructor.
  - rewrite (wk_target _ _ _ keyed), (wk_into _ _ _ keyed),
      (wk_id _ _ _ keyed).
    repeat split. apply Hids. left; reflexivity.
  - apply IH. intros row' Hin. apply Hids. right; exact Hin.
Qed.

Lemma fresh_batch batch st :
  tx (conn st) = Idle ->
  (forall row, In row batch -> id_of row <> PyNone) ->
  (forall index, In index (unique_indexes t) ->
     NoDup (keys_under index (rows_of (committed (conn st)) t) batch)) ->
  (forall row, In row batch ->
     forall column parent, In (column, parent) (foreign_keys (schema t)) ->
       In (cells row column) (ids (rows_of (committed (conn st)) parent))) ->
  let e := snd (batch_body t save batch st) in
  tx (conn e) = Idle
  /\ (exists sts,
        Forall2 (built statement) batch sts
        /\ rows_of (committed (conn e)) t
           = rows_of (committed (conn st)) t ++ map new_row sts)
  /\ (forall t', t' <> t ->
        rows_of (committed (conn e)) t' = rows_of (committed (conn st)) t')
  /\ replies (conn e)
     = replies (conn st) ++ repeat Inserted (List.length batch)
  /\ log e = log st ++ [InfoLoaded t (List.length batch)].
Proof.
  intros Hidle Hids Hkeys Hparents e. subst e.
  unfold batch_body, L_bind. cbn [emit snd fst].
  set (st' := mkState (conn st) (clock st) (ticks st)
                (log st ++ [InfoLoaded t (List.length batch)])).
  destruct (save_rows_log t id_of statement keyed quiet_statement batch st')
    as (sts & Hb & Hc & Hl).
  fold save in Hc, Hl. rewrite Hc, Hl. subst st'. cbn [conn log].
  assert (Hlive : tx (conn st) <> Aborted) by (rewrite Hidle; discriminate).
  destruct (fresh_batch_inserted t sts (conn st) Hlive
              (built_present _ _ Hids Hb))
    as (Hlive' & Hrows & Hother & Hans).
  { intros index Hindex. rewrite (visible_idle _ Hidle), map_app,
      (built_keys index _ _ Hindex Hb).
    apply Hkeys. exact Hindex. }
  { intros stmt Hin column parent Hfk. rewrite (visible_idle _ Hidle).
    destruct (built_parent_cells _ _ _ _ _ Hb Hin Hfk) as (row & Hrow & ->).
    apply (Hparents row Hrow column parent Hfk). }
  rewrite (visible_idle _ Hidle) in Hrows, Hother.
  rewrite commit_idle, commit_visible, commit_replies, replies_answers, Hans,
    warnings_inserted, app_nil_r, <- (Forall2_length Hb).
  repeat split; auto. exists sts. auto.
Qed.

Lemma fresh_batches batches : forall st,
  tx (conn st) = Idle ->
  (forall row, In row (List.concat batches) -> id_of row <> PyNone) ->
  (forall index, In index (unique_indexes t) ->
     NoDup (keys_under index (rows_of (committed (conn st)) t)
              (List.concat batches))) ->
  (forall row, In row (List.concat batches) ->
     forall column parent, In (column, parent) (foreign_keys (schema t)) ->
       In (cells row column) (ids (rows_of (committed (conn st)) parent))) ->
  let e := snd (for_in batches (batch_body t save) st) in
  tx (conn e) = Idle
  /\ (exists sts,
        Forall2 (built statement) (List.concat batches) sts
        /\ rows_of (committed (conn e)) t
           = rows_of (committed (conn st)) t ++ map new_row sts)
  /\ (forall t', t' <> t ->
        rows_of (committed (conn e)) t' = rows_of (committed (conn st)) t')
  /\ replies (conn e)
     = replies (conn st)
       ++ repeat Inserted (List.length (List.concat batches))
  /\ exists lines,
       log e = log st ++ lines /\ existsb is_warning lines = false.
Proof.
  induction batches as [|batch batches IH]; intros st Hidle Hids Hkeys Hparents.
  - simpl. rewrite !app_nil_r. repeat split; auto.
    + exists []. rewrite app_nil_r. split; [constructor|reflexivity].
    + exists []. rewrite app_nil_r. split; reflexivity.
  - cbv zeta. rewrite for_in_cons. simpl List.concat in *.
    destruct (fresh_batch batch st Hidle) as
      (Hidle1 & (sts1 & Hb1 & Hrows1) & Hother1 & Hans1 & Hlog1).
    { intros row Hin. apply Hids. apply in_or_app. left; exact Hin. }
    { intros index Hindex. specialize (Hkeys index Hindex).
      unfold keys_under in *. rewrite map_app, app_assoc in Hkeys.
      apply NoDup_app_remove_r in Hkeys. exact Hkeys. }
    { intros row Hin. apply Hparents. apply in_or_app. left; exact Hin. }
    destruct (IH (snd (batch_body t save batch st)) Hidle1) as
      (Hidle2 & (sts2 & Hb2 & Hrows2) & Hother2 & Hans2 & lines & Hlog2 & Hq).
    { intros row Hin. apply Hids. apply in_or_app. right; exact Hin. }
    { intros index Hindex. specialize (Hkeys index Hindex).
      unfold keys_under in *.
      rewrite Hrows1, map_app, (built_keys index _ _ Hindex Hb1),
        <- app_assoc, <- map_app.
      exact Hkeys. }
    { intros row Hin column parent Hfk.
      rewrite Hother1 by exact (parent_is_another_table _ _ _ Hfk).
      apply Hparents; [apply in_or_app; right; exact Hin|exact Hfk]. }
    split; [exact Hidle2|]. split; [|split; [|split]].
    + exists (sts1 ++ sts2). split; [apply Forall2_app; assumption|].
      rewrite Hrows2, Hrows1, map_app, app_assoc. reflexivity.
    + intros t' Ht'. rewrite Hother2, Hother1 by exact Ht'. reflexivity.
    + rewrite Hans2, Hans1, length_app, repeat_app, app_assoc. reflexivity.
    + exists (InfoLoaded t (List.length batch) :: lines).
      rewrite Hlog2, Hlog1, <- app_assoc. split; [reflexivity|exact Hq].
Qed.

Lemma fresh_table (fuel : nat) (rows : list A) st :
  (List.length rows <= fuel)%nat ->
  tx (conn st) = Idle ->
  (forall row, In row rows -> id_of row <> PyNone) ->
  (forall index, In index (unique_indexes t) ->
     NoDup (keys_under index (rows_of (committed (conn st)) t) rows)) ->
  (forall row, In row rows ->
     forall column parent, In (column, parent) (foreign_keys (schema t)) ->
       In (cells row column) (ids (rows_of (committed (conn st)) parent))) ->
  exists e,
    migrate_table t fuel rows save st = Some e
    /\ tx (conn e) = Idle
    /\ (exists sts,
          Forall2 (built statement) rows sts
          /\ rows_of (committed (conn e)) t
             = rows_of (committed (conn st)) t ++ map new_row sts)
    /\ (forall t', t' <> t ->
          rows_of (committed (conn e)) t' = rows_of (committed (conn st)) t')
    /\ replies (conn e)
       = replies (conn st) ++ repeat Inserted (List.length rows)
    /\ exists lines,
         log e = log st ++ lines /\ existsb is_warning lines = false.
Proof.
  intros Hfuel Hidle Hids Hkeys Hparents.
  destruct (migrate_table_batches t id_of statement fuel rows Hfuel)
    as (batches & Hcat & Hrun).
  eexists. split; [apply Hrun|].
  set (st' := snd (emit (InfoTableContains t (Z.of_nat (List.length rows))) st)).
  pose proof (fresh_batches batches st') as Hfresh.
  cbv zeta in Hfresh. rewrite Hcat in Hfresh. unfold save in Hfresh.
  destruct (Hfresh Hidle Hids Hkeys Hparents)
    as (Hidle' & Hrows & Hother & Hans & lines & Hlog & Hq).
  split; [exact Hidle'|]. split; [exact Hrows|]. split; [exact Hother|].
  split; [exact Hans|].
  exists (InfoTableContains t (Z.of_nat (List.length rows)) :: lines).
  rewrite Hlog. subst st'. cbn [emit snd log]. rewrite <- app_assoc.
  split; [reflexivity|exact Hq].
Qed.

End FreshTable.

Ltac prove_reads statement cells :=
  intros row st c Hc; simpl in Hc;
  repeat (destruct Hc as [Hc|Hc];
          [subst c; unfold statement, or_now, if_not_none_else_now,
             L_bind, L_ret, now; case_defaults; reflexivity|]);
  contradiction.

Lemma person_statement_reads : reads_keys person person_statement person_cells.
Proof. prove_reads person_statement person_cells. Qed.

Lemma genre_statement_reads : reads_keys genre genre_statement genre_cells.
Proof. prove_reads genre_statement genre_cells. Qed.

Lemma film_work_statement_reads :
  reads_keys film_work film_work_statement film_work_cells.
Proof. prove_reads film_work_statement film_work_cells. Qed.

Lemma person_film_work_statement_reads :
  reads_keys person_film_work person_film_work_statement
    person_film_work_cells.
Proof. prove_reads person_film_work_statement person_film_work_cells. Qed.

Lemma genre_film_work_statement_reads :
  reads_keys genre_film_work genre_film_work_statement genre_film_work_cells.
Proof. prove_reads genre_film_work_statement genre_film_work_cells. Qed.

Lemma nodup_singletons {A B} (f : A -> B) (l : list A) :
  NoDup (map f l) -> NoDup (map (fun x => [f x]) l).
Proof.
  induction l as [|x l IH]; simpl; intros H; [constructor|].
  inversion H as [|? ? Hnotin Hrest]; subst. constructor; [|exact (IH Hrest)].
  intros Hin. apply Hnotin. apply in_map_iff in Hin.
  destruct Hin as (y & Hy & Hin). inversion Hy as [Hfy].
  apply in_map. exact Hin.
Qed.

Lemma ids_of_statements sts : ids (map new_row sts) = map statement_id sts.
Proof. unfold ids. rewrite map_map. reflexivity. Qed.

(** The run on a source that fits the schema, into empty tables. *)
Lemma consistent_run_fuel fuel src clock :
  (List.length (src_person src) <= fuel)%nat ->
  (List.length (src_genre src) <= fuel)%nat ->
  (List.length (src_film_work src) <= fuel)%nat ->
  (List.length (src_person_film_work src) <= fuel)%nat ->
  (List.length (src_genre_film_work src) <= fuel)%nat ->
  consistent src ->
  exists e,
    load_from_sqlite_fuel fuel src (start empty_database clock) = Some e
    /\ tx (conn e) = Idle
    /\ stored_as person_statement (src_person src)
         (person_rows (committed (conn e)))
    /\ stored_as genre_statement (src_genre src)
         (genre_rows (committed (conn e)))
    /\ stored_as film_work_statement (src_film_work src)
         (film_work_rows (committed (conn e)))
    /\ stored_as person_film_work_statement (src_person_film_work src)
         (person_film_work_rows (committed (conn e)))
    /\ stored_as genre_film_work_statement (src_genre_film_work src)
         (genre_film_work_rows (committed (conn e)))
    /\ replies (conn e) = repeat Inserted (total_rows src)
    /\ existsb is_warning (log e) = false.
Proof.
  intros Hp Hg Hf Hpf Hgf
    [(Hup & Hug & Huf & Hupf & Hugf) Hip Hig Hif Hipf Higf
       Hnames Hplinks Hglinks Hpres Hgres].
  rewrite Forall_forall in Hip, Hig, Hif, Hipf, Higf, Hpres, Hgres.
  unfold load_from_sqlite_fuel.
  set (st0 := start empty_database clock).
  (* person *)
  destruct (fresh_table person p_id person_statement person_cells
              person_statement_well_keyed person_statement_silent
              person_statement_reads fuel (src_person src) st0 Hp eq_refl Hip)
    as (e1 & Hrun1 & Hidle1 & (sts1 & Hb1 & Hrows1) & Hoth1 & Hans1
        & l1 & Hlog1 & Hq1).
  { intros index [<-|[]]. simpl. apply nodup_singletons. exact Hup. }
  { intros row _ column parent []. }
  fold save_persons in Hrun1. rewrite Hrun1. cbn [obind].
  (* genre *)
  destruct (fresh_table genre g_id genre_statement genre_cells
              genre_statement_well_keyed genre_statement_silent
              genre_statement_reads fuel (src_genre src) e1 Hg Hidle1 Hig)
    as (e2 & Hrun2 & Hidle2 & (sts2 & Hb2 & Hrows2) & Hoth2 & Hans2
        & l2 & Hlog2 & Hq2).
  { intros index Hin. rewrite Hoth1 by discriminate.
    destruct Hin as [<-|[<-|[]]]; simpl; apply nodup_singletons; assumption. }
  { intros row _ column parent []. }
  fold save_genres in Hrun2. rewrite Hrun2. cbn [obind].
  (* film_work *)
  destruct (fresh_table film_work fw_id film_work_statement film_work_cells
              film_work_statement_well_keyed film_work_statement_silent
              film_work_statement_reads fuel (src_film_work src) e2
              Hf Hidle2 Hif)
    as (e3 & Hrun3 & Hidle3 & (sts3 & Hb3 & Hrows3) & Hoth3 & Hans3
        & l3 & Hlog3 & Hq3).
  { intros index Hin. rewrite Hoth2, Hoth1 by discriminate.
    destruct Hin as [<-|[]]; simpl; apply nodup_singletons; assumption. }
  { intros row _ column parent []. }
  fold save_film_works in Hrun3. rewrite Hrun3. cbn [obind].
  assert (Hpersons : ids (rows_of (committed (conn e3)) person)
                     = map p_id (src_person src)).
  { rewrite Hoth3, Hoth2, Hrows1 by discriminate. simpl.
    rewrite ids_of_statements.
    exact (built_ids _ _ _ _ _ person_statement_well_keyed Hb1). }
  assert (Hgenres : ids (rows_of (committed (conn e3)) genre)
                    = map g_id (src_genre src)).
  { rewrite Hoth3, Hrows2, Hoth1 by discriminate. simpl.
    rewrite ids_of_statements.
    exact (built_ids _ _ _ _ _ genre_statement_well_keyed Hb2). }
  assert (Hfilms : ids (rows_of (committed (conn e3)) film_work)
                   = map fw_id (src_film_work src)).
  { rewrite Hrows3, Hoth2, Hoth1 by discriminate. simpl.
    rewrite ids_of_statements.
    exact (built_ids _ _ _ _ _ film_work_statement_well_keyed Hb3). }
  (* person_film_work *)
  destruct (fresh_table person_film_work pfw_id person_film_work_statement
              person_film_work_cells person_film_work_statement_well_keyed
              person_film_work_statement_silent
              person_film_work_statement_reads fuel
              (src_person_film_work src) e3 Hpf Hidle3 Hipf)
    as (e4 & Hrun4 & Hidle4 & (sts4 & Hb4 & Hrows4) & Hoth4 & Hans4
        & l4 & Hlog4 & Hq4).
  { intros index Hin. rewrite Hoth3, Hoth2, Hoth1 by discriminate.
    destruct Hin as [<-|[<-|[]]]; simpl;
      [apply nodup_singletons; assumption|exact Hplinks]. }
  { intros row Hrow column parent Hfk.
    destruct (Hpres row Hrow) as [Hfilm Hperson].
    destruct Hfk as [Hfk|[Hfk|[]]]; inversion Hfk; subst column parent.
    - rewrite Hfilms. exact Hfilm.
    - rewrite Hpersons. exact Hperson. }
  fold save_person_film_work in Hrun4. rewrite Hrun4. cbn [obind].
  (* genre_film_work *)
  destruct (fresh_table genre_film_work gfw_id genre_film_work_statement
              genre_film_work_cells genre_film_work_statement_well_keyed
              genre_film_work_statement_silent
              genre_film_work_statement_reads fuel
              (src_genre_film_work src) e4 Hgf Hidle4 Higf)
    as (e5 & Hrun5 & Hidle5 & (sts5 & Hb5 & Hrows5) & Hoth5 & Hans5
        & l5 & Hlog5 & Hq5).
  { intros index Hin. rewrite Hoth4, Hoth3, Hoth2, Hoth1 by discriminate.
    destruct Hin as [<-|[<-|[]]]; simpl;
      [apply nodup_singletons; assumption|exact Hglinks]. }
  { intros row Hrow column parent Hfk.
    destruct (Hgres row Hrow) as [Hfilm Hgenre].
    destruct Hfk as [Hfk|[Hfk|[]]]; inversion Hfk; subst column parent;
      rewrite Hoth4 by discriminate.
    - rewrite Hfilms. exact Hfilm.
    - rewrite Hgenres. exact Hgenre. }
  fold save_genre_film_work in Hrun5. rewrite Hrun5.
  exists e5. split; [reflexivity|]. split; [exact Hidle5|].
  split; [|split; [|split; [|split; [|split; [|split]]]]].
  - exists sts1. split; [exact Hb1|].
    change (person_rows (committed (conn e5)))
      with (rows_of (committed (conn e5)) person).
    rewrite Hoth5, Hoth4, Hoth3, Hoth2 by discriminate. exact Hrows1.
  - exists sts2. split; [exact Hb2|].
    change (genre_rows (committed (conn e5)))
      with (rows_of (committed (conn e5)) genre).
    rewrite Hoth5, Hoth4, Hoth3, Hrows2, Hoth1 by discriminate. reflexivity.
  - exists sts3. split; [exact Hb3|].
    change (film_work_rows (committed (conn e5)))
      with (rows_of (committed (conn e5)) film_work).
    rewrite Hoth5, Hoth4, Hrows3, Hoth2, Hoth1 by discriminate. reflexivity.
  - exists sts4. split; [exact Hb4|].
    change (person_film_work_rows (committed (conn e5)))
      with (rows_of (committed (conn e5)) person_film_work).
    rewrite Hoth5, Hrows4, Hoth3, Hoth2, Hoth1 by discriminate. reflexivity.
  - exists sts5. split; [exact Hb5|].
    change (genre_film_work_rows (committed (conn e5)))
      with (rows_of (committed (conn e5)) genre_film_work).
    rewrite Hrows5, Hoth4, Hoth3, Hoth2, Hoth1 by discriminate. reflexivity.
  - rewrite Hans5, Hans4, Hans3, Hans2, Hans1. unfold total_rows.
    rewrite !repeat_app. reflexivity.
  - rewrite Hlog5, Hlog4, Hlog3, Hlog2, Hlog1, !existsb_app,
      Hq1, Hq2, Hq3, Hq4, Hq5.
    reflexivity.
Qed.

(** X14.  A source that fits the target schema is migrated whole into
    empty tables: the run ends, the server inserts every row (no statement
    is refused, none is skipped), no warning is logged, and each target
    table holds, in the order of the source, exactly one row for each
    source row: the row of the statement its writer builds for it. *)
Theorem consistent_source_is_migrated_whole src clock :
  consistent src ->
  exists e,
    load_from_sqlite src (start empty_database clock) = Some e
    /\ tx (conn e) = Idle
    /\ stored_as person_statement (src_person src)
         (person_rows (committed (conn e)))
    /\ stored_as genre_statement (src_genre src)
         (genre_rows (committed (conn e)))
    /\ stored_as film_work_statement (src_film_work src)
         (film_work_rows (committed (conn e)))
    /\ stored_as person_film_work_statement (src_person_film_work src)
         (person_film_work_rows (committed (conn e)))
    /\ stored_as genre_film_work_statement (src_genre_film_work src)
         (genre_film_work_rows (committed (conn e)))
    /\ replies (conn e) = repeat Inserted (total_rows src)
    /\ existsb is_warning (log e) = false.
Proof.
  intros Hsrc. unfold load_from_sqlite.
  apply consistent_run_fuel; try exact Hsrc; unfold total_rows; lia.
Qed.

(** Settles [consistent] for a source given by its rows. *)
Ltac check_consistent :=
  constructor; simpl;
  repeat match goal with
         | |- unique_ids _ => unfold unique_ids; simpl
         | |- _ /\ _ => split
         | |- NoDup _ => constructor
         | |- Forall _ _ => constructor
         | |- ~ In _ _ => simpl; intuition discriminate
         | |- _ <> _ => discriminate
         | |- _ \/ _ => simpl; auto
         | |- In _ _ => simpl; auto
         end.

Lemma consistent_source_is_migrated_whole_witness :
  exists e,
    load_from_sqlite library_source (start empty_database seconds_clock)
    = Some e
    /\ tx (conn e) = Idle
    /\ stored_as person_statement (src_person library_source)
         (person_rows (committed (conn e)))
    /\ stored_as genre_statement (src_genre library_source)
         (genre_rows (committed (conn e)))
    /\ stored_as film_work_statement (src_film_work library_source)
         (film_work_rows (committed (conn e)))
    /\ stored_as person_film_work_statement
         (src_person_film_work library_source)
         (person_film_work_rows (committed (conn e)))
    /\ stored_as genre_film_work_statement
         (src_genre_film_work library_source)
         (genre_film_work_rows (committed (conn e)))
    /\ replies (conn e) = repeat Inserted (total_rows library_source)
    /\ existsb is_warning (log e) = false.
Proof.
  apply (consistent_source_is_migrated_whole library_source seconds_clock).
  check_consistent.
Defined.

(** ** The cells that are stored *)









(** ** Readings of the clock *)

Ltac prove_reads_clock statement reads :=
  intros row st;
  unfold statement, reads, reading, not_none, or_now, if_not_none_else_now,
    L_bind, L_ret, now;
  case_defaults; simpl; split; (reflexivity || lia).

Lemma person_statement_reads_clock : reads_clock person_statement person_reads.
Proof. prove_reads_clock person_statement person_reads. Qed.

Lemma genre_statement_reads_clock : reads_clock genre_statement genre_reads.
Proof. prove_reads_clock genre_statement genre_reads. Qed.

Lemma film_work_statement_reads_clock :
  reads_clock film_work_statement film_work_reads.
Proof. prove_reads_clock film_work_statement film_work_reads. Qed.

Lemma person_film_work_statement_reads_clock :
  reads_clock person_film_work_statement person_film_work_reads.
Proof.
  prove_reads_clock person_film_work_statement person_film_work_reads.
Qed.

Lemma genre_film_work_statement_reads_clock :
  reads_clock genre_film_work_statement genre_film_work_reads.
Proof.
  prove_reads_clock genre_film_work_statement genre_film_work_reads.
Qed.

Lemma list_sum_concat_map {A} (f : A -> nat) (batches : list (list A)) :
  list_sum (map f (List.concat batches))
  = list_sum (map (fun batch => list_sum (map f batch)) batches).
Proof.
  induction batches as [|batch batches IH]; simpl; [reflexivity|].
  rewrite map_app, list_sum_app, IH. reflexivity.
Qed.

Section Clock.

Context {A : Type} (t : table) (id_of : A -> value)
  (statement : A -> L insert_statement) (reads : A -> nat).
Hypothesis counted : reads_clock statement reads.

Lemma try_execute_clock id stmt st :
  ticks (snd (try_execute t id stmt st)) = ticks st
  /\ clock (snd (try_execute t id stmt st)) = clock st.
Proof.
  unfold try_execute, L_bind, cursor_execute.
  destruct (execute (conn st) stmt) as [o c]. destruct o; split; reflexivity.
Qed.

Lemma row_body_clock row st :
  ticks (snd (row_body t id_of statement row st)) = (ticks st + reads row)%nat
  /\ clock (snd (row_body t id_of statement row st)) = clock st.
Proof.
  unfold row_body, L_bind.
  destruct (counted row st) as [Hticks Hclock].
  destruct (statement row st) as [stmt st']. simpl in *.
  destruct (try_execute_clock (id_of row) stmt st') as [-> ->]. auto.
Qed.

Lemma rows_loop_clock data : forall st,
  ticks (snd (for_in data (row_body t id_of statement) st))
  = (ticks st + list_sum (map reads data))%nat
  /\ clock (snd (for_in data (row_body t id_of statement) st)) = clock st.
Proof.
  induction data as [|row data IH]; intros st.
  - simpl. split; [lia|reflexivity].
  - rewrite for_in_cons.
    destruct (IH (snd (row_body t id_of statement row st))) as [-> ->].
    destruct (row_body_clock row st) as [-> ->]. simpl. split; [lia|reflexivity].
Qed.

Lemma save_rows_clock data st :
  ticks (snd (save_rows t id_of statement data st))
  = (ticks st + list_sum (map reads data))%nat
  /\ clock (snd (save_rows t id_of statement data st)) = clock st.
Proof.
  destruct (rows_loop_clock data st) as [Hticks Hclock].
  unfold save_rows. fold (row_body t id_of statement). unfold L_bind.
  destruct (for_in data (row_body t id_of statement) st) as [u st'].
  simpl in *. auto.
Qed.

Lemma batches_clock batches : forall st,
  let e := snd (for_in batches
                  (batch_body t (save_rows t id_of statement)) st) in
  ticks e = (ticks st + list_sum (map reads (List.concat batches)))%nat
  /\ clock e = clock st.
Proof.
  induction batches as [|batch batches IH]; intros st; cbv zeta.
  - simpl. split; [lia|reflexivity].
  - rewrite for_in_cons.
    destruct (IH (snd (batch_body t (save_rows t id_of statement) batch st)))
      as [-> ->].
    unfold batch_body, L_bind. cbn [emit snd fst].
    destruct (save_rows_clock batch
                (mkState (conn st) (clock st) (ticks st)
                   (log st ++ [InfoLoaded t (List.length batch)])))
      as [-> ->].
    simpl. rewrite map_app, list_sum_app. split; [lia|reflexivity].
Qed.

Lemma table_clock (fuel : nat) (rows : list A) st :
  (List.length rows <= fuel)%nat ->
  exists e,
    migrate_table t fuel rows (save_rows t id_of statement) st = Some e
    /\ ticks e = (ticks st + list_sum (map reads rows))%nat
    /\ clock e = clock st.
Proof.
  intros Hfuel.
  destruct (migrate_table_batches t id_of statement fuel rows Hfuel)
    as (batches & Hcat & Hrun).
  eexists. split; [apply Hrun|].
  pose proof (batches_clock batches
                (snd (emit (InfoTableContains t
                                (Z.of_nat (List.length rows))) st))) as Hb.
  cbv zeta in Hb. rewrite Hcat in Hb. exact Hb.
Qed.

End Clock.

(** X17.  A run reads the clock exactly once for each cell it defaults: a
    falsy [created] or [modified] cell of person, genre and film_work, a
    NULL [created] cell of the two link tables.  It reads it at no other
    moment, whatever the server answers. *)
Theorem clock_is_read_once_per_defaulted_cell src st :
  exists e,
    load_from_sqlite src st = Some e
    /\ ticks e = (ticks st + clock_reads src)%nat
    /\ clock e = clock st.
Proof.
  unfold load_from_sqlite, load_from_sqlite_fuel, clock_reads.
  destruct (table_clock person p_id person_statement person_reads
              person_statement_reads_clock (total_rows src)
              (src_person src) st) as (e1 & Hrun1 & Ht1 & Hc1);
    [unfold total_rows; lia|].
  fold save_persons in Hrun1. rewrite Hrun1. cbn [obind].
  destruct (table_clock genre g_id genre_statement genre_reads
              genre_statement_reads_clock (total_rows src)
              (src_genre src) e1) as (e2 & Hrun2 & Ht2 & Hc2);
    [unfold total_rows; lia|].
  fold save_genres in Hrun2. rewrite Hrun2. cbn [obind].
  destruct (table_clock film_work fw_id film_work_statement film_work_reads
              film_work_statement_reads_clock (total_rows src)
              (src_film_work src) e2) as (e3 & Hrun3 & Ht3 & Hc3);
    [unfold total_rows; lia|].
  fold save_film_works in Hrun3. rewrite Hrun3. cbn [obind].
  destruct (table_clock person_film_work pfw_id person_film_work_statement
              person_film_work_reads person_film_work_statement_reads_clock
              (total_rows src) (src_person_film_work src) e3)
    as (e4 & Hrun4 & Ht4 & Hc4); [unfold total_rows; lia|].
  fold save_person_film_work in Hrun4. rewrite Hrun4. cbn [obind].
  destruct (table_clock genre_film_work gfw_id genre_film_work_statement
              genre_film_work_reads genre_film_work_statement_reads_clock
              (total_rows src) (src_genre_film_work src) e4)
    as (e5 & Hrun5 & Ht5 & Hc5); [unfold total_rows; lia|].
  fold save_genre_film_work in Hrun5. rewrite Hrun5.
  exists e5. split; [reflexivity|]. split; [lia|congruence].
Qed.

(** ** Runs that do not depend on the clock *)

Ltac prove_steady statement reads :=
  intros row st st';
  unfold statement, reads, reading, not_none, or_now, if_not_none_else_now,
    L_bind, L_ret, now;
  case_defaults; simpl; intros Hreads; (reflexivity || discriminate).

Lemma person_statement_steady : steady person_statement person_reads.
Proof. prove_steady person_statement person_reads. Qed.

Lemma genre_statement_steady : steady genre_statement genre_reads.
Proof. prove_steady genre_statement genre_reads. Qed.

Lemma film_work_statement_steady : steady film_work_statement film_work_reads.
Proof. prove_steady film_work_statement film_work_reads. Qed.

Lemma person_film_work_statement_steady :
  steady person_film_work_statement person_film_work_reads.
Proof. prove_steady person_film_work_statement person_film_work_reads. Qed.

Lemma genre_film_work_statement_steady :
  steady genre_film_work_statement genre_film_work_reads.
Proof. prove_steady genre_film_work_statement genre_film_work_reads. Qed.

Lemma list_sum_zero (l : list nat) :
  list_sum l = 0%nat -> forall n, In n l -> n = 0%nat.
Proof.
  induction l as [|m l IH]; simpl; intros Hsum n Hin; [destruct Hin|].
  destruct Hin as [<-|Hin]; [lia|apply IH; [lia|exact Hin]].
Qed.

Section Steady.

Context {A : Type} (t : table) (id_of : A -> value)
  (statement : A -> L insert_statement) (reads : A -> nat).
Hypothesis keyed : well_keyed t id_of statement.
Hypothesis unmoved : steady statement reads.

Lemma rows_loop_steady data : forall st st',
  list_sum (map reads data) = 0%nat ->
  conn st = conn st' ->
  conn (snd (for_in data (row_body t id_of statement) st))
  = conn (snd (for_in data (row_body t id_of statement) st')).
Proof.
  induction data as [|row data IH]; intros st st' Hreads Hconn;
    [exact Hconn|].
  rewrite !for_in_cons. simpl in Hreads. apply IH; [lia|].
  rewrite !(row_body_conn _ _ _ _ _ keyed), Hconn,
    (unmoved row st st') by lia.
  reflexivity.
Qed.

Lemma save_rows_steady data st st' :
  list_sum (map reads data) = 0%nat ->
  conn st = conn st' ->
  conn (snd (save_rows t id_of statement data st))
  = conn (snd (save_rows t id_of statement data st')).
Proof.
  intros Hreads Hconn.
  pose proof (rows_loop_steady data st st' Hreads Hconn) as Hloop.
  unfold save_rows. fold (row_body t id_of statement). unfold L_bind.
  destruct (for_in data (row_body t id_of statement) st) as [u e].
  destruct (for_in data (row_body t id_of statement) st') as [u' e'].
  simpl in *. rewrite Hloop. reflexivity.
Qed.

Lemma batches_steady batches : forall st st',
  list_sum (map reads (List.concat batches)) = 0%nat ->
  conn st = conn st' ->
  conn (snd (for_in batches (batch_body t (save_rows t id_of statement)) st))
  = conn (snd (for_in batches
                 (batch_body t (save_rows t id_of statement)) st')).
Proof.
  induction batches as [|batch batches IH]; intros st st' Hreads Hconn;
    [exact Hconn|].
  rewrite !for_in_cons. simpl in Hreads.
  rewrite map_app, list_sum_app in Hreads. apply IH; [lia|].
  unfold batch_body, L_bind. cbn [emit snd fst].
  apply save_rows_steady; [lia|exact Hconn].
Qed.

Lemma table_steady (fuel : nat) (rows : list A) st st' :
  (List.length rows <= fuel)%nat ->
  list_sum (map reads rows) = 0%nat ->
  conn st = conn st' ->
  exists e e',
    migrate_table t fuel rows (save_rows t id_of statement) st = Some e
    /\ migrate_table t fuel rows (save_rows t id_of statement) st' = Some e'
    /\ conn e = conn e'.
Proof.
  intros Hfuel Hreads Hconn.
  destruct (migrate_table_batches t id_of statement fuel rows Hfuel)
    as (batches & Hcat & Hrun).
  do 2 eexists. split; [apply Hrun|]. split; [apply Hrun|].
  apply batches_steady; [rewrite Hcat; exact Hreads|exact Hconn].
Qed.

End Steady.

(** X18.  When no cell of the source is defaulted (every [created] and
    [modified] cell of person, genre and film_work is truthy, every
    [created] cell of the link tables is not NULL), the outcome of a run
    does not depend on the clock: two runs from the same connection state
    end with the same committed tables and the same answers. *)
Theorem result_does_not_depend_on_the_clock src st1 st2 :
  clock_reads src = 0%nat ->
  conn st1 = conn st2 ->
  exists e1 e2,
    load_from_sqlite src st1 = Some e1
    /\ load_from_sqlite src st2 = Some e2
    /\ conn e1 = conn e2.
Proof.
  unfold clock_reads. intros Hreads Hconn.
  unfold load_from_sqlite, load_from_sqlite_fuel.
  destruct (table_steady person p_id person_statement person_reads
              person_statement_well_keyed person_statement_steady
              (total_rows src) (src_person src) st1 st2)
    as (a1 & b1 & Ha1 & Hb1 & Hc1); [unfold total_rows; lia|lia|exact Hconn|].
  fold save_persons in Ha1, Hb1. rewrite Ha1, Hb1. cbn [obind].
  destruct (table_steady genre g_id genre_statement genre_reads
              genre_statement_well_keyed genre_statement_steady
              (total_rows src) (src_genre src) a1 b1)
    as (a2 & b2 & Ha2 & Hb2 & Hc2); [unfold total_rows; lia|lia|exact Hc1|].
  fold save_genres in Ha2, Hb2. rewrite Ha2, Hb2. cbn [obind].
  destruct (table_steady film_work fw_id film_work_statement film_work_reads
              film_work_statement_well_keyed film_work_statement_steady
              (total_rows src) (src_film_work src) a2 b2)
    as (a3 & b3 & Ha3 & Hb3 & Hc3); [unfold total_rows; lia|lia|exact Hc2|].
  fold save_film_works in Ha3, Hb3. rewrite Ha3, Hb3. cbn [obind].
  destruct (table_steady person_film_work pfw_id person_film_work_statement
              person_film_work_reads person_film_work_statement_well_keyed
              person_film_work_statement_steady
              (total_rows src) (src_person_film_work src) a3 b3)
    as (a4 & b4 & Ha4 & Hb4 & Hc4); [unfold total_rows; lia|lia|exact Hc3|].
  fold save_person_film_work in Ha4, Hb4. rewrite Ha4, Hb4. cbn [obind].
  destruct (table_steady genre_film_work gfw_id genre_film_work_statement
              genre_film_work_reads genre_film_work_statement_well_keyed
              genre_film_work_statement_steady
              (total_rows src) (src_genre_film_work src) a4 b4)
    as (a5 & b5 & Ha5 & Hb5 & Hc5); [unfold total_rows; lia|lia|exact Hc4|].
  fold save_genre_film_work in Ha5, Hb5. rewrite Ha5, Hb5.
  exists a5, b5. repeat split. exact Hc5.
Qed.

Lemma result_does_not_depend_on_the_clock_witness :
  exists e1 e2,
    load_from_sqlite dated_source (start empty_database seconds_clock)
    = Some e1
    /\ load_from_sqlite dated_source (start empty_database stopped_clock)
       = Some e2
    /\ conn e1 = conn e2.
Proof.
  apply (result_does_not_depend_on_the_clock dated_source
           (start empty_database seconds_clock)
           (start empty_database stopped_clock)); reflexivity.
Defined.

(** ** The progress lines of the log *)




Section Progress.

Context {A : Type} (t : table) (id_of : A -> value)
  (statement : A -> L insert_statement).
Hypothesis keyed : well_keyed t id_of statement.
Hypothesis quiet_statement : silent statement.



End Progress.


(** ** Rows the server is bound to refuse *)

Lemma missing_parent_is_seen db t new column parent :
  In (column, parent) (foreign_keys (schema t)) ->
  field new column <> PyNone ->
  ~ In (field new column) (ids (rows_of db parent)) ->
  fk_missing db t new = true.
Proof.
  intros Hfk Hsome Hnone. unfold fk_missing. apply existsb_exists.
  exists (column, parent). split; [exact Hfk|].
  unfold references_missing. apply andb_true_intro. split.
  - apply negb_true_iff. apply not_true_is_false. intros Hn.
    apply Hsome. destruct (field new column); try discriminate. reflexivity.
  - apply negb_true_iff. apply not_true_is_false. intros Hex.
    apply existsb_exists in Hex. destruct Hex as (p & Hp & Heq).
    apply value_eqb_eq in Heq. rewrite primary_key_is_id in Heq.
    apply Hnone. rewrite <- Heq.
    apply (in_map (fun r => field r "id")). exact Hp.
Qed.

Section Dangling.

Context {A : Type} (t : table) (id_of : A -> value)
  (statement : A -> L insert_statement) (cells : A -> string -> value).
Hypothesis keyed : well_keyed t id_of statement.
Hypothesis reads : reads_keys t statement cells.

Lemma dangling_statement_is_refused c row stmt :
  tx c <> Aborted ->
  built statement row stmt ->
  dangling (visible c) t cells row ->
  ~ In (id_of row) (ids (rows_of (visible c) t)) ->
  exists e, fst (execute c stmt) = Failed e.
Proof.
  intros Hlive [st ->] (column & parent & Hfk & Hsome & Hnone) Hnew.
  rewrite (execute_live _ _ Hlive).
  pose proof (insert_outcome_spec (visible c) (fst (statement row st))
                (wk_target _ _ _ keyed row st)) as Hspec.
  cbv zeta in Hspec. rewrite (wk_into _ _ _ keyed) in Hspec.
  pose proof (wk_id _ _ _ keyed row st) as Hid. unfold statement_id in Hid.
  pose proof (reads row st column (foreign_key_is_key _ _ _ Hfk)) as Hcell.
  destruct (insert_outcome (visible c) (fst (statement row st))) as [| |e].
  - exfalso. destruct Hspec as (_ & _ & _ & Hmiss).
    assert (Hseen : fk_missing (visible c) t (new_row (fst (statement row st)))
                    = true).
    { apply (missing_parent_is_seen _ _ _ column parent Hfk);
        rewrite Hcell; assumption. }
    congruence.
  - exfalso. destruct Hspec as [Hsome' Hhit].
    apply (hits_id_iff _ _ Hsome') in Hhit. rewrite Hid in Hhit.
    exact (Hnew Hhit).
  - exists e. reflexivity.
Qed.

Lemma clashing_statement_is_refused c row stmt :
  tx c <> Aborted ->
  built statement row stmt ->
  clashing (visible c) t cells row ->
  ~ In (id_of row) (ids (rows_of (visible c) t)) ->
  exists e, fst (execute c stmt) = Failed e.
Proof.
  intros Hlive [st ->] (index & old & Hindex & Hold & Hsame) Hnew.
  rewrite (execute_live _ _ Hlive).
  pose proof (insert_outcome_spec (visible c) (fst (statement row st))
                (wk_target _ _ _ keyed row st)) as Hspec.
  cbv zeta in Hspec. rewrite (wk_into _ _ _ keyed) in Hspec.
  pose proof (wk_id _ _ _ keyed row st) as Hid. unfold statement_id in Hid.
  assert (Hunique : In index (unique_indexes t)) by (right; exact Hindex).
  destruct (insert_outcome (visible c) (fst (statement row st))) as [| |e].
  - exfalso. destruct Hspec as (_ & _ & Hclash & _).
    assert (Hhit : hits index (new_row (fst (statement row st)))
                     (rows_of (visible c) t) = true).
    { apply existsb_exists. exists old. split; [exact Hold|].
      apply forallb_forall. intros col Hcol.
      rewrite (reads row st col (index_columns_are_keys _ _ _ Hunique Hcol)).
      destruct (Hsame col Hcol) as [Hsome ->].
      rewrite value_eqb_refl, andb_true_r. apply negb_true_iff.
      apply is_none_false. exact Hsome. }
    rewrite (no_clash_no_hit _ _ _ index Hclash Hunique) in Hhit.
    discriminate.
  - exfalso. destruct Hspec as [Hsome' Hhit].
    apply (hits_id_iff _ _ Hsome') in Hhit. rewrite Hid in Hhit.
    exact (Hnew Hhit).
  - exists e. reflexivity.
Qed.

(** A row is doomed when the server refuses its statement in every state
    the batch can reach before it. *)
Lemma doomed_row_loses_the_batch batch st row :
  tx (conn st) = Idle ->
  NoDup (map id_of batch) ->
  In row batch ->
  ~ In (id_of row) (ids (rows_of (committed (conn st)) t)) ->
  (forall c stmt,
      tx c <> Aborted ->
      built statement row stmt ->
      (exists added,
          rows_of (visible c) t = rows_of (committed (conn st)) t ++ added) ->
      (forall t', t' <> t ->
         rows_of (visible c) t' = rows_of (committed (conn st)) t') ->
      ~ In (id_of row) (ids (rows_of (visible c) t)) ->
      exists e, fst (execute c stmt) = Failed e) ->
  committed (conn (snd (save_rows t id_of statement batch st)))
  = committed (conn st).
Proof.
  intros Hidle Hnodup Hin Hnew Hdoomed.
  destruct (save_rows_conn t id_of statement keyed batch st)
    as (sts & Hb & Hc).
  rewrite Hc. apply failed_batch_commits_nothing.
  apply in_split in Hin. destruct Hin as (before & after & ->).
  apply Forall2_app_inv_l in Hb.
  destruct Hb as (sts1 & sts2 & Hb1 & Hb2 & ->).
  inversion Hb2 as [|? stmt ? sts3 Hstmt Hb3]; subst.
  unfold exec_list. rewrite fold_left_app. fold (exec_list (conn st) sts1).
  fold (exec_list (exec_list (conn st) sts1) (stmt :: sts3)).
  rewrite exec_list_cons.
  apply exec_list_aborted.
  destruct (aborted_dec (exec_list (conn st) sts1)) as [Hab|Hlive].
  - rewrite (execute_aborted _ _ Hab). reflexivity.
  - assert (Hlive0 : tx (conn st) <> Aborted) by (rewrite Hidle; discriminate).
    destruct (live_batch_grows t sts1 (conn st) Hlive0
                (built_left _ _ _ _ _ keyed Hb1) Hlive)
      as ((added & Hrows & Hincl) & Hother & _).
    rewrite (visible_idle _ Hidle) in Hrows, Hother.
    rewrite (built_ids _ _ _ _ _ keyed Hb1) in Hincl.
    destruct (Hdoomed (exec_list (conn st) sts1) stmt Hlive Hstmt)
      as [e He]; [eauto|exact Hother| |exact (execute_failed _ _ _ He)].
    rewrite Hrows, ids_app. intros Hold. apply in_app_or in Hold.
    destruct Hold as [Hold|Hold]; [exact (Hnew Hold)|].
    apply Hincl in Hold. rewrite map_app in Hnodup. simpl in Hnodup.
    apply NoDup_remove_2 in Hnodup. apply Hnodup.
    apply in_or_app. left. exact Hold.
Qed.

Lemma dangling_row_loses_the_batch batch st row :
  tx (conn st) = Idle ->
  NoDup (map id_of batch) ->
  In row batch ->
  ~ In (id_of row) (ids (rows_of (committed (conn st)) t)) ->
  dangling (committed (conn st)) t cells row ->
  committed (conn (snd (save_rows t id_of statement batch st)))
  = committed (conn st).
Proof.
  intros Hidle Hnodup Hin Hnew Hdangling.
  apply (doomed_row_loses_the_batch batch st row); try assumption.
  intros c stmt Hlive Hstmt _ Hother Hfresh.
  apply (dangling_statement_is_refused c row stmt); try assumption.
  destruct Hdangling as (column & parent & Hfk & Hsome & Hnone).
  exists column, parent. split; [exact Hfk|]. split; [exact Hsome|].
  rewrite Hother by exact (parent_is_another_table _ _ _ Hfk).
  exact Hnone.
Qed.

Lemma clashing_row_loses_the_batch batch st row :
  tx (conn st) = Idle ->
  NoDup (map id_of batch) ->
  In row batch ->
  ~ In (id_of row) (ids (rows_of (committed (conn st)) t)) ->
  clashing (committed (conn st)) t cells row ->
  committed (conn (snd (save_rows t id_of statement batch st)))
  = committed (conn st).
Proof.
  intros Hidle Hnodup Hin Hnew Hclashing.
  apply (doomed_row_loses_the_batch batch st row); try assumption.
  intros c stmt Hlive Hstmt [added Hrows] _ Hfresh.
  apply (clashing_statement_is_refused c row stmt); try assumption.
  destruct Hclashing as (index & old & Hindex & Hold & Hsame).
  exists index, old. split; [exact Hindex|]. split; [|exact Hsame].
  rewrite Hrows. apply in_or_app. left. exact Hold.
Qed.

End Dangling.

(** X22.  One link whose film work, person or genre is not in the target
    loses its whole batch.  If a batch of links (with distinct ids) holds
    a row that is not stored yet and names, in a foreign key, an id the
    parent table does not hold, then after the writer's commit the tables
    are as they were before the batch: none of up to 1000 links is
    stored. *)
Theorem dangling_link_loses_its_batch :
  (forall batch st row,
      tx (conn st) = Idle ->
      NoDup (map pfw_id batch) ->
      In row batch ->
      ~ In (pfw_id row)
          (ids (person_film_work_rows (committed (conn st)))) ->
      unresolved_person_link (committed (conn st)) row ->
      committed (conn (snd (save_person_film_work batch st)))
      = committed (conn st))
  /\ (forall batch st row,
        tx (conn st) = Idle ->
        NoDup (map gfw_id batch) ->
        In row batch ->
        ~ In (gfw_id row)
            (ids (genre_film_work_rows (committed (conn st)))) ->
        unresolved_genre_link (committed (conn st)) row ->
        committed (conn (snd (save_genre_film_work batch st)))
        = committed (conn st)).
Proof.
  split; intros batch st row Hidle Hnodup Hin Hnew Hlink.
  - apply (dangling_row_loses_the_batch person_film_work pfw_id
             person_film_work_statement person_film_work_cells
             person_film_work_statement_well_keyed
             person_film_work_statement_reads batch st row);
      try assumption.
    destruct Hlink as [[Hsome Hnone]|[Hsome Hnone]].
    + exists "film_work_id", film_work. simpl. auto.
    + exists "person_id", person. simpl. auto.
  - apply (dangling_row_loses_the_batch genre_film_work gfw_id
             genre_film_work_statement genre_film_work_cells
             genre_film_work_statement_well_keyed
             genre_film_work_statement_reads batch st row);
      try assumption.
    destruct Hlink as [[Hsome Hnone]|[Hsome Hnone]].
    + exists "film_work_id", film_work. simpl. auto.
    + exists "genre_id", genre. simpl. auto.
Qed.

Lemma dangling_link_loses_its_batch_witness :
  committed (conn (snd (save_person_film_work three_links
                          (start parents_target seconds_clock))))
  = parents_target.
Proof.
  destruct dangling_link_loses_its_batch as [Hlinks _].
  apply (Hlinks three_links (start parents_target seconds_clock)
           (mkPersonFilmWork (PyStr "L2") (PyStr "actor") PyNone (PyStr "F2")
              (PyStr "P1"))).
  - reflexivity.
  - repeat constructor; simpl; intuition discriminate.
  - simpl. auto.
  - simpl. tauto.
  - left. simpl. split; [discriminate|intuition discriminate].
Defined.

(** X23.  A row that repeats a stored unique key under a new id is not
    skipped by the conflict clause, which names [id] only: it loses its
    whole batch.  This holds for a genre whose name is stored, for a link
    that joins the film work, person and role of a stored link, and for a
    link that joins the genre and film work of a stored link: after the
    writer's commit the tables are as they were before the batch. *)
Theorem repeated_key_loses_its_batch :
  (forall batch st row,
      tx (conn st) = Idle ->
      NoDup (map g_id batch) ->
      In row batch ->
      ~ In (g_id row) (ids (genre_rows (committed (conn st)))) ->
      repeated_genre_name (committed (conn st)) row ->
      committed (conn (snd (save_genres batch st))) = committed (conn st))
  /\ (forall batch st row,
        tx (conn st) = Idle ->
        NoDup (map pfw_id batch) ->
        In row batch ->
        ~ In (pfw_id row)
            (ids (person_film_work_rows (committed (conn st)))) ->
        repeated_person_link (committed (conn st)) row ->
        committed (conn (snd (save_person_film_work batch st)))
        = committed (conn st))
  /\ (forall batch st row,
        tx (conn st) = Idle ->
        NoDup (map gfw_id batch) ->
        In row batch ->
        ~ In (gfw_id row)
            (ids (genre_film_work_rows (committed (conn st)))) ->
        repeated_genre_link (committed (conn st)) row ->
        committed (conn (snd (save_genre_film_work batch st)))
        = committed (conn st)).
Proof.
  split; [|split]; intros batch st row Hidle Hnodup Hin Hnew Hrepeat.
  - apply (clashing_row_loses_the_batch genre g_id genre_statement
             genre_cells genre_statement_well_keyed genre_statement_reads
             batch st row); try assumption.
    destruct Hrepeat as (old & Hold & Hsome & Hname).
    exists ["name"], old. split; [left; reflexivity|]. split; [exact Hold|].
    intros c [<-|[]]. auto.
  - apply (clashing_row_loses_the_batch person_film_work pfw_id
             person_film_work_statement person_film_work_cells
             person_film_work_statement_well_keyed
             person_film_work_statement_reads batch st row); try assumption.
    destruct Hrepeat as (old & Hold & Hf & Hp & Hr & Hfe & Hpe & Hre).
    exists ["film_work_id"; "person_id"; "role"], old.
    split; [left; reflexivity|]. split; [exact Hold|].
    intros c [<-|[<-|[<-|[]]]]; auto.
  - apply (clashing_row_loses_the_batch genre_film_work gfw_id
             genre_film_work_statement genre_film_work_cells
             genre_film_work_statement_well_keyed
             genre_film_work_statement_reads batch st row); try assumption.
    destruct Hrepeat as (old & Hold & Hg & Hf & Hge & Hfe).
    exists ["genre_id"; "film_work_id"], old.
    split; [left; reflexivity|]. split; [exact Hold|].
    intros c [<-|[<-|[]]]; auto.
Qed.

Lemma repeated_key_loses_its_batch_witness :
  committed
    (conn (snd (save_person_film_work
                  [mkPersonFilmWork (PyStr "L8") (PyStr "writer") PyNone
                     (PyStr "F3") (PyStr "P1");
                   mkPersonFilmWork (PyStr "L9") (PyStr "actor") PyNone
                     (PyStr "F1") (PyStr "P1")]
                  (start linked_target seconds_clock))))
  = linked_target.
Proof.
  destruct repeated_key_loses_its_batch as (_ & Hlinks & _).
  apply (Hlinks _ (start linked_target seconds_clock)
           (mkPersonFilmWork (PyStr "L9") (PyStr "actor") PyNone
              (PyStr "F1") (PyStr "P1"))).
  - reflexivity.
  - repeat constructor; simpl; intuition discriminate.
  - simpl. auto.
  - simpl. intuition discriminate.
  - exists [("id", PyStr "L0"); ("role", PyStr "actor");
            ("film_work_id", PyStr "F1"); ("person_id", PyStr "P1")].
    simpl. repeat split; auto; discriminate.
Defined.

End WriterMore.

(** * The loader and the checker together *)

Module EndToEnd.
Import Py Postgres Loader PostgresProps LoaderProps LoaderScenarios
  LoaderNotions CheckerFacts PostgresFacts ReaderFacts WriterFacts
  PostgresMore WriterMore.
Local Open Scope loader_scope.

Lemma stored_as_length {A} (statement : A -> L insert_statement) rows stored :
  stored_as statement rows stored -> List.length stored = List.length rows.
Proof.
  intros (sts & Hb & ->). rewrite length_map. symmetry.
  eapply Forall2_length. exact Hb.
Qed.

Lemma counts_agree sqlite_conn pg_conn name
  (rows pg_rows : list Checker.row) report :
  sqlite_conn name = Some rows ->
  pg_conn name = Some pg_rows ->
  List.length pg_rows = List.length rows ->
  exists n,
    Checker.compare_table_count sqlite_conn pg_conn name report
    = (Ok true,
       report ++ [Checker.InfoCounts name n n;
                  Checker.InfoCountMatches name]).
Proof.
  intros Hs Hp Hlen. exists (List.length rows).
  rewrite (compare_table_count_equal _ _ _ _ _ _ Hs Hp (eq_sym Hlen)), Hlen.
  reflexivity.
Qed.

(** X24.  The loader and the checker agree on counts.  After the run on a
    source that fits the schema, into empty tables (same model of the
    server), the count check of the checker passes for each of the five
    tables: it logs the two equal counts and the match line and raises
    nothing. *)
Theorem count_check_passes_after_migration src clock :
  consistent src ->
  exists e,
    load_from_sqlite src (start empty_database clock) = Some e
    /\ forall name, In name Checker.tables ->
       forall report, exists n,
         Checker.compare_table_count (sqlite_view src)
           (pg_view (committed (conn e))) name report
         = (Ok true,
            report ++ [Checker.InfoCounts name n n;
                       Checker.InfoCountMatches name]).
Proof.
  intros Hsrc.
  destruct (consistent_run_fuel (total_rows src) src clock)
    as (e & Hrun & _ & Hp & Hg & Hf & Hpf & Hgf & _);
    try exact Hsrc; try (unfold total_rows; lia).
  exists e. split; [exact Hrun|].
  apply stored_as_length in Hp, Hg, Hf, Hpf, Hgf.
  intros name Hin report. simpl in Hin.
  destruct Hin as [<-|[<-|[<-|[<-|[<-|[]]]]]].
  - apply (counts_agree _ _ "person" (map person_columns (src_person src))
             (person_rows (committed (conn e))));
      [reflexivity|reflexivity|rewrite length_map; exact Hp].
  - apply (counts_agree _ _ "genre" (map genre_columns (src_genre src))
             (genre_rows (committed (conn e))));
      [reflexivity|reflexivity|rewrite length_map; exact Hg].
  - apply (counts_agree _ _ "film_work"
             (map film_work_columns (src_film_work src))
             (film_work_rows (committed (conn e))));
      [reflexivity|reflexivity|rewrite length_map; exact Hf].
  - apply (counts_agree _ _ "genre_film_work"
             (map genre_film_work_columns (src_genre_film_work src))
             (genre_film_work_rows (committed (conn e))));
      [reflexivity|reflexivity|rewrite length_map; exact Hgf].
  - apply (counts_agree _ _ "person_film_work"
             (map person_film_work_columns (src_person_film_work src))
             (person_film_work_rows (committed (conn e))));
      [reflexivity|reflexivity|rewrite length_map; exact Hpf].
Qed.

Lemma count_check_passes_after_migration_witness :
  exists e,
    load_from_sqlite library_source (start empty_database seconds_clock)
    = Some e
    /\ forall name, In name Checker.tables ->
       forall report, exists n,
         Checker.compare_table_count (sqlite_view library_source)
           (pg_view (committed (conn e))) name report
         = (Ok true,
            report ++ [Checker.InfoCounts name n n;
                       Checker.InfoCountMatches name]).
Proof.
  apply (count_check_passes_after_migration library_source seconds_clock).
  check_consistent.
Defined.

End EndToEnd.
